(** * cardillo: generalized-alpha DAE solvers with normal contacts

    A shallow embedding of [cardillo/solver/genAlphaDAE.py] (the classes
    [GenAlphaFirstOrderVelocityGGLNormalContacts],
    [GenAlphaFirstOrderVelocityGGL], the parameter block of
    [GenAlphaFirstOrderVelocity], the constructor, [update], [pack] and
    [unpack] of [GenAlphaDAEPos]) and of [cardillo/math/fsolve.py].

    Conventions of the embedding.
    - A Python float is a rational number [Q]: arithmetic is exact, so the
      statements below are about the formulas the code evaluates, not about
      IEEE round-off.  [x / 0] on a Python float raises
      [ZeroDivisionError] and is modelled by [pydiv]; a numpy array divided
      by a zero scalar gives inf/nan, which [Q] does not have, and the
      solver's constructor excludes that case for [rho_inf] in [0, 1]
      (see the theorem on the constructor's parameters).
    - A one-dimensional numpy array is a [list Q], a boolean array a
      [list bool].  Shape errors of numpy ([ValueError], [IndexError]) are
      results of the operations, as are Python's [AttributeError] for an
      attribute that was never assigned and a failed [assert].
    - A solver object is a record of its attributes; a method is a function
      from the object's state to a result and the state it leaves behind,
      also when it raises. *)

From Stdlib Require Import String.
From Stdlib Require Import QArith Qabs Qround ZArith List Bool Lia Lqa Qfield.
Import ListNotations.

Set Implicit Arguments.

(** ** Exceptions and results *)

Inductive exn : Type :=
| AttributeError (attr : string)
| AssertionError (msg : string)
| ValueError (msg : string)
| IndexError (msg : string)
| TypeError (msg : string)
| ZeroDivisionError
| NotImplementedError (msg : string)
(** [RuntimeError(f"internal Newton-Raphson method not converged after
    {n_iter} steps with error: {error:.5e}")]: the two interpolated values. *)
| RuntimeError (n_iter : nat) (error : Q).

Inductive Result (A : Type) : Type :=
| Ok (a : A)
| Raise (e : exn).

Arguments Ok {A} a.
Arguments Raise {A} e.

Definition rbind {A B} (r : Result A) (k : A -> Result B) : Result B :=
  match r with
  | Ok a => k a
  | Raise e => Raise e
  end.

Declare Scope res_scope.
Delimit Scope res_scope with res.
Notation "x <- c ;; k" := (rbind c (fun x => k))
  (at level 61, c at next level, right associativity) : res_scope.
Notation "' p <- c ;; k" := (rbind c (fun x => let 'p := x in k))
  (at level 61, p pattern, c at next level, right associativity) : res_scope.

(** [assert cond, msg] *)
Definition assert (cond : bool) (msg : string) : Result unit :=
  if cond then Ok tt else Raise (AssertionError msg).

(** ** Methods: state and exceptions

    [Prog S A] is a method body run on an object of state [S]: it returns
    a value or raises, and in both cases leaves a state behind (attribute
    assignments made before a [raise] persist, as in Python). *)

Definition Prog (S A : Type) : Type := S -> Result A * S.

Definition ret {S A} (a : A) : Prog S A := fun s => (Ok a, s).

Definition raise {S A} (e : exn) : Prog S A := fun s => (Raise e, s).

Definition bind {S A B} (m : Prog S A) (k : A -> Prog S B) : Prog S B :=
  fun s =>
    match m s with
    | (Ok a, s') => k a s'
    | (Raise e, s') => (Raise e, s')
    end.

(** read an attribute: [self.f] *)
Definition gets {S A} (f : S -> A) : Prog S A := fun s => (Ok (f s), s).

(** assign attributes: [self.f = v] *)
Definition modify {S} (f : S -> S) : Prog S unit := fun s => (Ok tt, f s).

(** a numpy expression evaluated inside a method *)
Definition lift {S A} (r : Result A) : Prog S A := fun s => (r, s).

Declare Scope prog_scope.
Delimit Scope prog_scope with prog.
Notation "x <- c ;; k" := (bind c (fun x => k))
  (at level 61, c at next level, right associativity) : prog_scope.
Notation "' p <- c ;; k" := (bind c (fun x => let 'p := x in k))
  (at level 61, p pattern, c at next level, right associativity) : prog_scope.
Notation "c ;;; k" := (bind c (fun _ => k))
  (at level 61, right associativity) : prog_scope.

(** ** numpy arrays *)

Definition vec := list Q.
Definition mask := list bool.

Definition Qlt_bool (a b : Q) : bool := negb (Qle_bool b a).

(** Python's [a / b] on floats. *)
Definition pydiv (a b : Q) : Result Q :=
  if Qeq_bool b 0 then Raise ZeroDivisionError else Ok (a / b)%Q.

Module Np.

Fixpoint zip_with {A B C} (f : A -> B -> C) (u : list A) (v : list B)
  : list C :=
  match u, v with
  | a :: u', b :: v' => f a b :: zip_with f u' v'
  | _, _ => []
  end.

(** An elementwise binary operation on two one-dimensional arrays: equal
    lengths, or one operand of length one, which is stretched. *)
Definition broadcast {A B C} (f : A -> B -> C) (u : list A) (v : list B)
  : Result (list C) :=
  if length u =? length v then Ok (zip_with f u v)
  else match u, v with
       | [a], _ => Ok (map (f a) v)
       | _, [b] => Ok (map (fun a => f a b) u)
       | _, _ => Raise (ValueError "operands could not be broadcast together")
       end.

Definition add : vec -> vec -> Result vec := broadcast Qplus.
Definition sub : vec -> vec -> Result vec := broadcast Qminus.
Definition mul : vec -> vec -> Result vec := broadcast Qmult.
(** [m1 * m2] on boolean arrays *)
Definition band : mask -> mask -> Result mask := broadcast andb.

(** scalar-array operations *)
Definition scale (c : Q) (v : vec) : vec := map (Qmult c) v.
Definition div_scalar (v : vec) (c : Q) : vec := map (fun a => a / c)%Q v.
Definition le0 (v : vec) : mask := map (fun a => Qle_bool a 0) v.
Definition ge0 (v : vec) : mask := map (fun a => Qle_bool 0 a) v.
Definition neg (v : vec) : vec := map Qopp v.
(** [~m] *)
Definition invert (m : mask) : mask := map negb m.
(** [np.all] *)
Definition all (m : mask) : bool := forallb (fun b => b) m.

Definition zeros (n : nat) : vec := repeat 0%Q n.
Definition zeros_like (v : vec) : vec := zeros (length v).

(** [x[a:b]]; the bounds are clipped to the array as Python does. *)
Definition slice {A} (a b : nat) (x : list A) : list A :=
  firstn (b - a) (skipn a x).

(** [x[a:]] *)
Definition slice_from {A} (a : nat) (x : list A) : list A := skipn a x.

(** [x[a:b] = v]: [v] has the length of the clipped slice, or length
    one. *)
Definition set_slice (a b : nat) (v x : vec) : Result vec :=
  let lo := Nat.min a (length x) in
  let hi := Nat.max lo (Nat.min b (length x)) in
  if length v =? hi - lo then Ok (firstn lo x ++ v ++ skipn hi x)
  else match v with
       | [c] => Ok (firstn lo x ++ repeat c (hi - lo) ++ skipn hi x)
       | _ => Raise (ValueError "could not broadcast input array")
       end.

(** [np.where(m)[0]] *)
Fixpoint where_from (i : nat) (m : mask) : list nat :=
  match m with
  | [] => []
  | b :: m' => if b then i :: where_from (S i) m' else where_from (S i) m'
  end.
Definition where_ (m : mask) : list nat := where_from 0 m.

(** [v[m]] for a boolean array [m] *)
Fixpoint select {A} (v : list A) (m : mask) : list A :=
  match v, m with
  | a :: v', b :: m' => if b then a :: select v' m' else select v' m'
  | _, _ => []
  end.
Definition bool_index {A} (v : list A) (m : mask) : Result (list A) :=
  if length m =? length v then Ok (select v m)
  else Raise (IndexError "boolean index did not match indexed array").

Fixpoint set_nth {A} (i : nat) (a : A) (x : list A) : list A :=
  match x, i with
  | [], _ => []
  | _ :: x', O => a :: x'
  | b :: x', S i' => b :: set_nth i' a x'
  end.

Fixpoint put_all {A} (idx : list nat) (vals : list A) (x : list A)
  : list A :=
  match idx, vals with
  | i :: idx', a :: vals' => put_all idx' vals' (set_nth i a x)
  | _, _ => x
  end.

(** [x[idx] = vals] for an integer index array [idx] *)
Definition set_index (idx : list nat) (vals x : vec) : Result vec :=
  if existsb (fun i => length x <=? i) idx
  then Raise (IndexError "index is out of bounds")
  else if length vals =? length idx then Ok (put_all idx vals x)
  else match vals with
       | [c] => Ok (put_all idx (repeat c (length idx)) x)
       | _ => Raise (ValueError "shape mismatch")
       end.

(** The array after [x[base + np.where(m)[0]] = v[m]] and
    [x[base + np.where(~m)[0]] = w[~m]], the pattern of each contact level
    of the residual. *)
Definition write_pair (base : nat) (m : mask) (v w x : vec) : vec :=
  put_all (map (Nat.add base) (where_ (invert m))) (select w (invert m))
    (put_all (map (Nat.add base) (where_ m)) (select v m) x).

(** [x -= dx] *)
Definition isub (x dx : vec) : Result vec :=
  if length x =? length dx then Ok (zip_with Qminus x dx)
  else match dx with
       | [c] => Ok (map (fun a => a - c)%Q x)
       | _ => Raise (ValueError "operands could not be broadcast together")
       end.

(** [np.allclose(a, b)] with the default [rtol=1e-5], [atol=1e-8] *)
Definition allclose (a b : vec) : Result bool :=
  (r <- broadcast
         (fun x y => Qle_bool (Qabs (x - y)) (1e-8 + 1e-5 * Qabs y))%Q a b ;;
   Ok (all r))%res.

(** [np.max(np.abs(x))]; [np.max] of an empty array raises. *)
Definition max_abs (x : vec) : Result Q :=
  match x with
  | [] => Raise (ValueError "zero-size array to reduction operation maximum")
  | a :: x' =>
      Ok (fold_left (fun m b => if Qle_bool m (Qabs b) then Qabs b else m)
                    x' (Qabs a))
  end.

(** A matrix (dense or scipy sparse): its column count and its rows. *)
Record mat : Type := { ncols : nat; rows : list vec }.

Definition dot (r v : vec) : Q :=
  fold_left Qplus (zip_with Qmult r v) 0%Q.

(** [A @ v] *)
Definition matvec (A : mat) (v : vec) : Result vec :=
  if ncols A =? length v then Ok (map (fun r => dot r v) (rows A))
  else Raise (ValueError "matmul: dimension mismatch").

(** [A.T] *)
Definition transpose (A : mat) : mat :=
  {| ncols := length (rows A);
     rows := map (fun j => map (fun r => nth j r 0%Q) (rows A))
                 (seq 0 (ncols A)) |}.

Definition mneg (A : mat) : mat :=
  {| ncols := ncols A; rows := map neg (rows A) |}.

(** [bmat([[M, -W_g, -W_gamma], [W_g.T, None, None],
    [W_gamma.T, None, None]])]: the blocks of a block row have the same
    number of rows and the blocks of a block column the same number of
    columns; [None] is a zero block. *)
Definition bmat_saddle (M W_g W_gamma : mat) : Result mat :=
  let n := length (rows M) in
  if (length (rows W_g) =? n) && (length (rows W_gamma) =? n)
     && (ncols M =? n)
  then
    let w := (ncols W_g + ncols W_gamma)%nat in
    Ok {| ncols := (ncols M + w)%nat;
          rows :=
            zip_with (@app Q)
              (zip_with (@app Q) (rows M) (rows (mneg W_g)))
              (rows (mneg W_gamma))
            ++ map (fun r => r ++ zeros w) (rows (transpose W_g))
            ++ map (fun r => r ++ zeros w) (rows (transpose W_gamma)) |}
  else Raise (ValueError "blocks must have compatible dimensions").

(** [np.arange(start, stop, step)] has [ceil((stop - start) / step)]
    entries; only its length matters to the drivers. *)
Definition arange_len (start stop step : Q) : Result nat :=
  if Qeq_bool step 0
  then Raise (ValueError "Maximum allowed size exceeded")
  else Ok (Z.to_nat (Qceiling ((stop - start) / step))).

End Np.

(** ** The model interface

    The mechanical system is an external collaborator of the solvers: it
    supplies dimensions, initial values and the functions of [(t, q, u)]
    the residual is assembled from.  It is a parameter of everything
    below; its functions are pure. *)

Module Model.

Record t : Type := {
  t0 : Q;
  q0 : vec;
  u0 : vec;
  la_g0 : vec;
  la_gamma0 : vec;
  la_N0 : vec;
  nq : nat;
  nu : nat;
  nla_g : nat;
  nla_gamma : nat;
  nla_N : nat;
  q_dot : Q -> vec -> vec -> vec;
  M : Q -> vec -> Np.mat;
  h : Q -> vec -> vec -> vec;
  W_g : Q -> vec -> Np.mat;
  W_gamma : Q -> vec -> Np.mat;
  W_N : Q -> vec -> Np.mat;
  g : Q -> vec -> vec;
  g_dot : Q -> vec -> vec -> vec;
  g_ddot : Q -> vec -> vec -> vec -> vec;
  g_q : Q -> vec -> Np.mat;
  gamma : Q -> vec -> vec -> vec;
  gamma_dot : Q -> vec -> vec -> vec -> vec;
  zeta_g : Q -> vec -> vec -> vec;
  zeta_gamma : Q -> vec -> vec -> vec;
  g_N : Q -> vec -> vec;
  xi_N : Q -> vec -> vec -> vec -> vec;
  g_N_ddot : Q -> vec -> vec -> vec -> vec;
  prox_r_N : vec;
  step_callback : Q -> vec -> vec -> vec * vec
}.

End Model.

(** The value of a solver's [t1] attribute: the conditional expression
    [t1 if t1 > t0 else ValueError(...)] evaluates to the number or to an
    exception object that is stored, not raised. *)
Inductive T1_value : Type :=
| T1_float (t1 : Q)
| T1_exception (e : exn).

(** What the attribute [__R_gen] is bound to. *)
Inductive R_gen_kind : Type :=
| R_gen_num
| R_gen_analytic.

(** [cardillo.math.approx_fprime(x0, f, eps=..., method=...)]: the
    finite-difference Jacobian of [f] at [x0].  Its source is not part of
    the files embedded here, so the solvers take it as a parameter of this
    type; [None] stands for the default [eps]. *)
Definition approx_fprime_t : Type :=
  vec -> (vec -> Result vec) -> option Q -> string -> Result Np.mat.

(** [getattr]: reading an attribute that may not have been assigned yet. *)
Definition getattr {S A} (name : string) (f : S -> option A) : Prog S A :=
  fun s =>
    match f s with
    | Some a => (Ok a, s)
    | None => (Raise (AttributeError name), s)
    end.

(** ** class GenAlphaFirstOrderVelocityGGLNormalContacts *)

Module GenAlphaFirstOrderVelocityGGLNormalContacts.

(** The attributes of a solver object.  [nR_smooth], [Ai1], [Bi1] and
    [Ci1] are first assigned inside [R], so they are absent ([None])
    after construction.  The attribute [model] is the section variable
    below: no method assigns it.  The record lives in a module of its
    own so that [self.vk] reads as in the source. *)
Module self.

Record t : Type := {
  DAE_index : Z;
  t0 : Q;
  t1 : T1_value;
  dt : Q;
  rho_inf : Q;
  alpha_m : Q;
  alpha_f : Q;
  gamma : Q;
  beta : Q;
  tol : Q;
  max_iter : Z;
  error_function : vec -> Result Q;
  nq : nat;
  nu : nat;
  nla_g : nat;
  nla_gamma : nat;
  nla_N : nat;
  ny : nat;
  nx : nat;
  tk : Q;
  qk : vec;
  uk : vec;
  kappa_gk : vec;
  la_gk : vec;
  La_gk : vec;
  la_gammak : vec;
  kappa_Nk : vec;
  la_Nk : vec;
  La_Nk : vec;
  la_gbark : vec;
  la_Nbark : vec;
  q_dotk : vec;
  u_dotk : vec;
  yk : vec;
  y_dotk : vec;
  vk : vec;
  xk : vec;
  R_gen : R_gen_kind;
  k : nat;
  nR_smooth : option nat;
  Ai1 : option mask;
  Bi1 : option mask;
  Ci1 : option mask
}.

(** The attributes that are assigned outside the constructor, and
    [DAE_index], which is compared across solver objects below. *)
Inductive attr : Type :=
| a_DAE_index | a_tk | a_uk | a_yk | a_y_dotk | a_vk | a_xk | a_k
| a_nR_smooth | a_Ai1 | a_Bi1 | a_Ci1.

Definition attr_type (a : attr) : Type :=
  match a with
  | a_DAE_index => Z
  | a_tk => Q
  | a_uk | a_yk | a_y_dotk | a_vk | a_xk => vec
  | a_k | a_nR_smooth => nat
  | a_Ai1 | a_Bi1 | a_Ci1 => mask
  end.

(** [self.a = v]: every other attribute keeps its value. *)
Definition setattr (a : attr) (v : attr_type a) (s : t) : t :=
  {| DAE_index :=
       match a return attr_type a -> Z with
       | a_DAE_index => fun v => v | _ => fun _ => DAE_index s end v;
     t0 := t0 s; t1 := t1 s; dt := dt s; rho_inf := rho_inf s;
     alpha_m := alpha_m s; alpha_f := alpha_f s; gamma := gamma s;
     beta := beta s; tol := tol s; max_iter := max_iter s;
     error_function := error_function s;
     nq := nq s; nu := nu s; nla_g := nla_g s; nla_gamma := nla_gamma s;
     nla_N := nla_N s; ny := ny s; nx := nx s;
     tk :=
       match a return attr_type a -> Q with
       | a_tk => fun v => v | _ => fun _ => tk s end v;
     qk := qk s;
     uk :=
       match a return attr_type a -> vec with
       | a_uk => fun v => v | _ => fun _ => uk s end v;
     kappa_gk := kappa_gk s; la_gk := la_gk s; La_gk := La_gk s;
     la_gammak := la_gammak s; kappa_Nk := kappa_Nk s; la_Nk := la_Nk s;
     La_Nk := La_Nk s; la_gbark := la_gbark s; la_Nbark := la_Nbark s;
     q_dotk := q_dotk s; u_dotk := u_dotk s;
     yk :=
       match a return attr_type a -> vec with
       | a_yk => fun v => v | _ => fun _ => yk s end v;
     y_dotk :=
       match a return attr_type a -> vec with
       | a_y_dotk => fun v => v | _ => fun _ => y_dotk s end v;
     vk :=
       match a return attr_type a -> vec with
       | a_vk => fun v => v | _ => fun _ => vk s end v;
     xk :=
       match a return attr_type a -> vec with
       | a_xk => fun v => v | _ => fun _ => xk s end v;
     R_gen := R_gen s;
     k :=
       match a return attr_type a -> nat with
       | a_k => fun v => v | _ => fun _ => k s end v;
     nR_smooth :=
       match a return attr_type a -> option nat with
       | a_nR_smooth => fun v => Some v | _ => fun _ => nR_smooth s end v;
     Ai1 :=
       match a return attr_type a -> option mask with
       | a_Ai1 => fun v => Some v | _ => fun _ => Ai1 s end v;
     Bi1 :=
       match a return attr_type a -> option mask with
       | a_Bi1 => fun v => Some v | _ => fun _ => Bi1 s end v;
     Ci1 :=
       match a return attr_type a -> option mask with
       | a_Ci1 => fun v => Some v | _ => fun _ => Ci1 s end v |}.

End self.

Definition Solver : Type := self.t.

(** The keyword arguments [solve] passes to [Solution]: one entry per
    accepted step, the initial values first. *)
Record Solution : Type := {
  sol_t : list Q;
  sol_q : list vec;
  sol_u : list vec;
  sol_q_dot : list vec;
  sol_u_dot : list vec;
  sol_kappa_g : list vec;
  sol_La_g : list vec;
  sol_la_g : list vec;
  sol_la_gamma : list vec;
  sol_kappa_N : list vec;
  sol_La_N : list vec;
  sol_la_N : list vec
}.

Section Methods.

Variable model : Model.t.
(** [scipy.sparse.linalg.spsolve], the external sparse linear solve. *)
Variable spsolve : Np.mat -> vec -> Result vec.
Variable approx_fprime : approx_fprime_t.

Local Open Scope Q_scope.

(** The body of [pack] once the dimensions have been read from
    [self]. *)
Definition pack_arrays (nq nu nla_g nla_gamma nla_N nx : nat)
    (q_dot u_dot kappa_g La_g la_g la_gamma kappa_N La_N la_N : vec)
  : Result vec :=
  (let x := Np.zeros nx in
   x <- Np.set_slice 0 nq q_dot x ;;
   x <- Np.set_slice nq (nq + nu) u_dot x ;;
   x <- Np.set_slice (nq + nu) (nq + nu + nla_g) kappa_g x ;;
   x <- Np.set_slice (nq + nu + nla_g) (nq + nu + 2 * nla_g) La_g x ;;
   x <- Np.set_slice (nq + nu + 2 * nla_g) (nq + nu + 3 * nla_g) la_g x ;;
   x <- Np.set_slice (nq + nu + 3 * nla_g)
                     (nq + nu + 3 * nla_g + nla_gamma) la_gamma x ;;
   x <- Np.set_slice (nq + nu + 3 * nla_g + nla_gamma)
                     (nq + nu + 3 * nla_g + nla_gamma + nla_N)
                     kappa_N x ;;
   x <- Np.set_slice (nq + nu + 3 * nla_g + nla_gamma + nla_N)
                     (nq + nu + 3 * nla_g + nla_gamma + 2 * nla_N)
                     La_N x ;;
   x <- Np.set_slice (nq + nu + 3 * nla_g + nla_gamma + 2 * nla_N)
                     (nq + nu + 3 * nla_g + nla_gamma + 3 * nla_N)
                     la_N x ;;
   Ok x)%res.

Definition pack
    (q_dot u_dot kappa_g La_g la_g la_gamma kappa_N La_N la_N : vec)
  : Prog Solver vec :=
  (nq <- gets self.nq ;;
   nu <- gets self.nu ;;
   nla_g <- gets self.nla_g ;;
   nla_gamma <- gets self.nla_gamma ;;
   nla_N <- gets self.nla_N ;;
   nx <- gets self.nx ;;
   lift (pack_arrays nq nu nla_g nla_gamma nla_N nx
           q_dot u_dot kappa_g La_g la_g la_gamma kappa_N La_N la_N))%prog.

Definition unpack (x : vec)
  : Prog Solver (vec * vec * vec * vec * vec * vec * vec * vec * vec) :=
  (nq <- gets self.nq ;;
   nu <- gets self.nu ;;
   nla_g <- gets self.nla_g ;;
   nla_gamma <- gets self.nla_gamma ;;
   nla_N <- gets self.nla_N ;;
   let q_dot := Np.slice 0 nq x in
   let u_dot := Np.slice nq (nq + nu) x in
   let kappa_g := Np.slice (nq + nu) (nq + nu + nla_g) x in
   let La_g := Np.slice (nq + nu + nla_g) (nq + nu + 2 * nla_g) x in
   let la_g := Np.slice (nq + nu + 2 * nla_g) (nq + nu + 3 * nla_g) x in
   let la_gamma :=
     Np.slice (nq + nu + 3 * nla_g) (nq + nu + 3 * nla_g + nla_gamma) x in
   let kappa_N :=
     Np.slice (nq + nu + 3 * nla_g + nla_gamma)
              (nq + nu + 3 * nla_g + nla_gamma + nla_N) x in
   let La_N :=
     Np.slice (nq + nu + 3 * nla_g + nla_gamma + nla_N)
              (nq + nu + 3 * nla_g + nla_gamma + 2 * nla_N) x in
   let la_N :=
     Np.slice (nq + nu + 3 * nla_g + nla_gamma + 2 * nla_N)
              (nq + nu + 3 * nla_g + nla_gamma + 3 * nla_N) x in
   ret (q_dot, u_dot, kappa_g, La_g, la_g, la_gamma, kappa_N, La_N, la_N)
  )%prog.

(** [update(self, y_dotk1, store=False)] *)
Definition update (y_dotk1 : vec) (store : bool)
  : Prog Solver (vec * vec * vec * vec) :=
  (nq <- gets self.nq ;;
   nu <- gets self.nu ;;
   dt <- gets self.dt ;;
   gamma <- gets self.gamma ;;
   alpha_f <- gets self.alpha_f ;;
   alpha_m <- gets self.alpha_m ;;
   (* auxiliary variables, see Arnold2008 (3) *)
   y_dotk <- gets self.y_dotk ;;
   a <- lift (Np.add (Np.scale alpha_f y_dotk)
                     (Np.scale (1.0 - alpha_f) y_dotk1)) ;;
   vk <- gets self.vk ;;
   b <- lift (Np.sub a (Np.scale alpha_m vk)) ;;
   let vk1 := Np.div_scalar b (1.0 - alpha_m) in
   (* approximation of the single integral, see Arnold2008 (5) *)
   yk <- gets self.yk ;;
   vk <- gets self.vk ;;
   c <- lift (Np.add (Np.scale (1.0 - gamma) vk) (Np.scale gamma vk1)) ;;
   yk1 <- lift (Np.add yk (Np.scale dt c)) ;;
   (if store then
      modify (self.setattr self.a_vk vk1) ;;;
      modify (self.setattr self.a_yk yk1) ;;;
      modify (self.setattr self.a_y_dotk y_dotk1) ;;;
      modify (self.setattr self.a_uk (Np.slice nq (nq + nu) vk1))
    else ret tt) ;;;
   (* extract generalized coordinates and velocities *)
   let qk1 := Np.slice 0 nq yk1 in
   let uk1 := Np.slice nq (nq + nu) yk1 in
   let q_dotk1 := Np.slice 0 nq y_dotk1 in
   let u_dotk1 := Np.slice nq (nq + nu) y_dotk1 in
   ret (qk1, uk1, q_dotk1, u_dotk1))%prog.

(** [__init__(self, model, t1, dt, rho_inf=1, tol=1e-8, max_iter=40,
    error_function=lambda x: np.max(np.abs(x)),
    numerical_jacobian=True, DAE_index=2)].  The attributes are
    computed in the order of the source; an exception abandons the
    object. *)
Definition __init__ (t1 dt rho_inf tol : Q) (max_iter : Z)
    (error_function : vec -> Result Q) (numerical_jacobian : bool)
    (DAE_index : Z) : Result Solver :=
  (_ <- assert ((1 <=? DAE_index)%Z && (DAE_index <=? 2)%Z)
               "DAE_index hast to be in [1, 2]!" ;;
   (* integration time *)
   let t0 := Model.t0 model in
   let t1 :=
     if Qlt_bool t0 t1 then T1_float t1
     else T1_exception
            (ValueError "t1 must be larger than initial time t0.") in
   (* gen alpha parameter *)
   alpha_m <- pydiv (2.0 * rho_inf - 1.0) (rho_inf + 1.0) ;;
   alpha_f <- pydiv rho_inf (rho_inf + 1.0) ;;
   let gamma := 0.5 + alpha_f - alpha_m in
   let beta := 0.25 * ((gamma + 0.5) ^ 2) in
   (* dimensions *)
   let nq := Model.nq model in
   let nu := Model.nu model in
   let nla_g := Model.nla_g model in
   let nla_gamma := Model.nla_gamma model in
   let nla_N := Model.nla_N model in
   let ny := (nq + nu)%nat in
   let nx := (ny + 3 * nla_g + nla_gamma + 3 * nla_N)%nat in
   (* consistent initial conditions *)
   let tk := Model.t0 model in
   let qk := Model.q0 model in
   let uk := Model.u0 model in
   let kappa_gk := Np.zeros_like (Model.la_g0 model) in
   let la_gk := Model.la_g0 model in
   let La_gk := Np.zeros_like (Model.la_g0 model) in
   let la_gammak := Model.la_gamma0 model in
   let kappa_Nk := Np.zeros_like (Model.la_N0 model) in
   let la_Nk := Model.la_N0 model in
   let La_Nk := Np.zeros_like (Model.la_N0 model) in
   let la_gbark := la_Nk in
   let la_Nbark := la_Nk in
   let q_dotk := Model.q_dot model tk qk uk in
   let M0 := Model.M model tk qk in
   let h0 := Model.h model tk qk uk in
   let W_g0 := Model.W_g model tk qk in
   let W_gamma0 := Model.W_gamma model tk qk in
   let W_N0 := Model.W_N model tk qk in
   f_g <- Np.matvec W_g0 la_gk ;;
   rhs <- Np.add h0 f_g ;;
   f_gamma <- Np.matvec W_gamma0 la_gammak ;;
   rhs <- Np.add rhs f_gamma ;;
   f_N <- Np.matvec W_N0 la_Nk ;;
   rhs <- Np.add rhs f_N ;;
   u_dotk <- spsolve M0 rhs ;;
   (* check if initial conditions satisfy constraints on position,
      velocity and acceleration level *)
   let g0 := Model.g model tk qk in
   let g_dot0 := Model.g_dot model tk qk uk in
   let g_ddot0 := Model.g_ddot model tk qk uk u_dotk in
   let gamma0 := Model.gamma model tk qk uk in
   let gamma_dot0 := Model.gamma_dot model tk qk uk u_dotk in
   c <- Np.allclose g0 (Np.zeros nla_g) ;;
   _ <- assert c "Initial conditions do not fulfill g0!" ;;
   c <- Np.allclose g_dot0 (Np.zeros nla_g) ;;
   _ <- assert c "Initial conditions do not fulfill g_dot0!" ;;
   c <- Np.allclose g_ddot0 (Np.zeros nla_g) ;;
   _ <- assert c "Initial conditions do not fulfill g_ddot0!" ;;
   c <- Np.allclose gamma0 (Np.zeros nla_gamma) ;;
   _ <- assert c "Initial conditions do not fulfill gamma0!" ;;
   c <- Np.allclose gamma_dot0 (Np.zeros nla_gamma) ;;
   _ <- assert c "Initial conditions do not fulfill gamma_dot0!" ;;
   (* check if unilateral constraints are satisfied *)
   let g_N0 := Model.g_N model tk qk in
   _ <- assert (Np.all (Np.ge0 g_N0))
               "Initial conditions do not fulfill g_N0 >= 0!" ;;
   (* starting values for generalized state vector, its derivatives
      and auxiliary velocities *)
   let yk := (qk ++ uk)%list in
   let y_dotk := (q_dotk ++ u_dotk)%list in
   let vk := y_dotk in
   xk <- pack_arrays nq nu nla_g nla_gamma nla_N nx
           q_dotk u_dotk kappa_gk La_gk la_gk la_gammak
           kappa_Nk La_Nk la_Nk ;;
   (* the class defines [__R_gen_num] but no [__R_gen_analytic] *)
   R_gen <- (if numerical_jacobian then Ok R_gen_num
             else Raise (AttributeError
               "_GenAlphaFirstOrderVelocityGGLNormalContacts__R_gen_analytic")) ;;
   Ok {| self.DAE_index := DAE_index;
         self.t0 := t0; self.t1 := t1; self.dt := dt;
         self.rho_inf := rho_inf; self.alpha_m := alpha_m;
         self.alpha_f := alpha_f; self.gamma := gamma;
         self.beta := beta; self.tol := tol; self.max_iter := max_iter;
         self.error_function := error_function;
         self.nq := nq; self.nu := nu; self.nla_g := nla_g;
         self.nla_gamma := nla_gamma; self.nla_N := nla_N;
         self.ny := ny; self.nx := nx;
         self.tk := tk; self.qk := qk; self.uk := uk;
         self.kappa_gk := kappa_gk; self.la_gk := la_gk;
         self.La_gk := La_gk; self.la_gammak := la_gammak;
         self.kappa_Nk := kappa_Nk; self.la_Nk := la_Nk;
         self.La_Nk := La_Nk; self.la_gbark := la_gbark;
         self.la_Nbark := la_Nbark;
         self.q_dotk := q_dotk; self.u_dotk := u_dotk;
         self.yk := yk; self.y_dotk := y_dotk; self.vk := vk;
         self.xk := xk; self.R_gen := R_gen; self.k := 0%nat;
         self.nR_smooth := None; self.Ai1 := None; self.Bi1 := None;
         self.Ci1 := None |})%res.

(** [R(self, tk1, xk1, update_index_set=False)] *)
Definition R (tk1 : Q) (xk1 : vec) (update_index_set : bool)
  : Prog Solver vec :=
  (nq <- gets self.nq ;;
   nu <- gets self.nu ;;
   nla_g <- gets self.nla_g ;;
   nla_gamma <- gets self.nla_gamma ;;
   nla_N <- gets self.nla_N ;;
   (* velocities of the previous time step *)
   uk <- gets self.uk ;;
   (* extract auxiliary velocities and Lagrange multipliers *)
   ny <- gets self.ny ;;
   let y_dotk1 := Np.slice 0 ny xk1 in
   '(q_dotk1, u_dotk1, kappa_gk1, La_gk1, la_gk1, la_gammak1,
     kappa_Nk1, La_Nk1, la_Nk1) <- unpack xk1 ;;
   (* update dependent variables *)
   '(qk1, uk1, q_dotk1, u_dotk1) <- update y_dotk1 false ;;
   (* gen alpha update for Lagrange multipliers *)
   alpha_f <- gets self.alpha_f ;;
   la_Nk <- gets self.la_Nk ;;
   a <- lift (Np.add (Np.scale alpha_f la_Nk)
                     (Np.scale (1 - alpha_f) la_Nk1)) ;;
   alpha_m <- gets self.alpha_m ;;
   la_Nbark <- gets self.la_Nbark ;;
   a <- lift (Np.sub a (Np.scale alpha_m la_Nbark)) ;;
   let la_Nbark1 := Np.div_scalar a (1 - alpha_m) in
   dt <- gets self.dt ;;
   gamma <- gets self.gamma ;;
   b <- lift (Np.add (Np.scale (1 - gamma) la_Nbark)
                     (Np.scale gamma la_Nbark1)) ;;
   P_Nk1 <- lift (Np.add La_Nk1 (Np.scale dt b)) ;;
   beta <- gets self.beta ;;
   c <- lift (Np.add (Np.scale (0.5 - beta) la_Nbark)
                     (Np.scale beta la_Nbark1)) ;;
   kappa_hatNk1 <- lift (Np.add kappa_Nk1 (Np.scale (dt ^ 2) c)) ;;
   (* evaluate repeatedly used quantities *)
   let Mk1 := Model.M model tk1 qk1 in
   let W_gk1 := Model.W_g model tk1 qk1 in
   let W_gammak1 := Model.W_gamma model tk1 qk1 in
   let W_Nk1 := Model.W_N model tk1 qk1 in
   let g_Nk1 := Model.g_N model tk1 qk1 in
   let xi_Nk1 := Model.xi_N model tk1 qk1 uk uk1 in
   let g_N_ddotk1 := Model.g_N_ddot model tk1 qk1 uk1 u_dotk1 in
   (* evaluate residual *)
   nx <- gets self.nx ;;
   let R := Np.zeros nx in
   (* kinematic differential equation *)
   r <- lift (Np.sub q_dotk1 (Model.q_dot model tk1 qk1 uk1)) ;;
   w <- lift (Np.matvec W_gk1 kappa_gk1) ;;
   r <- lift (Np.sub r w) ;;
   w <- lift (Np.matvec W_Nk1 kappa_Nk1) ;;
   r <- lift (Np.sub r w) ;;
   R <- lift (Np.set_slice 0 nq r R) ;;
   (* equations of motion *)
   r <- lift (Np.matvec Mk1 u_dotk1) ;;
   r <- lift (Np.sub r (Model.h model tk1 qk1 uk1)) ;;
   w <- lift (Np.matvec W_gk1 la_gk1) ;;
   r <- lift (Np.sub r w) ;;
   w <- lift (Np.matvec W_gammak1 la_gammak1) ;;
   r <- lift (Np.sub r w) ;;
   w <- lift (Np.matvec W_Nk1 la_Nk1) ;;
   r <- lift (Np.sub r w) ;;
   R <- lift (Np.set_slice nq (nq + nu) r R) ;;
   (* bilateral constraints on all three levels *)
   R <- lift (Np.set_slice (nq + nu) (nq + nu + nla_g)
                (Model.g model tk1 qk1) R) ;;
   R <- lift (Np.set_slice (nq + nu + nla_g) (nq + nu + 2 * nla_g)
                (Model.g_dot model tk1 qk1 uk1) R) ;;
   R <- lift (Np.set_slice (nq + nu + 2 * nla_g) (nq + nu + 3 * nla_g)
                (Model.g_ddot model tk1 qk1 uk1 u_dotk1) R) ;;
   R <- lift (Np.set_slice (nq + nu + 3 * nla_g)
                (nq + nu + 3 * nla_g + nla_gamma)
                (Model.gamma model tk1 qk1 uk1) R) ;;
   (* TODO: Move in constructor! *)
   modify (self.setattr self.a_nR_smooth
             (nq + nu + 3 * nla_g + nla_gamma)%nat) ;;;
   (* unilateral contacts: update index sets *)
   (if update_index_set then
      (* eqn. (130) *)
      e <- lift (Np.mul (Model.prox_r_N model) g_Nk1) ;;
      e <- lift (Np.sub e kappa_hatNk1) ;;
      modify (self.setattr self.a_Ai1 (Np.le0 e)) ;;;
      (* eqn. (133) *)
      Ai1 <- getattr "Ai1" self.Ai1 ;;
      e <- lift (Np.mul (Model.prox_r_N model) xi_Nk1) ;;
      e <- lift (Np.sub e P_Nk1) ;;
      Bi1 <- lift (Np.band Ai1 (Np.le0 e)) ;;
      modify (self.setattr self.a_Bi1 Bi1) ;;;
      (* eqn. (136) *)
      Bi1 <- getattr "Bi1" self.Bi1 ;;
      e <- lift (Np.mul (Model.prox_r_N model) g_N_ddotk1) ;;
      e <- lift (Np.sub e la_Nk1) ;;
      Ci1 <- lift (Np.band Bi1 (Np.le0 e)) ;;
      modify (self.setattr self.a_Ci1 Ci1)
    else ret tt) ;;;
   I_N <- getattr "Ai1" self.Ai1 ;;
   let I_N_ind := Np.where_ I_N in
   let _I_N_ind := Np.where_ (Np.invert I_N) in
   v <- lift (Np.bool_index g_Nk1 I_N) ;;
   nR_smooth <- getattr "nR_smooth" self.nR_smooth ;;
   R <- lift (Np.set_index (map (Nat.add nR_smooth) I_N_ind) v R) ;;
   v <- lift (Np.bool_index kappa_hatNk1 (Np.invert I_N)) ;;
   nR_smooth <- getattr "nR_smooth" self.nR_smooth ;;
   R <- lift (Np.set_index (map (Nat.add nR_smooth) _I_N_ind) v R) ;;
   A_N_ <- getattr "Bi1" self.Bi1 ;;
   A_N <- lift (Np.band I_N A_N_) ;;
   let A_N_ind := Np.where_ A_N in
   let _A_N_ind := Np.where_ (Np.invert A_N) in
   v <- lift (Np.bool_index xi_Nk1 A_N) ;;
   nR_smooth <- getattr "nR_smooth" self.nR_smooth ;;
   R <- lift (Np.set_index
                (map (Nat.add (nR_smooth + nla_N)) A_N_ind) v R) ;;
   v <- lift (Np.bool_index P_Nk1 (Np.invert A_N)) ;;
   nR_smooth <- getattr "nR_smooth" self.nR_smooth ;;
   R <- lift (Np.set_index
                (map (Nat.add (nR_smooth + nla_N)) _A_N_ind) v R) ;;
   B_N_ <- getattr "Ci1" self.Ci1 ;;
   B_N <- lift (Np.band A_N B_N_) ;;
   let B_N_ind := Np.where_ B_N in
   let _B_N_ind := Np.where_ (Np.invert B_N) in
   v <- lift (Np.bool_index g_N_ddotk1 B_N) ;;
   nR_smooth <- getattr "nR_smooth" self.nR_smooth ;;
   R <- lift (Np.set_index
                (map (Nat.add (nR_smooth + 2 * nla_N)) B_N_ind) v R) ;;
   v <- lift (Np.bool_index la_Nk1 (Np.invert B_N)) ;;
   nR_smooth <- getattr "nR_smooth" self.nR_smooth ;;
   R <- lift (Np.set_index
                (map (Nat.add (nR_smooth + 2 * nla_N)) _B_N_ind) v R) ;;
   ret R)%prog.

(** [__R(self, tk1, xk1, update_index_set=True)] is
    [next(self.__R_gen_analytic(tk1, xk1, update_index_set))]; the
    class has no method [__R_gen_analytic] (its [def] line is commented
    out, the body became [R]), so the attribute lookup raises. *)
Definition __R (tk1 : Q) (xk1 : vec) (update_index_set : bool)
  : Prog Solver vec :=
  raise (AttributeError
    "_GenAlphaFirstOrderVelocityGGLNormalContacts__R_gen_analytic").

(** The [while j < self.max_iter] loop of [step]; [fuel] is the number
    of iterations left, [max_iter - j].  When it is exhausted the last
    [converged] was [False].  The closure handed to [approx_fprime]
    is [__R] on the current object. *)
Fixpoint newton_loop (fuel : nat) (tk1 : Q) (j : nat) (R_ : vec)
    (error : Q) (xk1 : vec) : Prog Solver (bool * nat * Q * vec) :=
  match fuel with
  | O => ret (false, j, error, xk1)
  | S fuel' =>
      (* jacobian *)
      (R_x_dense <-
         (fun s => (approx_fprime xk1 (fun x => fst (__R tk1 x false s))
                                  None "2-point"%string,
                    s)) ;;
       let R_x := R_x_dense in
       (* Newton update *)
       let j := S j in
       dx <- lift (spsolve R_x R_) ;;
       xk1 <- lift (Np.isub xk1 dx) ;;
       R_ <- R tk1 xk1 true ;;
       error_function <- gets self.error_function ;;
       error <- lift (error_function R_) ;;
       tol <- gets self.tol ;;
       let converged := Qlt_bool error tol in
       if converged then ret (converged, j, error, xk1)
       else newton_loop fuel' tk1 j R_ error xk1)%prog
  end.

(** [step(self, tk1, xk1)] *)
Definition step (tk1 : Q) (xk1 : vec)
  : Prog Solver (bool * nat * Q * vec) :=
  (* initial residual and error *)
  (R_ <- R tk1 xk1 true ;;
   error_function <- gets self.error_function ;;
   error <- lift (error_function R_) ;;
   tol <- gets self.tol ;;
   let converged := Qlt_bool error tol in
   let j := 0%nat in
   if negb converged then
     max_iter <- gets self.max_iter ;;
     newton_loop (Z.to_nat max_iter) tk1 j R_ error xk1
   else ret (converged, j, error, xk1))%prog.

(** The body of the [for k, _ in enumerate(pbar)] loop of [solve], run
    for the [n] remaining entries of [np.arange(t0, t1, dt)]; [sol]
    holds the output lists.  The progress bar only displays. *)
Fixpoint solve_loop (n : nat) (k : nat) (sol : Solution)
  : Prog Solver Solution :=
  match n with
  | O => ret sol
  | S n' =>
      (modify (self.setattr self.a_k k) ;;;
       (* perform a solver step *)
       tk <- gets self.tk ;;
       dt <- gets self.dt ;;
       let tk1 := tk + dt in
       xk <- gets self.xk ;;
       let xk1 := xk in
       '(converged, n_iter, error, xk1) <- step tk1 xk1 ;;
       '(q_dotk1, u_dotk1, kappa_gk1, La_gk1, la_gk1, la_gammak1,
         kappa_Nk1, La_Nk1, la_Nk1) <- unpack xk1 ;;
       (* check convergence *)
       if negb converged then raise (RuntimeError n_iter error)
       else
         (* update dependent variables *)
         ny <- gets self.ny ;;
         let y_dotk1 := Np.slice 0 ny xk1 in
         '(qk1, uk1, q_dotk1, u_dotk1) <- update y_dotk1 true ;;
         (* modify converged quantities *)
         let '(qk1, uk1) := Model.step_callback model tk1 qk1 uk1 in
         (* store solution fields *)
         let sol :=
           {| sol_t := sol_t sol ++ [tk1];
              sol_q := sol_q sol ++ [qk1];
              sol_u := sol_u sol ++ [uk1];
              sol_q_dot := sol_q_dot sol ++ [q_dotk1];
              sol_u_dot := sol_u_dot sol ++ [u_dotk1];
              sol_kappa_g := sol_kappa_g sol ++ [kappa_gk1];
              sol_La_g := sol_La_g sol ++ [La_gk1];
              sol_la_g := sol_la_g sol ++ [la_gk1];
              sol_la_gamma := sol_la_gamma sol ++ [la_gammak1];
              sol_kappa_N := sol_kappa_N sol ++ [kappa_Nk1];
              sol_La_N := sol_La_N sol ++ [La_Nk1];
              sol_la_N := sol_la_N sol ++ [la_Nk1] |} in
         (* update local variables for accepted time step *)
         modify (self.setattr self.a_tk tk1) ;;;
         modify (self.setattr self.a_xk xk1) ;;;
         solve_loop n' (S k) sol)%prog
  end.

(** [np.arange(self.t0, self.t1, self.dt)] needs a number for its
    stop value. *)
Definition arange_t (t0 : Q) (t1 : T1_value) (dt : Q) : Result nat :=
  match t1 with
  | T1_float t1 => Np.arange_len t0 t1 dt
  | T1_exception _ =>
      Raise (TypeError "unsupported operand type(s) for -")
  end.

(** [solve(self)] *)
Definition solve : Prog Solver Solution :=
  (* lists storing output variables *)
  (tk <- gets self.tk ;;
   qk <- gets self.qk ;;
   uk <- gets self.uk ;;
   q_dotk <- gets self.q_dotk ;;
   u_dotk <- gets self.u_dotk ;;
   kappa_gk <- gets self.kappa_gk ;;
   La_gk <- gets self.La_gk ;;
   la_gk <- gets self.la_gk ;;
   la_gammak <- gets self.la_gammak ;;
   kappa_Nk <- gets self.kappa_Nk ;;
   La_Nk <- gets self.La_Nk ;;
   la_Nk <- gets self.la_Nk ;;
   let sol :=
     {| sol_t := [tk]; sol_q := [qk]; sol_u := [uk];
        sol_q_dot := [q_dotk]; sol_u_dot := [u_dotk];
        sol_kappa_g := [kappa_gk]; sol_La_g := [La_gk];
        sol_la_g := [la_gk]; sol_la_gamma := [la_gammak];
        sol_kappa_N := [kappa_Nk]; sol_La_N := [La_Nk];
        sol_la_N := [la_Nk] |} in
   t0 <- gets self.t0 ;;
   t1 <- gets self.t1 ;;
   dt <- gets self.dt ;;
   n <- lift (arange_t t0 t1 dt) ;;
   solve_loop n 0%nat sol)%prog.

End Methods.

End GenAlphaFirstOrderVelocityGGLNormalContacts.

(** ** class GenAlphaFirstOrderVelocityGGL *)

Module GenAlphaFirstOrderVelocityGGL.

Module self.

Record t : Type := {
  t0 : Q;
  t1 : T1_value;
  dt : Q;
  rho_inf : Q;
  alpha_m : Q;
  alpha_f : Q;
  gamma : Q;
  gamma_prime : Q;
  tol : Q;
  max_iter : Z;
  error_function : vec -> Result Q;
  nq : nat;
  nu : nat;
  nla_g : nat;
  nla_gamma : nat;
  ny : nat;
  nx : nat;
  tk : Q;
  qk : vec;
  uk : vec;
  la_gk : vec;
  la_gammak : vec;
  mu_gk : vec;
  q_dotk : vec;
  u_dotk : vec;
  yk : vec;
  y_dotk : vec;
  vk : vec;
  xk : vec;
  R_gen : R_gen_kind;
  use_preconditioning : bool
}.

Inductive attr : Type := a_tk | a_yk | a_y_dotk | a_vk | a_xk.

Definition attr_type (a : attr) : Type :=
  match a with
  | a_tk => Q
  | a_yk | a_y_dotk | a_vk | a_xk => vec
  end.

Definition setattr (a : attr) (v : attr_type a) (s : t) : t :=
  {| t0 := t0 s; t1 := t1 s; dt := dt s; rho_inf := rho_inf s;
     alpha_m := alpha_m s; alpha_f := alpha_f s; gamma := gamma s;
     gamma_prime := gamma_prime s; tol := tol s; max_iter := max_iter s;
     error_function := error_function s;
     nq := nq s; nu := nu s; nla_g := nla_g s; nla_gamma := nla_gamma s;
     ny := ny s; nx := nx s;
     tk :=
       match a return attr_type a -> Q with
       | a_tk => fun v => v | _ => fun _ => tk s end v;
     qk := qk s; uk := uk s; la_gk := la_gk s; la_gammak := la_gammak s;
     mu_gk := mu_gk s; q_dotk := q_dotk s; u_dotk := u_dotk s;
     yk :=
       match a return attr_type a -> vec with
       | a_yk => fun v => v | _ => fun _ => yk s end v;
     y_dotk :=
       match a return attr_type a -> vec with
       | a_y_dotk => fun v => v | _ => fun _ => y_dotk s end v;
     vk :=
       match a return attr_type a -> vec with
       | a_vk => fun v => v | _ => fun _ => vk s end v;
     xk :=
       match a return attr_type a -> vec with
       | a_xk => fun v => v | _ => fun _ => xk s end v;
     R_gen := R_gen s; use_preconditioning := use_preconditioning s |}.

End self.

Definition Solver : Type := self.t.

Section Methods.

Variable model : Model.t.
Variable spsolve : Np.mat -> vec -> Result vec.

Local Open Scope Q_scope.

(** [__init__(self, model, t1, dt, rho_inf=1, tol=1e-8, max_iter=40,
    error_function=..., numerical_jacobian=True)] *)
Definition __init__ (t1 dt rho_inf tol : Q) (max_iter : Z)
    (error_function : vec -> Result Q) (numerical_jacobian : bool)
  : Result Solver :=
  ((* integration time *)
   let t0 := Model.t0 model in
   let t1 :=
     if Qlt_bool t0 t1 then T1_float t1
     else T1_exception
            (ValueError "t1 must be larger than initial time t0.") in
   (* gen alpha parameter *)
   alpha_m <- pydiv (3.0 * rho_inf - 1.0) (2.0 * (rho_inf + 1.0)) ;;
   alpha_f <- pydiv rho_inf (rho_inf + 1.0) ;;
   let gamma := 0.5 + alpha_f - alpha_m in
   gamma_prime <- pydiv (dt * gamma * (1.0 - alpha_f)) (1.0 - alpha_m) ;;
   (* dimensions *)
   let nq := Model.nq model in
   let nu := Model.nu model in
   let nla_g := Model.nla_g model in
   let nla_gamma := Model.nla_gamma model in
   let ny := (nq + nu)%nat in
   let nx := (ny + 2 * nla_g + nla_gamma)%nat in
   (* consistent initial conditions *)
   let tk := Model.t0 model in
   let qk := Model.q0 model in
   let uk := Model.u0 model in
   let mu_gk := Np.zeros nla_g in
   (* initial velocities *)
   let q_dotk := Model.q_dot model tk qk uk in
   (* solve for consistent initial accelerations and Lagrange
      multipliers *)
   let M0 := Model.M model tk qk in
   let h0 := Model.h model tk qk uk in
   let W_g0 := Model.W_g model tk qk in
   let W_gamma0 := Model.W_gamma model tk qk in
   let zeta_g0 := Model.zeta_g model t0 qk uk in
   let zeta_gamma0 := Model.zeta_gamma model t0 qk uk in
   A <- Np.bmat_saddle M0 W_g0 W_gamma0 ;;
   let b := (h0 ++ Np.neg zeta_g0 ++ Np.neg zeta_gamma0)%list in
   u_dot_la_g_la_gamma <- spsolve A b ;;
   let u_dotk := Np.slice 0 nu u_dot_la_g_la_gamma in
   let la_gk := Np.slice nu (nu + nla_g) u_dot_la_g_la_gamma in
   let la_gammak := Np.slice_from (nu + nla_g) u_dot_la_g_la_gamma in
   (* check if initial conditions satisfy constraints on position,
      velocity and acceleration level *)
   let g0 := Model.g model tk qk in
   let g_dot0 := Model.g_dot model tk qk uk in
   let g_ddot0 := Model.g_ddot model tk qk uk u_dotk in
   let gamma0 := Model.gamma model tk qk uk in
   let gamma_dot0 := Model.gamma_dot model tk qk uk u_dotk in
   c <- Np.allclose g0 (Np.zeros nla_g) ;;
   _ <- assert c "Initial conditions do not fulfill g0!" ;;
   c <- Np.allclose g_dot0 (Np.zeros nla_g) ;;
   _ <- assert c "Initial conditions do not fulfill g_dot0!" ;;
   c <- Np.allclose g_ddot0 (Np.zeros nla_g) ;;
   _ <- assert c "Initial conditions do not fulfill g_ddot0!" ;;
   c <- Np.allclose gamma0 (Np.zeros nla_gamma) ;;
   _ <- assert c "Initial conditions do not fulfill gamma0!" ;;
   c <- Np.allclose gamma_dot0 (Np.zeros nla_gamma) ;;
   _ <- assert c "Initial conditions do not fulfill gamma_dot0!" ;;
   (* starting values *)
   let yk := (qk ++ uk)%list in
   let y_dotk := (q_dotk ++ u_dotk)%list in
   let vk := y_dotk in
   let xk := (q_dotk ++ u_dotk ++ la_gk ++ la_gammak ++ mu_gk)%list in
   let R_gen := if numerical_jacobian then R_gen_num else R_gen_analytic in
   (* usage of a right preconditioner *)
   let use_preconditioning := false in
   Ok {| self.t0 := t0; self.t1 := t1; self.dt := dt;
         self.rho_inf := rho_inf; self.alpha_m := alpha_m;
         self.alpha_f := alpha_f; self.gamma := gamma;
         self.gamma_prime := gamma_prime;
         self.tol := tol; self.max_iter := max_iter;
         self.error_function := error_function;
         self.nq := nq; self.nu := nu; self.nla_g := nla_g;
         self.nla_gamma := nla_gamma; self.ny := ny; self.nx := nx;
         self.tk := tk; self.qk := qk; self.uk := uk;
         self.la_gk := la_gk; self.la_gammak := la_gammak;
         self.mu_gk := mu_gk;
         self.q_dotk := q_dotk; self.u_dotk := u_dotk;
         self.yk := yk; self.y_dotk := y_dotk; self.vk := vk;
         self.xk := xk; self.R_gen := R_gen;
         self.use_preconditioning := use_preconditioning |})%res.

(** [update(self, xk1, store=False)] *)
Definition update (xk1 : vec) (store : bool)
  : Prog Solver (vec * vec * vec * vec) :=
  (nq <- gets self.nq ;;
   nu <- gets self.nu ;;
   nla_g <- gets self.nla_g ;;
   nla_gamma <- gets self.nla_gamma ;;
   dt <- gets self.dt ;;
   gamma <- gets self.gamma ;;
   alpha_f <- gets self.alpha_f ;;
   alpha_m <- gets self.alpha_m ;;
   (* auxiliary variables, see Arnold2008 (3) *)
   ny <- gets self.ny ;;
   let y_dotk1 := Np.slice 0 ny xk1 in
   y_dotk <- gets self.y_dotk ;;
   a <- lift (Np.add (Np.scale alpha_f y_dotk)
                     (Np.scale (1.0 - alpha_f) y_dotk1)) ;;
   vk <- gets self.vk ;;
   b <- lift (Np.sub a (Np.scale alpha_m vk)) ;;
   let vk1 := Np.div_scalar b (1.0 - alpha_m) in
   (* approximation of the single integral, see Arnold2008 (5) *)
   yk <- gets self.yk ;;
   vk <- gets self.vk ;;
   c <- lift (Np.add (Np.scale (1.0 - gamma) vk) (Np.scale gamma vk1)) ;;
   yk1 <- lift (Np.add yk (Np.scale dt c)) ;;
   (if store then
      modify (self.setattr self.a_vk vk1) ;;;
      modify (self.setattr self.a_yk yk1) ;;;
      modify (self.setattr self.a_y_dotk y_dotk1)
    else ret tt) ;;;
   (* extract generalized coordinates and velocities *)
   let qk1 := Np.slice 0 nq yk1 in
   let uk1 := Np.slice nq (nq + nu) yk1 in
   let q_dotk1 := Np.slice 0 nq y_dotk1 in
   let u_dotk1 := Np.slice nq (nq + nu) y_dotk1 in
   ret (qk1, uk1, q_dotk1, u_dotk1))%prog.

(** [pack(self, q_dot, u_dot, la_g, la_gamma, mu_g)] *)
Definition pack (q_dot u_dot la_g la_gamma mu_g : vec) : Prog Solver vec :=
  (nq <- gets self.nq ;;
   nu <- gets self.nu ;;
   nla_g <- gets self.nla_g ;;
   nla_gamma <- gets self.nla_gamma ;;
   nx <- gets self.nx ;;
   let x := Np.zeros nx in
   x <- lift (Np.set_slice 0 nq q_dot x) ;;
   x <- lift (Np.set_slice nq (nq + nu) u_dot x) ;;
   x <- lift (Np.set_slice (nq + nu) (nq + nu + nla_g) la_g x) ;;
   x <- lift (Np.set_slice (nq + nu + nla_g) (nq + nu + nla_g + nla_gamma)
                la_gamma x) ;;
   x <- lift (Np.set_slice (nq + nu + nla_g + nla_gamma)
                (nq + nu + 2 * nla_g + nla_gamma) mu_g x) ;;
   ret x)%prog.

(** [unpack(self, x)] *)
Definition unpack (x : vec) : Prog Solver (vec * vec * vec * vec * vec) :=
  (nq <- gets self.nq ;;
   nu <- gets self.nu ;;
   nla_g <- gets self.nla_g ;;
   nla_gamma <- gets self.nla_gamma ;;
   let q_dot := Np.slice 0 nq x in
   let u_dot := Np.slice nq (nq + nu) x in
   let la_g := Np.slice (nq + nu) (nq + nu + nla_g) x in
   let la_gamma :=
     Np.slice (nq + nu + nla_g) (nq + nu + nla_g + nla_gamma) x in
   let mu_gamma :=
     Np.slice (nq + nu + nla_g + nla_gamma)
              (nq + nu + 2 * nla_g + nla_gamma) x in
   ret (q_dot, u_dot, la_g, la_gamma, mu_gamma))%prog.

End Methods.

End GenAlphaFirstOrderVelocityGGL.

(** ** class GenAlphaFirstOrderVelocity: the parameter block of the
    constructor (lines "gen alpha parameter") *)

Module GenAlphaFirstOrderVelocity.

Local Open Scope Q_scope.

(** [alpha_m], [alpha_f], [gamma] and [x_x_dot] as the constructor
    derives them from [rho_inf] and [dt]. *)
Definition gen_alpha_parameter (dt rho_inf : Q)
  : Result (Q * Q * Q * Q) :=
  (alpha_m <- pydiv (3.0 * rho_inf - 1.0) (2.0 * (rho_inf + 1.0)) ;;
   alpha_f <- pydiv rho_inf (rho_inf + 1.0) ;;
   let gamma := 0.5 + alpha_f - alpha_m in
   x_x_dot <- pydiv (dt * gamma * (1.0 - alpha_f)) (1.0 - alpha_m) ;;
   Ok (alpha_m, alpha_f, gamma, x_x_dot))%res.

End GenAlphaFirstOrderVelocity.

(** ** class GenAlphaDAEPos: the constructor and [update]

    The attribute [ak] is read by [update] and assigned by [solve] after
    an accepted step; the constructor does not assign it (the lines that
    did are commented out), so it is absent ([None]) in a new object. *)

Module GenAlphaDAEPos.

Module self.

Record t : Type := {
  t0 : Q;
  t1 : T1_value;
  dt : Q;
  rho_inf : Q;
  alpha_m : Q;
  alpha_f : Q;
  gamma : Q;
  beta : Q;
  alpha_ratio : Q;
  pre_cond : Q;
  tol : Q;
  max_iter : Z;
  error_function : vec -> Result Q;
  nq : nat;
  nu : nat;
  nla_g : nat;
  nla_gamma : nat;
  nR : nat;
  tk : Q;
  qk : vec;
  uk : vec;
  la_gk : vec;
  la_gammak : vec;
  q_bark : vec;
  R_gen : R_gen_kind;
  ak : option vec
}.

End self.

Definition Solver : Type := self.t.

Section Methods.

Variable model : Model.t.

Local Open Scope Q_scope.

(** [__init__(self, model, t1, dt, rho_inf=1, beta=None, gamma=None,
    alpha_m=None, alpha_f=None, tol=1e-8, max_iter=40,
    error_function=..., numerical_jacobian=False, pre_cond=True)] *)
Definition __init__ (t1 dt rho_inf : Q) (beta gamma alpha_m alpha_f : option Q)
    (tol : Q) (max_iter : Z) (error_function : vec -> Result Q)
    (numerical_jacobian pre_cond : bool) : Result Solver :=
  ((* integration time *)
   let t0 := Model.t0 model in
   let t1 :=
     if Qlt_bool t0 t1 then T1_float t1
     else T1_exception
            (ValueError "t1 must be larger than initial time t0.") in
   (* parameter: [if None in [beta, gamma, alpha_m, alpha_f]] *)
   '(alpha_m, alpha_f, gamma, beta) <-
     match beta, gamma, alpha_m, alpha_f with
     | Some beta, Some gamma, Some alpha_m, Some alpha_f =>
         Ok (alpha_m, alpha_f, gamma, beta)
     | _, _, _, _ =>
         alpha_m <- pydiv (2 * rho_inf - 1) (1 + rho_inf) ;;
         alpha_f <- pydiv rho_inf (1 + rho_inf) ;;
         let gamma := 0.5 + alpha_f - alpha_m in
         let beta := 0.25 * ((gamma + 0.5) ^ 2) in
         Ok (alpha_m, alpha_f, gamma, beta)
     end ;;
   alpha_ratio <- pydiv (1 - alpha_f) (1 - alpha_m) ;;
   (* usage of a right preconditioner *)
   pre_cond <- (if pre_cond then pydiv 1.0 (dt ^ 2 * beta) else Ok 1) ;;
   (* dimensions *)
   let nq := Model.nq model in
   let nu := Model.nu model in
   let nla_g := Model.nla_g model in
   let nla_gamma := Model.nla_gamma model in
   let nR := (nq + nla_g + nla_gamma)%nat in
   let qk := Model.q0 model in
   let R_gen := if numerical_jacobian then R_gen_num else R_gen_analytic in
   Ok {| self.t0 := t0; self.t1 := t1; self.dt := dt;
         self.rho_inf := rho_inf; self.alpha_m := alpha_m;
         self.alpha_f := alpha_f; self.gamma := gamma; self.beta := beta;
         self.alpha_ratio := alpha_ratio; self.pre_cond := pre_cond;
         self.tol := tol; self.max_iter := max_iter;
         self.error_function := error_function;
         self.nq := nq; self.nu := nu; self.nla_g := nla_g;
         self.nla_gamma := nla_gamma; self.nR := nR;
         self.tk := Model.t0 model; self.qk := qk;
         self.uk := Model.u0 model; self.la_gk := Model.la_g0 model;
         self.la_gammak := Model.la_gamma0 model;
         self.q_bark := qk; self.R_gen := R_gen;
         self.ak := None |})%res.

(** [update(self, qk1, store=False)]; [store] is not used. *)
Definition update (qk1 : vec) (store : bool) : Prog Solver (vec * vec) :=
  (dt <- gets self.dt ;;
   let dt2 := dt * dt in
   (* from Bottasso2008 (12c) *)
   qk <- gets self.qk ;;
   a <- lift (Np.sub qk1 qk) ;;
   uk <- gets self.uk ;;
   a <- lift (Np.sub a (Np.scale dt uk)) ;;
   beta <- gets self.beta ;;
   let a := Np.div_scalar a (beta * dt2) in
   beta <- gets self.beta ;;
   ak <- getattr "ak" self.ak ;;
   ak1 <- lift (Np.sub a (Np.scale (0.5 * (1 - beta)) ak)) ;;
   (* Bottasso2008 (12b) *)
   uk <- gets self.uk ;;
   gamma <- gets self.gamma ;;
   ak <- getattr "ak" self.ak ;;
   gamma' <- gets self.gamma ;;
   b <- lift (Np.add (Np.scale (1 - gamma) ak) (Np.scale gamma' ak1)) ;;
   uk1 <- lift (Np.add uk (Np.scale dt b)) ;;
   ret (uk1, ak1))%prog.

(** [pack(self, q, la_g, la_gamma)] *)
Definition pack (q la_g la_gamma : vec) : Prog Solver vec :=
  (nq <- gets self.nq ;;
   nla_g <- gets self.nla_g ;;
   nla_gamma <- gets self.nla_gamma ;;
   nR <- gets self.nR ;;
   let x := Np.zeros nR in
   x <- lift (Np.set_slice 0 nq q x) ;;
   x <- lift (Np.set_slice nq (nq + nla_g) la_g x) ;;
   x <- lift (Np.set_slice (nq + nla_g) (nq + nla_g + nla_gamma)
                la_gamma x) ;;
   ret x)%prog.

(** [unpack(self, x)] *)
Definition unpack (x : vec) : Prog Solver (vec * vec * vec) :=
  (nq <- gets self.nq ;;
   nla_g <- gets self.nla_g ;;
   nla_gamma <- gets self.nla_gamma ;;
   (* positions *)
   let q := Np.slice 0 nq x in
   (* constraints on position level *)
   let la_g := Np.slice nq (nq + nla_g) x in
   (* constraints on velocity level *)
   let la_gamma := Np.slice (nq + nla_g) (nq + nla_g + nla_gamma) x in
   ret (q, la_g, la_gamma))%prog.

End Methods.

End GenAlphaDAEPos.

(** ** cardillo/math/fsolve.py: [fsolve] *)

Module Fsolve.

(** A warning issued through [warnings.warn]: the iteration count and the
    error interpolated into
    [f"fsolve is not converged after {i} iterations with error {error:2.3f}"]. *)
Record warning : Type := UserWarning { w_iterations : nat; w_error : Q }.

Section fsolve.

(** The type of the extra positional arguments handed through to [fun]
    and [jac], and their Python truth value. *)
Variable Arg : Type.
Variable truthy : Arg -> bool.
Variable approx_fprime : approx_fprime_t.

(** [fun_args] and [jac_args]: a tuple, or any other single value. *)
Inductive pyargs : Type :=
| Tuple (l : list Arg)
| Single (a : Arg).

(** [jac]: a string, a callable, or something else. *)
Inductive jac_arg : Type :=
| Jac_str (method : string)
| Jac_callable (jac : vec -> list Arg -> Result Np.mat)
| Jac_other.

Definition is_fd_method (m : string) : bool :=
  (String.eqb m "2-point" || String.eqb m "3-point" || String.eqb m "cs")%bool.

Section loop.

Variable fun_ : vec -> list Arg -> Result vec.
Variable jacobian : vec -> list Arg -> Result Np.mat.
Variable linear_solver : Np.mat -> vec -> Result vec.
Variable error_function : vec -> Result Q.
Variable atol : Q.
Variable fun_args jac_args : list Arg.

(** [while (not converged) and (i < max_iter)]; [fuel] is
    [max_iter - i]. *)
Fixpoint newton_loop (fuel : nat) (x f : vec) (error : Q)
    (converged : bool) (i : nat)
  : Result (vec * bool * Q * nat * vec) :=
  if converged then Ok (x, converged, error, i, f)
  else
    match fuel with
    | O => Ok (x, converged, error, i, f)
    | S fuel' =>
        (let i := S i in
         J <- jacobian x jac_args ;;
         dx <- linear_solver J f ;;
         x <- Np.isub x dx ;;
         f <- fun_ x fun_args ;;
         error <- error_function f ;;
         let converged := Qle_bool error atol in
         newton_loop fuel' x f error converged i)%res
    end.

End loop.

(** [fsolve(fun, x0, jac, fun_args, jac_args, error_function, atol,
    eps, max_iter, linear_solver)]: the returned tuple or the exception
    raised, and the warnings issued. *)
Definition fsolve (fun_ : vec -> list Arg -> Result vec) (x0 : vec)
    (jac : jac_arg) (fun_args jac_args : pyargs)
    (error_function : vec -> Result Q) (atol eps : Q) (max_iter : Z)
    (linear_solver : Np.mat -> vec -> Result vec)
  : Result (vec * bool * Q * nat * vec) * list warning :=
  let fun_args :=
    match fun_args with Tuple l => l | Single a => [a] end in
  let jac_args :=
    match jac_args with
    | Tuple [] => fun_args
    | Tuple l => l
    | Single a => if truthy a then [a] else fun_args
    end in
  (* compute Jacobian matrix using finite differences *)
  let jacobian :=
    match jac with
    | Jac_str m =>
        if is_fd_method m
        then Ok (fun x args =>
                   approx_fprime x (fun y => fun_ y args) (Some eps) m)
        else Raise (AssertionError "")
    | Jac_callable j => Ok j
    | Jac_other => Raise (AssertionError "")
    end in
  let r :=
    (jacobian <- jacobian ;;
     (* prepare solution vector *)
     let x := x0 in
     (* initial guess, error and convergence *)
     f <- fun_ x fun_args ;;
     error <- error_function f ;;
     let converged := Qle_bool error atol in
     (* Newton loop *)
     newton_loop fun_ jacobian linear_solver error_function atol
       fun_args jac_args (Z.to_nat max_iter) x f error converged 0%nat
    )%res in
  match r with
  | Ok (x, converged, error, i, f) =>
      (Ok (x, converged, error, i, f),
       if negb converged then [UserWarning i error] else [])
  | Raise e => (Raise e, [])
  end.

End fsolve.

End Fsolve.

(** ** The trial quantities of a step, in closed form

    The quantities the residual of the contact solver is assembled from,
    written as formulas of the solver state [s], the time [tk1] and the
    unknown vector [xk1] (section 4.1 and 4.3 of the specification).  The
    lemmas below show that [update] and [R] compute exactly these when the
    arrays have the configured shapes. *)

Module Trial.

Import GenAlphaFirstOrderVelocityGGLNormalContacts.

Local Open Scope Q_scope.

(** [A @ v] for operands of matching dimensions *)
Definition matvec (A : Np.mat) (v : vec) : vec :=
  map (fun r => Np.dot r v) (Np.rows A).

(** [v_{k+1}] and [y_{k+1}] of the generalized-alpha update *)
Definition vk1 (alpha_f alpha_m : Q) (y_dotk vk y_dotk1 : vec) : vec :=
  Np.div_scalar
    (Np.zip_with Qminus
       (Np.zip_with Qplus (Np.scale alpha_f y_dotk)
          (Np.scale (1.0 - alpha_f) y_dotk1))
       (Np.scale alpha_m vk))
    (1.0 - alpha_m).

Definition yk1 (dt gamma : Q) (yk vk vk1 : vec) : vec :=
  Np.zip_with Qplus yk
    (Np.scale dt
       (Np.zip_with Qplus (Np.scale (1.0 - gamma) vk) (Np.scale gamma vk1))).

Section Contacts.

Variable model : Model.t.
Variable s : Solver.
Variable tk1 : Q.
Variable xk1 : vec.

Definition nR_smooth : nat :=
  (self.nq s + self.nu s + 3 * self.nla_g s + self.nla_gamma s)%nat.

Definition y_dotk1 : vec := Np.slice 0 (self.ny s) xk1.
Definition kappa_Nk1 : vec :=
  Np.slice nR_smooth (nR_smooth + self.nla_N s) xk1.
Definition La_Nk1 : vec :=
  Np.slice (nR_smooth + self.nla_N s) (nR_smooth + 2 * self.nla_N s) xk1.
Definition la_Nk1 : vec :=
  Np.slice (nR_smooth + 2 * self.nla_N s)
           (nR_smooth + 3 * self.nla_N s) xk1.

Definition v1 : vec :=
  vk1 (self.alpha_f s) (self.alpha_m s) (self.y_dotk s) (self.vk s)
      y_dotk1.
Definition y1 : vec :=
  yk1 (self.dt s) (self.gamma s) (self.yk s) (self.vk s) v1.
Definition qk1 : vec := Np.slice 0 (self.nq s) y1.
Definition uk1 : vec := Np.slice (self.nq s) (self.nq s + self.nu s) y1.
Definition u_dotk1 : vec :=
  Np.slice (self.nq s) (self.nq s + self.nu s) y_dotk1.

Definition q_dotk1 : vec := Np.slice 0 (self.nq s) y_dotk1.
Definition kappa_gk1 : vec :=
  Np.slice (self.nq s + self.nu s) (self.nq s + self.nu s + self.nla_g s)
           xk1.
Definition la_gk1 : vec :=
  Np.slice (self.nq s + self.nu s + 2 * self.nla_g s)
           (self.nq s + self.nu s + 3 * self.nla_g s) xk1.
Definition la_gammak1 : vec :=
  Np.slice (self.nq s + self.nu s + 3 * self.nla_g s)
           (self.nq s + self.nu s + 3 * self.nla_g s + self.nla_gamma s)
           xk1.

(** the filtered multiplier and the quantities derived from it *)
Definition la_Nbark1 : vec :=
  Np.div_scalar
    (Np.zip_with Qminus
       (Np.zip_with Qplus (Np.scale (self.alpha_f s) (self.la_Nk s))
          (Np.scale (1 - self.alpha_f s) la_Nk1))
       (Np.scale (self.alpha_m s) (self.la_Nbark s)))
    (1 - self.alpha_m s).
Definition P_N : vec :=
  Np.zip_with Qplus La_Nk1
    (Np.scale (self.dt s)
       (Np.zip_with Qplus
          (Np.scale (1 - self.gamma s) (self.la_Nbark s))
          (Np.scale (self.gamma s) la_Nbark1))).
Definition kappa_hat_N : vec :=
  Np.zip_with Qplus kappa_Nk1
    (Np.scale (self.dt s ^ 2)
       (Np.zip_with Qplus
          (Np.scale (0.5 - self.beta s) (self.la_Nbark s))
          (Np.scale (self.beta s) la_Nbark1))).

Definition g_N : vec := Model.g_N model tk1 qk1.
Definition xi_N : vec := Model.xi_N model tk1 qk1 (self.uk s) uk1.
Definition g_N_ddot : vec := Model.g_N_ddot model tk1 qk1 uk1 u_dotk1.

(** the index sets of eqn. (130), (133), (136) *)
Definition A : mask :=
  Np.le0 (Np.zip_with Qminus
            (Np.zip_with Qmult (Model.prox_r_N model) g_N) kappa_hat_N).
Definition B : mask :=
  Np.zip_with andb A
    (Np.le0 (Np.zip_with Qminus
               (Np.zip_with Qmult (Model.prox_r_N model) xi_N) P_N)).
Definition C : mask :=
  Np.zip_with andb B
    (Np.le0 (Np.zip_with Qminus
               (Np.zip_with Qmult (Model.prox_r_N model) g_N_ddot)
               la_Nk1)).

(** The rows of the residual that do not depend on the index sets:
    kinematic equation, equations of motion, the bilateral constraints on
    position, velocity and acceleration level, and the non-holonomic
    constraints. *)
Definition kinematic_rows : vec :=
  Np.zip_with Qminus
    (Np.zip_with Qminus
       (Np.zip_with Qminus q_dotk1 (Model.q_dot model tk1 qk1 uk1))
       (matvec (Model.W_g model tk1 qk1) kappa_gk1))
    (matvec (Model.W_N model tk1 qk1) kappa_Nk1).

Definition dynamic_rows : vec :=
  Np.zip_with Qminus
    (Np.zip_with Qminus
       (Np.zip_with Qminus
          (Np.zip_with Qminus
             (matvec (Model.M model tk1 qk1) u_dotk1)
             (Model.h model tk1 qk1 uk1))
          (matvec (Model.W_g model tk1 qk1) la_gk1))
       (matvec (Model.W_gamma model tk1 qk1) la_gammak1))
    (matvec (Model.W_N model tk1 qk1) la_Nk1).

Definition smooth_rows : vec :=
  (kinematic_rows ++ dynamic_rows ++ Model.g model tk1 qk1
   ++ Model.g_dot model tk1 qk1 uk1
   ++ Model.g_ddot model tk1 qk1 uk1 u_dotk1
   ++ Model.gamma model tk1 qk1 uk1)%list.

(** The residual for index sets [I_N], [A_N_], [B_N_] (the attributes
    [Ai1], [Bi1], [Ci1]): each contact level is written through its mask
    and through the complement. *)
Definition residual (I_N A_N_ B_N_ : mask) : vec :=
  let A_N := Np.zip_with andb I_N A_N_ in
  let B_N := Np.zip_with andb A_N B_N_ in
  Np.write_pair (nR_smooth + 2 * self.nla_N s) B_N g_N_ddot la_Nk1
    (Np.write_pair (nR_smooth + self.nla_N s) A_N xi_N P_N
       (Np.write_pair nR_smooth I_N g_N kappa_hat_N
          (smooth_rows ++ Np.zeros (3 * self.nla_N s)))).

(** The state [R] leaves behind after it has recomputed the index
    sets. *)
Definition with_index_sets : Solver :=
  self.setattr self.a_Ci1 C
    (self.setattr self.a_Bi1 B
       (self.setattr self.a_Ai1 A
          (self.setattr self.a_nR_smooth nR_smooth s))).

End Contacts.

(** The model returns arrays of the dimensions it declares. *)
Record model_shapes (model : Model.t) : Prop := {
  shape_q_dot : forall t q u, length (Model.q_dot model t q u) = Model.nq model;
  shape_M : forall t q,
    Np.ncols (Model.M model t q) = Model.nu model
    /\ length (Np.rows (Model.M model t q)) = Model.nu model;
  shape_h : forall t q u, length (Model.h model t q u) = Model.nu model;
  shape_W_g : forall t q,
    Np.ncols (Model.W_g model t q) = Model.nla_g model
    /\ length (Np.rows (Model.W_g model t q)) = Model.nu model;
  shape_W_gamma : forall t q,
    Np.ncols (Model.W_gamma model t q) = Model.nla_gamma model
    /\ length (Np.rows (Model.W_gamma model t q)) = Model.nu model;
  shape_W_N : forall t q,
    Np.ncols (Model.W_N model t q) = Model.nla_N model
    /\ length (Np.rows (Model.W_N model t q)) = Model.nu model;
  shape_g : forall t q, length (Model.g model t q) = Model.nla_g model;
  shape_g_dot : forall t q u,
    length (Model.g_dot model t q u) = Model.nla_g model;
  shape_g_ddot : forall t q u a,
    length (Model.g_ddot model t q u a) = Model.nla_g model;
  shape_gamma : forall t q u,
    length (Model.gamma model t q u) = Model.nla_gamma model;
  shape_g_N : forall t q, length (Model.g_N model t q) = Model.nla_N model;
  shape_xi_N : forall t q u u',
    length (Model.xi_N model t q u u') = Model.nla_N model;
  shape_g_N_ddot : forall t q u a,
    length (Model.g_N_ddot model t q u a) = Model.nla_N model;
  shape_prox_r_N : length (Model.prox_r_N model) = Model.nla_N model
}.

(** The arrays a solver object carries have the configured dimensions.
    The kinematic rows subtract [W_g @ kappa_g], an array of [nu]
    entries, from [q_dot], an array of [nq] entries: the residual is
    assembled for models with [nq = nu]. *)
Record state_shapes (model : Model.t) (s : Solver) : Prop := {
  dims_nq : self.nq s = Model.nq model;
  dims_nu : self.nu s = Model.nu model;
  dims_nla_g : self.nla_g s = Model.nla_g model;
  dims_nla_gamma : self.nla_gamma s = Model.nla_gamma model;
  dims_nla_N : self.nla_N s = Model.nla_N model;
  dims_ny : self.ny s = (self.nq s + self.nu s)%nat;
  dims_nx : self.nx s =
    (self.ny s + 3 * self.nla_g s + self.nla_gamma s + 3 * self.nla_N s)%nat;
  dims_square : self.nq s = self.nu s;
  shape_yk : length (self.yk s) = self.ny s;
  shape_y_dotk : length (self.y_dotk s) = self.ny s;
  shape_vk : length (self.vk s) = self.ny s;
  shape_la_Nk : length (self.la_Nk s) = self.nla_N s;
  shape_la_Nbark : length (self.la_Nbark s) = self.nla_N s
}.

(** The index sets stored in the object, when they have been computed
    for the configured number of contacts. *)
Definition frozen (s : Solver) (A B C : mask) : Prop :=
  self.Ai1 s = Some A /\ self.Bi1 s = Some B /\ self.Ci1 s = Some C
  /\ self.nR_smooth s = Some (nR_smooth s)
  /\ length A = self.nla_N s /\ length B = self.nla_N s
  /\ length C = self.nla_N s.

End Trial.

(** ** A small model: a ball above a plane

    One coordinate (the height), one velocity, no bilateral constraint and
    one contact.  It serves as the concrete input of the examples below. *)

Module Ball.

Local Open Scope Q_scope.

Definition model : Model.t :=
  {| Model.t0 := 0;
     Model.q0 := [1];
     Model.u0 := [0];
     Model.la_g0 := [];
     Model.la_gamma0 := [];
     Model.la_N0 := [0];
     Model.nq := 1;
     Model.nu := 1;
     Model.nla_g := 0;
     Model.nla_gamma := 0;
     Model.nla_N := 1;
     Model.q_dot := fun _ _ u => [nth 0 u 0];
     Model.M := fun _ _ => {| Np.ncols := 1; Np.rows := [[1]] |};
     Model.h := fun _ _ _ => [-(10)];
     Model.W_g := fun _ _ => {| Np.ncols := 0; Np.rows := [[]] |};
     Model.W_gamma := fun _ _ => {| Np.ncols := 0; Np.rows := [[]] |};
     Model.W_N := fun _ _ => {| Np.ncols := 1; Np.rows := [[1]] |};
     Model.g := fun _ _ => [];
     Model.g_dot := fun _ _ _ => [];
     Model.g_ddot := fun _ _ _ _ => [];
     Model.g_q := fun _ _ => {| Np.ncols := 1; Np.rows := [] |};
     Model.gamma := fun _ _ _ => [];
     Model.gamma_dot := fun _ _ _ _ => [];
     Model.zeta_g := fun _ _ _ => [];
     Model.zeta_gamma := fun _ _ _ => [];
     Model.g_N := fun _ q => [nth 0 q 0];
     Model.xi_N := fun _ _ uk uk1 => [nth 0 uk1 0 + 0.5 * nth 0 uk 0];
     Model.g_N_ddot := fun _ _ _ a => [nth 0 a 0];
     Model.prox_r_N := [1];
     Model.step_callback := fun _ q u => (q, u) |}.

(** A linear solve for diagonal matrices. *)
Definition spsolve (A : Np.mat) (b : vec) : Result vec :=
  if (Np.ncols A =? length b)%nat
  then Ok (map (fun i => nth i b 0 / nth i (nth i (Np.rows A) []) 0)
               (seq 0 (length b)))
  else Raise (ValueError "matrix - rhs dimension mismatch").

(** Forward differences: [f(x0)] first, then one evaluation per
    coordinate. *)
Fixpoint columns (f : vec -> Result vec) (x0 f0 : vec) (h : Q)
    (js : list nat) : Result (list vec) :=
  match js with
  | [] => Ok []
  | j :: js' =>
      (fj <- f (Np.set_nth j (nth j x0 0 + h) x0) ;;
       d <- Np.sub fj f0 ;;
       cs <- columns f x0 f0 h js' ;;
       Ok (Np.div_scalar d h :: cs))%res
  end.

Definition approx_fprime : approx_fprime_t :=
  fun x0 f eps _ =>
    (let h := match eps with Some e => e | None => 1e-6 end in
     f0 <- f x0 ;;
     cs <- columns f x0 f0 h (seq 0 (length x0)) ;;
     Ok (Np.transpose {| Np.ncols := length f0; Np.rows := cs |}))%res.

Import GenAlphaFirstOrderVelocityGGLNormalContacts.

(** The contact solver for [dt = 0.1], [rho_inf = 0.5], [tol = 1e-8], the
    default error function and a numerical Jacobian. *)
Definition init (t1 : Q) (max_iter DAE_index : Z) : Result Solver :=
  __init__ model spsolve t1 0.1 0.5 1e-8 max_iter Np.max_abs true DAE_index.

(** The object [init] constructs, attribute by attribute. *)
Definition solver (t1 : T1_value) (max_iter DAE_index : Z) : Solver :=
  let alpha_m := (2.0 * 0.5 - 1.0) / (0.5 + 1.0) in
  let alpha_f := 0.5 / (0.5 + 1.0) in
  let gamma := 0.5 + alpha_f - alpha_m in
  {| self.DAE_index := DAE_index;
     self.t0 := 0; self.t1 := t1; self.dt := 0.1;
     self.rho_inf := 0.5; self.alpha_m := alpha_m; self.alpha_f := alpha_f;
     self.gamma := gamma; self.beta := 0.25 * ((gamma + 0.5) ^ 2);
     self.tol := 1e-8; self.max_iter := max_iter;
     self.error_function := Np.max_abs;
     self.nq := 1; self.nu := 1; self.nla_g := 0; self.nla_gamma := 0;
     self.nla_N := 1; self.ny := 2; self.nx := 5;
     self.tk := 0; self.qk := [1]; self.uk := [0];
     self.kappa_gk := []; self.la_gk := []; self.La_gk := [];
     self.la_gammak := []; self.kappa_Nk := [0]; self.la_Nk := [0];
     self.La_Nk := [0]; self.la_gbark := [0]; self.la_Nbark := [0];
     self.q_dotk := [0]; self.u_dotk := [-(10)];
     self.yk := [1; 0]; self.y_dotk := [0; -(10)]; self.vk := [0; -(10)];
     self.xk := [0; -(10); 0; 0; 0];
     self.R_gen := R_gen_num; self.k := 0%nat;
     self.nR_smooth := None; self.Ai1 := None; self.Bi1 := None;
     self.Ci1 := None |}.


(** The object [ggl_init t1 0] constructs. *)
Definition ggl_solver (t1 : T1_value)
  : GenAlphaFirstOrderVelocityGGL.Solver :=
  let alpha_m := (3.0 * 0 - 1.0) / (2.0 * (0 + 1.0)) in
  let alpha_f := 0 / (0 + 1.0) in
  let gamma := 0.5 + alpha_f - alpha_m in
  {| GenAlphaFirstOrderVelocityGGL.self.t0 := 0;
     GenAlphaFirstOrderVelocityGGL.self.t1 := t1;
     GenAlphaFirstOrderVelocityGGL.self.dt := 0.1;
     GenAlphaFirstOrderVelocityGGL.self.rho_inf := 0;
     GenAlphaFirstOrderVelocityGGL.self.alpha_m := alpha_m;
     GenAlphaFirstOrderVelocityGGL.self.alpha_f := alpha_f;
     GenAlphaFirstOrderVelocityGGL.self.gamma := gamma;
     GenAlphaFirstOrderVelocityGGL.self.gamma_prime :=
       0.1 * gamma * (1.0 - alpha_f) / (1.0 - alpha_m);
     GenAlphaFirstOrderVelocityGGL.self.tol := 1e-8;
     GenAlphaFirstOrderVelocityGGL.self.max_iter := 40;
     GenAlphaFirstOrderVelocityGGL.self.error_function := Np.max_abs;
     GenAlphaFirstOrderVelocityGGL.self.nq := 1;
     GenAlphaFirstOrderVelocityGGL.self.nu := 1;
     GenAlphaFirstOrderVelocityGGL.self.nla_g := 0;
     GenAlphaFirstOrderVelocityGGL.self.nla_gamma := 0;
     GenAlphaFirstOrderVelocityGGL.self.ny := 2;
     GenAlphaFirstOrderVelocityGGL.self.nx := 2;
     GenAlphaFirstOrderVelocityGGL.self.tk := 0;
     GenAlphaFirstOrderVelocityGGL.self.qk := [1];
     GenAlphaFirstOrderVelocityGGL.self.uk := [0];
     GenAlphaFirstOrderVelocityGGL.self.la_gk := [];
     GenAlphaFirstOrderVelocityGGL.self.la_gammak := [];
     GenAlphaFirstOrderVelocityGGL.self.mu_gk := [];
     GenAlphaFirstOrderVelocityGGL.self.q_dotk := [0];
     GenAlphaFirstOrderVelocityGGL.self.u_dotk := [-(10)];
     GenAlphaFirstOrderVelocityGGL.self.yk := [1; 0];
     GenAlphaFirstOrderVelocityGGL.self.y_dotk := [0; -(10)];
     GenAlphaFirstOrderVelocityGGL.self.vk := [0; -(10)];
     GenAlphaFirstOrderVelocityGGL.self.xk := [0; -(10)];
     GenAlphaFirstOrderVelocityGGL.self.R_gen := R_gen_num;
     GenAlphaFirstOrderVelocityGGL.self.use_preconditioning := false |}.

End Ball.

(** ** Views of a solver object

    [without_index_sets s] is the object [s] with the four attributes that
    [R] assigns removed; two objects with the same view differ at most in
    [nR_smooth], [Ai1], [Bi1] and [Ci1]. *)

Module View.

Import GenAlphaFirstOrderVelocityGGLNormalContacts.

Definition without_index_sets (s : Solver) : Solver :=
  {| self.DAE_index := self.DAE_index s;
     self.t0 := self.t0 s; self.t1 := self.t1 s; self.dt := self.dt s;
     self.rho_inf := self.rho_inf s; self.alpha_m := self.alpha_m s;
     self.alpha_f := self.alpha_f s; self.gamma := self.gamma s;
     self.beta := self.beta s; self.tol := self.tol s;
     self.max_iter := self.max_iter s;
     self.error_function := self.error_function s;
     self.nq := self.nq s; self.nu := self.nu s; self.nla_g := self.nla_g s;
     self.nla_gamma := self.nla_gamma s; self.nla_N := self.nla_N s;
     self.ny := self.ny s; self.nx := self.nx s;
     self.tk := self.tk s; self.qk := self.qk s; self.uk := self.uk s;
     self.kappa_gk := self.kappa_gk s; self.la_gk := self.la_gk s;
     self.La_gk := self.La_gk s; self.la_gammak := self.la_gammak s;
     self.kappa_Nk := self.kappa_Nk s; self.la_Nk := self.la_Nk s;
     self.La_Nk := self.La_Nk s; self.la_gbark := self.la_gbark s;
     self.la_Nbark := self.la_Nbark s;
     self.q_dotk := self.q_dotk s; self.u_dotk := self.u_dotk s;
     self.yk := self.yk s; self.y_dotk := self.y_dotk s;
     self.vk := self.vk s; self.xk := self.xk s;
     self.R_gen := self.R_gen s; self.k := self.k s;
     self.nR_smooth := None; self.Ai1 := None; self.Bi1 := None;
     self.Ci1 := None |}.

(** [same_but_index_sets s s']: [s'] has every attribute of [s] except
    possibly the four index-set attributes. *)
Definition same_but_index_sets (s s' : Solver) : Prop :=
  without_index_sets s' = without_index_sets s.

(** What [step] hands back is the state of its last evaluation of the
    residual: the object [s'] is what [R(tk1, x, update_index_set=True)]
    left behind, and [e] is the error of that residual. *)
Definition evaluated_at (model : Model.t) (tk1 : Q) (x : vec) (e : Q)
    (s s' : Solver) : Prop :=
  exists (s0 : Solver) (r : vec),
    same_but_index_sets s s0
    /\ R model tk1 x true s0 = (Ok r, s')
    /\ self.error_function s r = Ok e.

End View.

(** ** Views of a solution *)

Module Output.

Import GenAlphaFirstOrderVelocityGGLNormalContacts.




End Output.

(** ** Properties of method bodies *)

(** A method keeps a relation between the state it starts from and the
    state it leaves behind, whether it returns or raises. *)
Definition preserves {S A} (P : S -> S -> Prop) (m : Prog S A) : Prop :=
  forall s, P s (snd (m s)).

(** [commutes f m]: running [m] on the object changed by [f] gives the
    result of running it on the object itself, and leaves the object
    changed by [f]. *)
Definition commutes {S A} (f : S -> S) (m : Prog S A) : Prop :=
  forall s, m (f s) = (fst (m s), f (snd (m s))).

(** A finite-difference Jacobian evaluates its function: when every
    evaluation raises, so does [approx_fprime]. *)
Definition evaluates_function (approx_fprime : approx_fprime_t) : Prop :=
  forall x (f : vec -> Result vec) eps m e,
    (forall y, f y = Raise e) -> approx_fprime x f eps m = Raise e.

(** The positional arguments [fsolve] hands to [fun]: [fun_args] itself
    when it is a tuple, the one-element tuple of it otherwise. *)
Definition positional {Arg} (a : Fsolve.pyargs Arg) : list Arg :=
  match a with Fsolve.Tuple l => l | Fsolve.Single a => [a] end.

(** * Facts about the array operations *)

Module NpFacts.

Import Np.
Local Open Scope nat_scope.

Lemma length_zip_with {A B C} (f : A -> B -> C) u v :
  length (zip_with f u v) = Nat.min (length u) (length v).
Proof.
  revert v; induction u as [|a u IH]; intros [|b v]; simpl; auto.
Qed.

Lemma length_zip_with_same {A B C} (f : A -> B -> C) u v n :
  length u = n -> length v = n -> length (zip_with f u v) = n.
Proof. intros; rewrite length_zip_with; lia. Qed.

Lemma nth_zip_with {A B C} (f : A -> B -> C) u v i da db dc :
  i < length u -> i < length v ->
  nth i (zip_with f u v) dc = f (nth i u da) (nth i v db).
Proof.
  revert v i; induction u as [|a u IH]; intros [|b v] [|i]; simpl;
    intros; try lia; auto.
  apply IH; lia.
Qed.

(** On boolean arrays the default [false] makes the equation hold at
    every index. *)
Lemma nth_zip_with_andb u v i :
  nth i (zip_with andb u v) false = nth i u false && nth i v false.
Proof.
  revert v i; induction u as [|a u IH]; intros [|b v] [|i]; simpl; auto.
  - now rewrite andb_false_r.
  - now rewrite andb_false_r.
Qed.

Lemma broadcast_ok {A B C} (f : A -> B -> C) u v :
  length u = length v -> broadcast f u v = Ok (zip_with f u v).
Proof. intros H; unfold broadcast; now rewrite H, Nat.eqb_refl. Qed.

Lemma add_ok u v : length u = length v -> add u v = Ok (zip_with Qplus u v).
Proof. apply broadcast_ok. Qed.

Lemma sub_ok u v : length u = length v -> sub u v = Ok (zip_with Qminus u v).
Proof. apply broadcast_ok. Qed.

Lemma mul_ok u v : length u = length v -> mul u v = Ok (zip_with Qmult u v).
Proof. apply broadcast_ok. Qed.

Lemma band_ok u v : length u = length v -> band u v = Ok (zip_with andb u v).
Proof. apply broadcast_ok. Qed.

Lemma length_scale c v : length (scale c v) = length v.
Proof. apply length_map. Qed.

Lemma length_div_scalar v c : length (div_scalar v c) = length v.
Proof. apply length_map. Qed.

Lemma length_le0 v : length (le0 v) = length v.
Proof. apply length_map. Qed.

Lemma length_invert m : length (invert m) = length m.
Proof. apply length_map. Qed.

Lemma length_zeros n : length (zeros n) = n.
Proof. apply repeat_length. Qed.

Lemma length_slice {A} a b (x : list A) :
  length (slice a b x) = Nat.min (b - a) (length x - a).
Proof. unfold slice; now rewrite length_firstn, length_skipn. Qed.

Lemma length_slice_in {A} a b (x : list A) :
  a <= b -> b <= length x -> length (slice a b x) = b - a.
Proof. intros; rewrite length_slice; lia. Qed.

Lemma nth_slice {A} a b (x : list A) i d :
  i < b - a -> nth i (slice a b x) d = nth (a + i) x d.
Proof.
  intros H; unfold slice.
  rewrite nth_firstn.
  destruct (Nat.ltb_spec i (b - a)); try lia.
  now rewrite nth_skipn.
Qed.

Lemma nth_scale c v i : (nth i (scale c v) 0 == c * nth i v 0)%Q.
Proof.
  unfold scale.
  destruct (Nat.lt_ge_cases i (length v)) as [H|H].
  - rewrite (nth_indep _ 0%Q (c * 0)%Q) by (now rewrite length_map).
    rewrite map_nth; reflexivity.
  - rewrite !nth_overflow by (rewrite ?length_map; lia). ring.
Qed.

Lemma nth_div_scalar v c i : (nth i (div_scalar v c) 0 == nth i v 0 / c)%Q.
Proof.
  unfold div_scalar.
  destruct (Nat.lt_ge_cases i (length v)) as [H|H].
  - rewrite (nth_indep _ 0%Q (0 / c)%Q) by (now rewrite length_map).
    rewrite (map_nth (fun a => a / c)%Q); reflexivity.
  - rewrite !nth_overflow by (rewrite ?length_map; lia).
    unfold Qdiv; ring.
Qed.

Lemma set_slice_ok a b v x :
  a <= b -> b <= length x -> length v = b - a ->
  set_slice a b v x = Ok (firstn a x ++ v ++ skipn b x).
Proof.
  intros Hab Hb Hv; unfold set_slice.
  replace (Nat.min a (length x)) with a by lia.
  replace (Nat.max a (Nat.min b (length x))) with b by lia.
  now rewrite Hv, Nat.eqb_refl.
Qed.

Lemma length_set_slice a b v (x : vec) :
  a <= b -> b <= length x -> length v = b - a ->
  length (firstn a x ++ v ++ skipn b x) = length x.
Proof.
  intros; rewrite !length_app, length_firstn, length_skipn; lia.
Qed.

(** *** Writing through a boolean mask *)

Lemma length_set_nth {A} i (a : A) x : length (set_nth i a x) = length x.
Proof.
  revert i; induction x as [|b x IH]; intros [|i]; simpl; auto.
Qed.

Lemma nth_set_nth {A} i (a : A) x j d :
  nth j (set_nth i a x) d =
  if (j =? i) && (i <? length x) then a else nth j x d.
Proof.
  revert i j; induction x as [|b x IH]; intros i j.
  - simpl. rewrite andb_false_r. now destruct i, j.
  - destruct i, j; simpl; auto.
Qed.

Lemma length_put_all {A} idx (vals x : list A) :
  length (put_all idx vals x) = length x.
Proof.
  revert vals x; induction idx as [|i idx IH]; intros [|a vals] x;
    simpl; auto.
  now rewrite IH, length_set_nth.
Qed.

Lemma length_select_where {A} (v : list A) m i :
  length v = length m -> length (select v m) = length (where_from i m).
Proof.
  revert m i; induction v as [|a v IH]; intros [|b m] i; simpl;
    intros H; try discriminate; auto.
  destruct b; simpl; auto.
Qed.

Lemma where_from_bounds m i j :
  In j (where_from i m) -> i <= j < i + length m.
Proof.
  revert i; induction m as [|b m IH]; intros i; simpl; [tauto|].
  destruct b; simpl; intros H.
  - destruct H as [H|H]; [lia|]. apply IH in H; lia.
  - apply IH in H; lia.
Qed.

(** The entries of [x] after [x[base + where(m)] = v[m]]. *)
Lemma put_all_cons_true (v x : vec) a m base i :
  put_all (map (Nat.add base) (where_from i (true :: m))) (select (a :: v) (true :: m)) x
  = put_all (map (Nat.add base) (where_from (S i) m)) (select v m) (set_nth (base + i) a x).
Proof. reflexivity. Qed.

Lemma put_all_cons_false (v x : vec) a m base i :
  put_all (map (Nat.add base) (where_from i (false :: m))) (select (a :: v) (false :: m)) x
  = put_all (map (Nat.add base) (where_from (S i) m)) (select v m) x.
Proof. reflexivity. Qed.

Lemma nth_put_all_mask (v x : vec) m base i j d :
  length v = length m -> base + i + length m <= length x ->
  nth j (put_all (map (Nat.add base) (where_from i m)) (select v m) x) d =
  if (base + i <=? j) && (j <? base + i + length m)
     && nth (j - (base + i)) m false
  then nth (j - (base + i)) v d
  else nth j x d.
Proof.
  revert v x i; induction m as [|b m IH]; intros [|a v] x i Hv Hx;
    try discriminate.
  - simpl. destruct ((base + i <=? j) && (j <? base + i + 0)) eqn:E; auto.
    apply andb_true_iff in E as [E1 E2].
    apply Nat.leb_le in E1; apply Nat.ltb_lt in E2; lia.
  - injection Hv as Hv. cbn [length] in Hx.
    assert (Hrhs :
        (if (base + i <=? j) && (j <? base + i + length (b :: m))
            && nth (j - (base + i)) (b :: m) false
         then nth (j - (base + i)) (a :: v) d else nth j x d) =
        if j =? base + i then (if b then a else nth j x d) else
        (if (base + S i <=? j) && (j <? base + S i + length m)
            && nth (j - (base + S i)) m false
         then nth (j - (base + S i)) v d else nth j x d)).
    { cbn [length].
      destruct (Nat.eqb_spec j (base + i)) as [->|Hne].
      - replace (base + i - (base + i)) with 0 by lia.
        replace (base + i <=? base + i) with true
          by (symmetry; apply Nat.leb_le; lia).
        replace (base + i <? base + i + S (length m)) with true
          by (symmetry; apply Nat.ltb_lt; lia).
        reflexivity.
      - destruct (Nat.le_gt_cases (base + S i) j) as [Hle|Hgt].
        + replace (base + i <=? j) with true
            by (symmetry; apply Nat.leb_le; lia).
          replace (base + S i <=? j) with true
            by (symmetry; apply Nat.leb_le; lia).
          replace (j <? base + i + S (length m))
            with (j <? base + S i + length m)
            by (f_equal; lia).
          replace (j - (base + i)) with (S (j - (base + S i))) by lia.
          reflexivity.
        + replace (base + i <=? j) with false
            by (symmetry; apply Nat.leb_gt; lia).
          replace (base + S i <=? j) with false
            by (symmetry; apply Nat.leb_gt; lia).
          reflexivity. }
    rewrite Hrhs; clear Hrhs.
    destruct b.
    + rewrite put_all_cons_true, IH
        by (rewrite ?length_set_nth; auto; lia).
      rewrite nth_set_nth.
      destruct (Nat.eqb_spec j (base + i)) as [->|Hne].
      * replace (base + S i <=? base + i) with false
          by (symmetry; apply Nat.leb_gt; lia).
        replace (base + i <? length x) with true
          by (symmetry; apply Nat.ltb_lt; lia).
        reflexivity.
      * reflexivity.
    + rewrite put_all_cons_false, IH by (auto; lia).
      destruct (Nat.eqb_spec j (base + i)) as [->|Hne]; auto.
      replace (base + S i <=? base + i) with false
          by (symmetry; apply Nat.leb_gt; lia).
      reflexivity.
Qed.

Lemma bool_index_ok {A} (v : list A) m :
  length v = length m -> bool_index v m = Ok (select v m).
Proof. intros H; unfold bool_index; now rewrite H, Nat.eqb_refl. Qed.

Lemma set_index_mask_ok (v x : vec) m base :
  length v = length m -> base + length m <= length x ->
  set_index (map (Nat.add base) (where_ m)) (select v m) x =
  Ok (put_all (map (Nat.add base) (where_ m)) (select v m) x).
Proof.
  intros Hv Hx; unfold set_index, where_.
  replace (existsb _ _) with false.
  - rewrite length_map, (length_select_where v m 0 Hv), Nat.eqb_refl.
    reflexivity.
  - symmetry; apply not_true_is_false; intros H.
    apply existsb_exists in H as (j & Hj & Hlt).
    apply in_map_iff in Hj as (k & <- & Hk).
    apply where_from_bounds in Hk.
    apply Nat.leb_le in Hlt; lia.
Qed.

Lemma nth_invert m i :
  i < length m -> nth i (invert m) false = negb (nth i m false).
Proof.
  intros H; unfold invert.
  rewrite (nth_indep _ false (negb true)) by (now rewrite length_map).
  rewrite map_nth. f_equal. now apply nth_indep.
Qed.

(** [x[base + where(m)] = v[m]] followed by [x[base + where(~m)] = w[~m]] *)
Lemma nth_write_pair (v w x : vec) m base j d :
  length v = length m -> length w = length m ->
  base + length m <= length x ->
  nth j (write_pair base m v w x) d =
  if (base <=? j) && (j <? base + length m)
  then (if nth (j - base) m false then nth (j - base) v d
        else nth (j - base) w d)
  else nth j x d.
Proof.
  intros Hv Hw Hx; unfold write_pair, where_.
  rewrite nth_put_all_mask
    by (rewrite ?length_invert, ?length_put_all; auto; lia).
  rewrite nth_put_all_mask by (auto; lia).
  rewrite !Nat.add_0_r, length_invert.
  destruct ((base <=? j) && (j <? base + length m)) eqn:E; simpl; auto.
  apply andb_true_iff in E as [E1 E2].
  apply Nat.leb_le in E1; apply Nat.ltb_lt in E2.
  rewrite nth_invert by lia.
  now destruct (nth (j - base) m false).
Qed.

Lemma length_write_pair (v w x : vec) m base :
  length (write_pair base m v w x) = length x.
Proof. unfold write_pair; now rewrite !length_put_all. Qed.

Lemma write_pair_ok (v w x : vec) m base :
  length v = length m -> length w = length m ->
  base + length m <= length x ->
  rbind (set_index (map (Nat.add base) (where_ m)) (select v m) x)
    (fun x' => set_index (map (Nat.add base) (where_ (invert m)))
                 (select w (invert m)) x')
  = Ok (write_pair base m v w x).
Proof.
  intros Hv Hw Hx.
  rewrite set_index_mask_ok by auto. simpl.
  rewrite set_index_mask_ok
    by (rewrite ?length_invert, ?length_put_all; auto).
  reflexivity.
Qed.

End NpFacts.

(** * The generalized-alpha update rule *)

Import Np NpFacts.
Import GenAlphaFirstOrderVelocityGGLNormalContacts.

Create Rewrite HintDb len.
#[export] Hint Rewrite @length_zip_with length_scale length_div_scalar
  length_le0 length_invert length_zeros @length_slice @length_app
  @length_map @repeat_length @length_put_all : len.

Ltac len :=
  cbn [length] in *; autorewrite with len in *; cbn [length] in *; lia.

(** Decimal literals of the source and the numbers they denote. *)
Lemma lit_1 : (1.0 == 1)%Q.
Proof. reflexivity. Qed.

Lemma lit_2 : (2.0 == 2)%Q.
Proof. reflexivity. Qed.

Lemma lit_3 : (3.0 == 3)%Q.
Proof. reflexivity. Qed.

Lemma lit_half : (0.5 == 1 / 2)%Q.
Proof. reflexivity. Qed.

Lemma slice_0 {A} n (x : list A) : slice 0 n x = firstn n x.
Proof. unfold slice; now rewrite Nat.sub_0_r. Qed.

Section Update.

Local Open Scope nat_scope.

Lemma update_run (y : vec) (store : bool) (s : Solver) :
  length (self.y_dotk s) = length y ->
  length (self.vk s) = length y ->
  length (self.yk s) = length y ->
  let v1 := Trial.vk1 (self.alpha_f s) (self.alpha_m s)
              (self.y_dotk s) (self.vk s) y in
  let y1 := Trial.yk1 (self.dt s) (self.gamma s) (self.yk s)
              (self.vk s) v1 in
  let nq := self.nq s in
  let nu := self.nu s in
  update y store s =
  (Ok (slice 0 nq y1, slice nq (nq + nu) y1,
       slice 0 nq y, slice nq (nq + nu) y),
   if store
   then self.setattr self.a_uk (slice nq (nq + nu) v1)
          (self.setattr self.a_y_dotk y
             (self.setattr self.a_yk y1
                (self.setattr self.a_vk v1 s)))
   else s).
Proof.
  intros H1 H2 H3 v1 y1 nq nu.
  unfold update, bind, gets.
  unfold lift at 1. rewrite add_ok by len.
  unfold lift at 1. rewrite sub_ok by len.
  unfold lift at 1. rewrite add_ok by len.
  unfold lift at 1. rewrite add_ok by (unfold Trial.vk1 in *; len).
  destruct store; reflexivity.
Qed.

Lemma GGL_update_run (x : vec) (store : bool) (s : GenAlphaFirstOrderVelocityGGL.Solver) :
  let y := slice 0 (GenAlphaFirstOrderVelocityGGL.self.ny s) x in
  length (GenAlphaFirstOrderVelocityGGL.self.y_dotk s) = length y ->
  length (GenAlphaFirstOrderVelocityGGL.self.vk s) = length y ->
  length (GenAlphaFirstOrderVelocityGGL.self.yk s) = length y ->
  let v1 := Trial.vk1 (GenAlphaFirstOrderVelocityGGL.self.alpha_f s) (GenAlphaFirstOrderVelocityGGL.self.alpha_m s)
              (GenAlphaFirstOrderVelocityGGL.self.y_dotk s) (GenAlphaFirstOrderVelocityGGL.self.vk s) y in
  let y1 := Trial.yk1 (GenAlphaFirstOrderVelocityGGL.self.dt s) (GenAlphaFirstOrderVelocityGGL.self.gamma s) (GenAlphaFirstOrderVelocityGGL.self.yk s)
              (GenAlphaFirstOrderVelocityGGL.self.vk s) v1 in
  let nq := GenAlphaFirstOrderVelocityGGL.self.nq s in
  let nu := GenAlphaFirstOrderVelocityGGL.self.nu s in
  GenAlphaFirstOrderVelocityGGL.update x store s =
  (Ok (slice 0 nq y1, slice nq (nq + nu) y1,
       slice 0 nq y, slice nq (nq + nu) y),
   if store
   then GenAlphaFirstOrderVelocityGGL.self.setattr GenAlphaFirstOrderVelocityGGL.self.a_y_dotk y
          (GenAlphaFirstOrderVelocityGGL.self.setattr GenAlphaFirstOrderVelocityGGL.self.a_yk y1
             (GenAlphaFirstOrderVelocityGGL.self.setattr GenAlphaFirstOrderVelocityGGL.self.a_vk v1 s))
   else s).
Proof.
  intros y H1 H2 H3 v1 y1 nq nu.
  unfold GenAlphaFirstOrderVelocityGGL.update, bind, gets.
  unfold lift at 1. fold y. rewrite add_ok by len.
  unfold lift at 1. rewrite sub_ok by len.
  unfold lift at 1. rewrite add_ok by len.
  unfold lift at 1. rewrite add_ok by (unfold Trial.vk1 in *; len).
  destruct store; reflexivity.
Qed.

(** The entries of [v_{k+1}] and [y_{k+1}]. *)
Lemma nth_vk1 alpha_f alpha_m (y_dotk vk y : vec) i :
  i < length y -> length y_dotk = length y -> length vk = length y ->
  (nth i (Trial.vk1 alpha_f alpha_m y_dotk vk y) 0 ==
   (alpha_f * nth i y_dotk 0 + (1 - alpha_f) * nth i y 0
    - alpha_m * nth i vk 0) / (1 - alpha_m))%Q.
Proof.
  intros Hi H1 H2; unfold Trial.vk1.
  rewrite nth_div_scalar.
  rewrite (@nth_zip_with _ _ _ Qminus _ _ _ 0%Q 0%Q) by len.
  rewrite (@nth_zip_with _ _ _ Qplus _ _ _ 0%Q 0%Q) by len.
  rewrite !nth_scale, !lit_1.
  reflexivity.
Qed.

Lemma nth_yk1 dt gamma (yk vk v1 : vec) i :
  i < length yk -> length vk = length yk -> length v1 = length yk ->
  (nth i (Trial.yk1 dt gamma yk vk v1) 0 ==
   nth i yk 0 + dt * ((1 - gamma) * nth i vk 0 + gamma * nth i v1 0))%Q.
Proof.
  intros Hi H1 H2; unfold Trial.yk1.
  rewrite (@nth_zip_with _ _ _ Qplus _ _ _ 0%Q 0%Q) by len.
  rewrite nth_scale.
  rewrite (@nth_zip_with _ _ _ Qplus _ _ _ 0%Q 0%Q) by len.
  rewrite !nth_scale, !lit_1.
  reflexivity.
Qed.


(** With [store=False] the object is left as it was, whether [update]
    returns or raises on arrays of unequal shapes. *)
Lemma update_no_store (y : vec) (s : Solver) :
  snd (update y false s) = s.
Proof.
  unfold update, bind, gets, lift, ret.
  repeat match goal with
         | |- context [match ?r with Ok _ => _ | Raise _ => _ end] =>
             destruct r
         end; reflexivity.
Qed.

Lemma GGL_update_no_store (x : vec) (s : GenAlphaFirstOrderVelocityGGL.Solver) :
  snd (GenAlphaFirstOrderVelocityGGL.update x false s) = s.
Proof.
  unfold GenAlphaFirstOrderVelocityGGL.update, bind, gets, lift, ret.
  repeat match goal with
         | |- context [match ?r with Ok _ => _ | Raise _ => _ end] =>
             destruct r
         end; reflexivity.
Qed.

(** With [store=True] the four assignments are made together, after every
    array operation has succeeded. *)
Lemma update_store (y : vec) (s : Solver) :
  (exists e, update y true s = (Raise e, s))
  \/ (exists r v1 y1,
        update y true s =
        (Ok r,
         self.setattr self.a_uk
           (slice (self.nq s) (self.nq s + self.nu s) v1)
           (self.setattr self.a_y_dotk y
              (self.setattr self.a_yk y1
                 (self.setattr self.a_vk v1 s))))).
Proof.
  unfold update, bind, gets, lift, ret, modify.
  repeat match goal with
         | |- context [match ?r with Ok _ => _ | Raise _ => _ end] =>
             destruct r
         end;
    try (left; eexists; reflexivity).
  right. do 3 eexists. reflexivity.
Qed.

Lemma GGL_update_store (x : vec) (s : GenAlphaFirstOrderVelocityGGL.Solver) :
  (exists e, GenAlphaFirstOrderVelocityGGL.update x true s = (Raise e, s))
  \/ (exists r v1 y1,
        GenAlphaFirstOrderVelocityGGL.update x true s =
        (Ok r,
         GenAlphaFirstOrderVelocityGGL.self.setattr GenAlphaFirstOrderVelocityGGL.self.a_y_dotk (slice 0 (GenAlphaFirstOrderVelocityGGL.self.ny s) x)
           (GenAlphaFirstOrderVelocityGGL.self.setattr GenAlphaFirstOrderVelocityGGL.self.a_yk y1
              (GenAlphaFirstOrderVelocityGGL.self.setattr GenAlphaFirstOrderVelocityGGL.self.a_vk v1 s)))).
Proof.
  unfold GenAlphaFirstOrderVelocityGGL.update, bind, gets, lift, ret, modify.
  repeat match goal with
         | |- context [match ?r with Ok _ => _ | Raise _ => _ end] =>
             destruct r
         end;
    try (left; eexists; reflexivity).
  right. do 3 eexists. reflexivity.
Qed.

End Update.

(** C3.  For every trial derivative vector, [update] of the contact solver
    and of the GGL solver computes
    [v_{k+1} = (alpha_f*y_dot_k + (1-alpha_f)*y_dot_{k+1} - alpha_m*v_k) / (1-alpha_m)]
    and [y_{k+1} = y_k + dt*((1-gamma)*v_k + gamma*v_{k+1})], entry by
    entry, and returns the first [nq] and the next [nu] entries of
    [y_{k+1}] and of [y_dot_{k+1}].  With [store=True] these [v_{k+1}],
    [y_{k+1}] and [y_dot_{k+1}] are what the object carries afterwards.
    The GGL solver takes the whole unknown vector and uses its first [ny]
    entries as [y_dot_{k+1}]. *)
Theorem update_rule :
  (forall (s : Solver) (y : vec) (store : bool),
     length y = self.ny s ->
     length (self.y_dotk s) = self.ny s ->
     length (self.vk s) = self.ny s ->
     length (self.yk s) = self.ny s ->
     exists v1 y1 : vec,
       length v1 = self.ny s /\ length y1 = self.ny s
       /\ (forall i, (i < self.ny s)%nat ->
             nth i v1 0 ==
             (self.alpha_f s * nth i (self.y_dotk s) 0
              + (1 - self.alpha_f s) * nth i y 0
              - self.alpha_m s * nth i (self.vk s) 0)
             / (1 - self.alpha_m s))
       /\ (forall i, (i < self.ny s)%nat ->
             nth i y1 0 ==
             nth i (self.yk s) 0
             + self.dt s * ((1 - self.gamma s) * nth i (self.vk s) 0
                              + self.gamma s * nth i v1 0))
       /\ fst (update y store s) =
          Ok (firstn (self.nq s) y1,
              slice (self.nq s) (self.nq s + self.nu s) y1,
              firstn (self.nq s) y,
              slice (self.nq s) (self.nq s + self.nu s) y)
       /\ (store = true ->
           self.vk (snd (update y store s)) = v1
           /\ self.yk (snd (update y store s)) = y1
           /\ self.y_dotk (snd (update y store s)) = y))
  /\
  (forall (s : GenAlphaFirstOrderVelocityGGL.Solver) (x : vec) (store : bool),
     (GenAlphaFirstOrderVelocityGGL.self.ny s <= length x)%nat ->
     length (GenAlphaFirstOrderVelocityGGL.self.y_dotk s) = GenAlphaFirstOrderVelocityGGL.self.ny s ->
     length (GenAlphaFirstOrderVelocityGGL.self.vk s) = GenAlphaFirstOrderVelocityGGL.self.ny s ->
     length (GenAlphaFirstOrderVelocityGGL.self.yk s) = GenAlphaFirstOrderVelocityGGL.self.ny s ->
     exists v1 y1 : vec,
       let y := firstn (GenAlphaFirstOrderVelocityGGL.self.ny s) x in
       length v1 = GenAlphaFirstOrderVelocityGGL.self.ny s /\ length y1 = GenAlphaFirstOrderVelocityGGL.self.ny s
       /\ (forall i, (i < GenAlphaFirstOrderVelocityGGL.self.ny s)%nat ->
             nth i v1 0 ==
             (GenAlphaFirstOrderVelocityGGL.self.alpha_f s * nth i (GenAlphaFirstOrderVelocityGGL.self.y_dotk s) 0
              + (1 - GenAlphaFirstOrderVelocityGGL.self.alpha_f s) * nth i y 0
              - GenAlphaFirstOrderVelocityGGL.self.alpha_m s * nth i (GenAlphaFirstOrderVelocityGGL.self.vk s) 0)
             / (1 - GenAlphaFirstOrderVelocityGGL.self.alpha_m s))
       /\ (forall i, (i < GenAlphaFirstOrderVelocityGGL.self.ny s)%nat ->
             nth i y1 0 ==
             nth i (GenAlphaFirstOrderVelocityGGL.self.yk s) 0
             + GenAlphaFirstOrderVelocityGGL.self.dt s * ((1 - GenAlphaFirstOrderVelocityGGL.self.gamma s) * nth i (GenAlphaFirstOrderVelocityGGL.self.vk s) 0
                              + GenAlphaFirstOrderVelocityGGL.self.gamma s * nth i v1 0))
       /\ fst (GenAlphaFirstOrderVelocityGGL.update x store s) =
          Ok (firstn (GenAlphaFirstOrderVelocityGGL.self.nq s) y1,
              slice (GenAlphaFirstOrderVelocityGGL.self.nq s) (GenAlphaFirstOrderVelocityGGL.self.nq s + GenAlphaFirstOrderVelocityGGL.self.nu s) y1,
              firstn (GenAlphaFirstOrderVelocityGGL.self.nq s) y,
              slice (GenAlphaFirstOrderVelocityGGL.self.nq s) (GenAlphaFirstOrderVelocityGGL.self.nq s + GenAlphaFirstOrderVelocityGGL.self.nu s) y)
       /\ (store = true ->
           GenAlphaFirstOrderVelocityGGL.self.vk (snd (GenAlphaFirstOrderVelocityGGL.update x store s)) = v1
           /\ GenAlphaFirstOrderVelocityGGL.self.yk (snd (GenAlphaFirstOrderVelocityGGL.update x store s)) = y1
           /\ GenAlphaFirstOrderVelocityGGL.self.y_dotk (snd (GenAlphaFirstOrderVelocityGGL.update x store s)) = y)).
Proof.
  split.
  - intros s y store Hy H1 H2 H3.
    pose proof (@update_run y store s) as Hrun; cbv zeta in Hrun.
    rewrite Hrun by congruence; clear Hrun.
    exists (Trial.vk1 (self.alpha_f s) (self.alpha_m s)
              (self.y_dotk s) (self.vk s) y).
    exists (Trial.yk1 (self.dt s) (self.gamma s) (self.yk s)
              (self.vk s)
              (Trial.vk1 (self.alpha_f s) (self.alpha_m s)
                 (self.y_dotk s) (self.vk s) y)).
    cbn [fst snd]; repeat apply conj.
    + unfold Trial.vk1; len.
    + unfold Trial.yk1, Trial.vk1; len.
    + intros i Hi. apply nth_vk1; lia.
    + intros i Hi. apply nth_yk1; unfold Trial.vk1; len.
    + now rewrite !slice_0.
    + intros ->; repeat apply conj; reflexivity.
  - intros s x store Hx H1 H2 H3.
    assert (Hy : length (slice 0 (GenAlphaFirstOrderVelocityGGL.self.ny s) x) = GenAlphaFirstOrderVelocityGGL.self.ny s) by len.
    pose proof (@GGL_update_run x store s) as Hrun; cbv zeta in Hrun.
    rewrite Hrun by congruence; clear Hrun.
    exists (Trial.vk1 (GenAlphaFirstOrderVelocityGGL.self.alpha_f s) (GenAlphaFirstOrderVelocityGGL.self.alpha_m s)
              (GenAlphaFirstOrderVelocityGGL.self.y_dotk s) (GenAlphaFirstOrderVelocityGGL.self.vk s) (slice 0 (GenAlphaFirstOrderVelocityGGL.self.ny s) x)).
    exists (Trial.yk1 (GenAlphaFirstOrderVelocityGGL.self.dt s) (GenAlphaFirstOrderVelocityGGL.self.gamma s) (GenAlphaFirstOrderVelocityGGL.self.yk s)
              (GenAlphaFirstOrderVelocityGGL.self.vk s)
              (Trial.vk1 (GenAlphaFirstOrderVelocityGGL.self.alpha_f s) (GenAlphaFirstOrderVelocityGGL.self.alpha_m s)
                 (GenAlphaFirstOrderVelocityGGL.self.y_dotk s) (GenAlphaFirstOrderVelocityGGL.self.vk s)
                 (slice 0 (GenAlphaFirstOrderVelocityGGL.self.ny s) x))).
    cbv zeta; cbn [fst snd]; rewrite <- !slice_0; repeat apply conj.
    + unfold Trial.vk1; len.
    + unfold Trial.yk1, Trial.vk1; len.
    + intros i Hi. apply (@nth_vk1 _ _ _ _ (slice 0 (GenAlphaFirstOrderVelocityGGL.self.ny s) x)); lia.
    + intros i Hi. apply nth_yk1; unfold Trial.vk1; len.
    + reflexivity.
    + intros ->; repeat apply conj; reflexivity.
Qed.

Lemma update_rule_witness :
  length [0; -(10)] = self.ny (Ball.solver (T1_float 1) 0 2)
  /\ exists v1 y1 : vec,
       fst (update [0; -(10)] true (Ball.solver (T1_float 1) 0 2)) =
       Ok (firstn 1 y1, slice 1 2 y1, [0], [-(10)])
       /\ self.vk
            (snd (update [0; -(10)] true (Ball.solver (T1_float 1) 0 2)))
          = v1.
Proof.
  split; [reflexivity|].
  destruct (proj1 update_rule (Ball.solver (T1_float 1) 0 2)
              [0; -(10)] true)
    as (v1 & y1 & _ & _ & _ & _ & Hr & Hs); try reflexivity.
  exists v1, y1. split; [exact Hr | apply Hs; reflexivity].
Defined.

(** ** What [update] assigns *)

(** The contact solver's [update(..., store=True)] also rebinds [uk]: on
    the ball, [uk] is [[0]] before the call and [v_{k+1}[1:2] = [-10]]
    after it. *)
Lemma update_store_assigns_uk :
  exists r,
    fst (update [0; -(10)] true (Ball.solver (T1_float 1) 0 2)) = Ok r
    /\ self.uk
         (snd (update [0; -(10)] true (Ball.solver (T1_float 1) 0 2)))
       <> self.uk (Ball.solver (T1_float 1) 0 2).
Proof.
  vm_compute. eexists; split; [reflexivity | discriminate].
Qed.

(** C4 (amended).  [update] with [store=False] leaves every attribute of
    the solver as it was.  With [store=True] the GGL solver rebinds
    exactly [vk], [yk] and [y_dotk] to [v_{k+1}], [y_{k+1}] and
    [y_dot_{k+1}]; the contact solver rebinds these three and, in
    addition, [uk] to the entries [nq : nq + nu] of [v_{k+1}].  Every
    other attribute keeps its value. *)
Theorem update_store_frame :
  (forall (s : Solver) (y : vec), snd (update y false s) = s)
  /\
  (forall (s : Solver) (y : vec) r s',
     update y true s = (Ok r, s') ->
     exists v1 y1 : vec,
       s' = self.setattr self.a_uk
              (slice (self.nq s) (self.nq s + self.nu s) v1)
              (self.setattr self.a_y_dotk y
                 (self.setattr self.a_yk y1
                    (self.setattr self.a_vk v1 s)))
       /\ (length y = self.ny s ->
           length (self.y_dotk s) = self.ny s ->
           length (self.vk s) = self.ny s ->
           length (self.yk s) = self.ny s ->
           v1 = Trial.vk1 (self.alpha_f s) (self.alpha_m s)
                  (self.y_dotk s) (self.vk s) y
           /\ y1 = Trial.yk1 (self.dt s) (self.gamma s) (self.yk s)
                     (self.vk s) v1))
  /\
  (forall (s : GenAlphaFirstOrderVelocityGGL.Solver) (x : vec), snd (GenAlphaFirstOrderVelocityGGL.update x false s) = s)
  /\
  (forall (s : GenAlphaFirstOrderVelocityGGL.Solver) (x : vec) r s',
     GenAlphaFirstOrderVelocityGGL.update x true s = (Ok r, s') ->
     exists v1 y1 : vec,
       s' = GenAlphaFirstOrderVelocityGGL.self.setattr GenAlphaFirstOrderVelocityGGL.self.a_y_dotk (firstn (GenAlphaFirstOrderVelocityGGL.self.ny s) x)
              (GenAlphaFirstOrderVelocityGGL.self.setattr GenAlphaFirstOrderVelocityGGL.self.a_yk y1
                 (GenAlphaFirstOrderVelocityGGL.self.setattr GenAlphaFirstOrderVelocityGGL.self.a_vk v1 s))
       /\ ((GenAlphaFirstOrderVelocityGGL.self.ny s <= length x)%nat ->
           length (GenAlphaFirstOrderVelocityGGL.self.y_dotk s) = GenAlphaFirstOrderVelocityGGL.self.ny s ->
           length (GenAlphaFirstOrderVelocityGGL.self.vk s) = GenAlphaFirstOrderVelocityGGL.self.ny s ->
           length (GenAlphaFirstOrderVelocityGGL.self.yk s) = GenAlphaFirstOrderVelocityGGL.self.ny s ->
           v1 = Trial.vk1 (GenAlphaFirstOrderVelocityGGL.self.alpha_f s) (GenAlphaFirstOrderVelocityGGL.self.alpha_m s)
                  (GenAlphaFirstOrderVelocityGGL.self.y_dotk s) (GenAlphaFirstOrderVelocityGGL.self.vk s) (firstn (GenAlphaFirstOrderVelocityGGL.self.ny s) x)
           /\ y1 = Trial.yk1 (GenAlphaFirstOrderVelocityGGL.self.dt s) (GenAlphaFirstOrderVelocityGGL.self.gamma s) (GenAlphaFirstOrderVelocityGGL.self.yk s)
                     (GenAlphaFirstOrderVelocityGGL.self.vk s) v1)).
Proof.
  repeat apply conj.
  - intros s y; apply update_no_store.
  - intros s y r s' H.
    destruct (update_store y s) as [(e & He) | (r' & v1 & y1 & Hr)];
      [congruence|].
    rewrite Hr in H; injection H as <- <-.
    exists v1, y1; split; [reflexivity|].
    intros Hy H1 H2 H3.
    pose proof (@update_run y true s) as Hrun; cbv zeta in Hrun.
    rewrite Hrun in Hr by congruence; clear Hrun.
    injection Hr; intros; subst; split; reflexivity.
  - intros s x; apply GGL_update_no_store.
  - intros s x r s' H.
    destruct (GGL_update_store x s) as [(e & He) | (r' & v1 & y1 & Hr)];
      [congruence|].
    rewrite Hr in H; injection H as <- <-.
    rewrite <- slice_0.
    exists v1, y1; split; [reflexivity|].
    intros Hx H1 H2 H3.
    assert (Hy : length (slice 0 (GenAlphaFirstOrderVelocityGGL.self.ny s) x) = GenAlphaFirstOrderVelocityGGL.self.ny s) by len.
    pose proof (@GGL_update_run x true s) as Hrun; cbv zeta in Hrun.
    rewrite Hrun in Hr by congruence; clear Hrun.
    injection Hr; intros; subst; split; reflexivity.
Qed.

Lemma update_store_frame_witness :
  exists v1 y1 : vec,
    snd (update [0; -(10)] true (Ball.solver (T1_float 1) 0 2)) =
    self.setattr self.a_uk (slice 1 2 v1)
      (self.setattr self.a_y_dotk [0; -(10)]
         (self.setattr self.a_yk y1
            (self.setattr self.a_vk v1
               (Ball.solver (T1_float 1) 0 2)))).
Proof.
  edestruct (proj1 (proj2 update_store_frame)
               (Ball.solver (T1_float 1) 0 2) [0; -(10)])
    as (v1 & y1 & Hs & _).
  - vm_compute; reflexivity.
  - exists v1, y1. exact Hs.
Defined.

(** * Packing and unpacking the unknown vector *)

Section Packing.

Local Open Scope nat_scope.

Lemma skipn_repeat {A} (a : A) k n : skipn k (repeat a n) = repeat a (n - k).
Proof.
  revert n; induction k as [|k IH]; intros [|n]; simpl; auto.
Qed.

Lemma set_slice_zeros (p v : vec) a b n :
  a = length p -> b = a + length v -> length v <= n ->
  set_slice a b v (p ++ zeros n) = Ok ((p ++ v) ++ zeros (n - length v)).
Proof.
  intros -> -> Hn.
  rewrite set_slice_ok by len.
  rewrite firstn_app, firstn_all, Nat.sub_diag, firstn_O, app_nil_r.
  rewrite skipn_app, skipn_all2 by lia.
  replace (length p + length v - length p) with (length v) by lia.
  unfold zeros. rewrite skipn_repeat.
  now rewrite <- app_assoc.
Qed.

Lemma slice_mid {A} (p v r x : list A) a b :
  x = p ++ v ++ r -> a = length p -> b = a + length v -> slice a b x = v.
Proof.
  intros -> -> ->; unfold slice.
  rewrite skipn_app, skipn_all, Nat.sub_diag, skipn_O.
  replace (length p + length v - length p) with (length v) by lia.
  cbn [app].
  rewrite firstn_app, Nat.sub_diag, firstn_O, app_nil_r.
  apply firstn_all.
Qed.

Lemma firstn_plus {A} (l : list A) m n :
  firstn (m + n) l = firstn m l ++ firstn n (skipn m l).
Proof.
  revert l; induction m as [|m IH]; intros [|a l]; simpl; auto.
  - now rewrite firstn_nil.
  - now rewrite IH.
Qed.

Lemma slice_split {A} (x : list A) a b c :
  a <= b -> b <= c -> slice a b x ++ slice b c x = slice a c x.
Proof.
  intros Hab Hbc; unfold slice.
  replace (c - a) with ((b - a) + (c - b)) by lia.
  rewrite firstn_plus, skipn_skipn.
  now replace (b - a + a) with b by lia.
Qed.

Lemma slice_all {A} (x : list A) n : length x = n -> slice 0 n x = x.
Proof. intros <-; unfold slice; rewrite Nat.sub_0_r; apply firstn_all. Qed.

(** [pack] writes its nine arguments side by side. *)
Lemma pack_arrays_concat (q u kg Lg lg lga kN LN lN : vec)
    nq nu nla_g nla_gamma nla_N nx :
  nx = nq + nu + 3 * nla_g + nla_gamma + 3 * nla_N ->
  length q = nq -> length u = nu ->
  length kg = nla_g -> length Lg = nla_g -> length lg = nla_g ->
  length lga = nla_gamma ->
  length kN = nla_N -> length LN = nla_N -> length lN = nla_N ->
  pack_arrays nq nu nla_g nla_gamma nla_N nx q u kg Lg lg lga kN LN lN =
  Ok (q ++ u ++ kg ++ Lg ++ lg ++ lga ++ kN ++ LN ++ lN).
Proof.
  intros Hnx Hq Hu Hkg HLg Hlg Hlga HkN HLN HlN.
  unfold pack_arrays.
  change (zeros nx) with ([] ++ zeros nx).
  repeat (rewrite set_slice_zeros by len; cbn [rbind]).
  replace (nx - _ - _ - _ - _ - _ - _ - _ - _ - _) with 0 by len.
  unfold zeros; cbn [repeat app].
  now rewrite app_nil_r, <- !app_assoc.
Qed.

Lemma unpack_slices (x : vec) (s : Solver) :
  unpack x s =
  (Ok (slice 0 (self.nq s) x,
       slice (self.nq s) (self.nq s + self.nu s) x,
       slice (self.nq s + self.nu s)
             (self.nq s + self.nu s + self.nla_g s) x,
       slice (self.nq s + self.nu s + self.nla_g s)
             (self.nq s + self.nu s + 2 * self.nla_g s) x,
       slice (self.nq s + self.nu s + 2 * self.nla_g s)
             (self.nq s + self.nu s + 3 * self.nla_g s) x,
       slice (self.nq s + self.nu s + 3 * self.nla_g s)
             (self.nq s + self.nu s + 3 * self.nla_g s
              + self.nla_gamma s) x,
       slice (Trial.nR_smooth s) (Trial.nR_smooth s + self.nla_N s) x,
       slice (Trial.nR_smooth s + self.nla_N s)
             (Trial.nR_smooth s + 2 * self.nla_N s) x,
       slice (Trial.nR_smooth s + 2 * self.nla_N s)
             (Trial.nR_smooth s + 3 * self.nla_N s) x), s).
Proof. reflexivity. Qed.

End Packing.

(** C7.  For arrays of the solver's configured dimensions, [pack] returns a
    flat vector of [nx] entries from which [unpack] returns exactly the
    nine arrays; and every flat vector of [nx] entries is the [pack] of
    what [unpack] returns for it.  Neither method changes the solver. *)
Theorem pack_unpack_roundtrip (s : Solver) :
  self.nx s =
    (self.nq s + self.nu s + 3 * self.nla_g s + self.nla_gamma s
     + 3 * self.nla_N s)%nat ->
  (forall q_dot u_dot kappa_g La_g la_g la_gamma kappa_N La_N la_N : vec,
     length q_dot = self.nq s -> length u_dot = self.nu s ->
     length kappa_g = self.nla_g s -> length La_g = self.nla_g s ->
     length la_g = self.nla_g s -> length la_gamma = self.nla_gamma s ->
     length kappa_N = self.nla_N s -> length La_N = self.nla_N s ->
     length la_N = self.nla_N s ->
     exists x : vec,
       pack q_dot u_dot kappa_g La_g la_g la_gamma kappa_N La_N la_N s
         = (Ok x, s)
       /\ length x = self.nx s
       /\ unpack x s =
          (Ok (q_dot, u_dot, kappa_g, La_g, la_g, la_gamma,
               kappa_N, La_N, la_N), s))
  /\
  (forall x : vec,
     length x = self.nx s ->
     exists q_dot u_dot kappa_g La_g la_g la_gamma kappa_N La_N la_N : vec,
       unpack x s =
         (Ok (q_dot, u_dot, kappa_g, La_g, la_g, la_gamma,
              kappa_N, La_N, la_N), s)
       /\ pack q_dot u_dot kappa_g La_g la_g la_gamma kappa_N La_N la_N s
          = (Ok x, s)).
Proof.
  intros Hnx; split.
  - intros q u kg Lg lg lga kN LN lN Hq Hu Hkg HLg Hlg Hlga HkN HLN HlN.
    exists (q ++ u ++ kg ++ Lg ++ lg ++ lga ++ kN ++ LN ++ lN).
    unfold pack, bind, gets, lift.
    rewrite pack_arrays_concat by assumption.
    split; [reflexivity|]. split; [len|].
    rewrite unpack_slices. unfold Trial.nR_smooth.
    repeat f_equal.
    + apply (@slice_mid _ [] q (u ++ kg ++ Lg ++ lg ++ lga ++ kN ++ LN ++ lN));
        [reflexivity | reflexivity | simpl; lia].
    + apply (@slice_mid _ q u (kg ++ Lg ++ lg ++ lga ++ kN ++ LN ++ lN));
        [reflexivity | len | len].
    + apply (@slice_mid _ (q ++ u) kg (Lg ++ lg ++ lga ++ kN ++ LN ++ lN));
        [now rewrite <- !app_assoc | len | len].
    + apply (@slice_mid _ (q ++ u ++ kg) Lg (lg ++ lga ++ kN ++ LN ++ lN));
        [now rewrite <- !app_assoc | len | len].
    + apply (@slice_mid _ (q ++ u ++ kg ++ Lg) lg (lga ++ kN ++ LN ++ lN));
        [now rewrite <- !app_assoc | len | len].
    + apply (@slice_mid _ (q ++ u ++ kg ++ Lg ++ lg) lga (kN ++ LN ++ lN));
        [now rewrite <- !app_assoc | len | len].
    + apply (@slice_mid _ (q ++ u ++ kg ++ Lg ++ lg ++ lga) kN (LN ++ lN));
        [now rewrite <- !app_assoc | len | len].
    + apply (@slice_mid _ (q ++ u ++ kg ++ Lg ++ lg ++ lga ++ kN) LN lN);
        [now rewrite <- !app_assoc | len | len].
    + apply (@slice_mid _ (q ++ u ++ kg ++ Lg ++ lg ++ lga ++ kN ++ LN) lN []);
        [now rewrite <- !app_assoc, app_nil_r | len | len].
  - intros x Hx.
    do 9 eexists. rewrite unpack_slices. split; [reflexivity|].
    unfold pack, bind, gets, lift.
    rewrite pack_arrays_concat; try assumption; try (unfold Trial.nR_smooth; len).
    unfold Trial.nR_smooth.
    rewrite !slice_split by lia.
    rewrite slice_all by lia. reflexivity.
Qed.

Lemma pack_unpack_roundtrip_witness :
  exists x : vec,
    pack [1] [2] [] [] [] [] [3] [4] [5] (Ball.solver (T1_float 1) 0 2)
      = (Ok x, Ball.solver (T1_float 1) 0 2)
    /\ length x = self.nx (Ball.solver (T1_float 1) 0 2)
    /\ unpack x (Ball.solver (T1_float 1) 0 2) =
       (Ok ([1], [2], [], [], [], [], [3], [4], [5]),
        Ball.solver (T1_float 1) 0 2).
Proof.
  apply (proj1 (@pack_unpack_roundtrip (Ball.solver (T1_float 1) 0 2)
                  eq_refl));
    reflexivity.
Defined.

(** * The residual of the contact solver *)

(** Running a method body statement by statement. *)
Lemma bind_gets {S A B} (f : S -> A) (k : A -> Prog S B) st :
  bind (gets f) k st = k (f st) st.
Proof. reflexivity. Qed.

Lemma bind_modify {S B} (f : S -> S) (k : unit -> Prog S B) st :
  bind (modify f) k st = k tt (f st).
Proof. reflexivity. Qed.

Lemma bind_ret {S A B} (a : A) (k : A -> Prog S B) st :
  bind (ret a) k st = k a st.
Proof. reflexivity. Qed.

Lemma bind_assoc {S A B C} (m : Prog S A) (f : A -> Prog S B)
    (g : B -> Prog S C) st :
  bind (bind m f) g st = bind m (fun x => bind (f x) g) st.
Proof. unfold bind; destruct (m st) as [[a|e] st']; reflexivity. Qed.

Lemma bind_lift_ok {S A B} (r : Result A) (a : A) (k : A -> Prog S B) st :
  r = Ok a -> bind (lift r) k st = k a st.
Proof. intros ->; reflexivity. Qed.

Lemma bind_getattr {S A B} name (f : S -> option A) (a : A)
    (k : A -> Prog S B) st :
  f st = Some a -> bind (getattr name f) k st = k a st.
Proof. intros H; unfold bind, getattr; now rewrite H. Qed.

Section Residual.

Local Open Scope nat_scope.

Variable model : Model.t.
Hypothesis Hmodel : Trial.model_shapes model.
Variable s : Solver.
Hypothesis Hstate : Trial.state_shapes model s.
Variable tk1 : Q.
Variable xk1 : vec.
Hypothesis Hx : length xk1 = self.nx s.

Lemma matvec_ok (A : mat) (v : vec) :
  ncols A = length v -> matvec A v = Ok (Trial.matvec A v).
Proof. intros H; unfold matvec; now rewrite H, Nat.eqb_refl. Qed.

Lemma length_matvec (A : mat) (v : vec) :
  length (Trial.matvec A v) = length (rows A).
Proof. apply length_map. Qed.

Lemma setattr_nR_smooth_id (s' : Solver) n :
  self.nR_smooth s' = Some n ->
  self.setattr self.a_nR_smooth n s' = s'.
Proof. destruct s'; simpl; intros ->; reflexivity. Qed.

(** Lengths of what the model returns. *)
Lemma ncols_M t q : ncols (Model.M model t q) = Model.nu model.
Proof. apply (Trial.shape_M Hmodel). Qed.
Lemma nrows_M t q : length (rows (Model.M model t q)) = Model.nu model.
Proof. apply (Trial.shape_M Hmodel). Qed.
Lemma ncols_W_g t q : ncols (Model.W_g model t q) = Model.nla_g model.
Proof. apply (Trial.shape_W_g Hmodel). Qed.
Lemma nrows_W_g t q : length (rows (Model.W_g model t q)) = Model.nu model.
Proof. apply (Trial.shape_W_g Hmodel). Qed.
Lemma ncols_W_gamma t q :
  ncols (Model.W_gamma model t q) = Model.nla_gamma model.
Proof. apply (Trial.shape_W_gamma Hmodel). Qed.
Lemma nrows_W_gamma t q :
  length (rows (Model.W_gamma model t q)) = Model.nu model.
Proof. apply (Trial.shape_W_gamma Hmodel). Qed.
Lemma ncols_W_N t q : ncols (Model.W_N model t q) = Model.nla_N model.
Proof. apply (Trial.shape_W_N Hmodel). Qed.
Lemma nrows_W_N t q : length (rows (Model.W_N model t q)) = Model.nu model.
Proof. apply (Trial.shape_W_N Hmodel). Qed.

Ltac mlen :=
  rewrite ?length_matvec,
    ?(Trial.shape_q_dot Hmodel), ?(Trial.shape_h Hmodel),
    ?(Trial.shape_g Hmodel), ?(Trial.shape_g_dot Hmodel),
    ?(Trial.shape_g_ddot Hmodel), ?(Trial.shape_gamma Hmodel),
    ?(Trial.shape_g_N Hmodel), ?(Trial.shape_xi_N Hmodel),
    ?(Trial.shape_g_N_ddot Hmodel), ?(Trial.shape_prox_r_N Hmodel),
    ?ncols_M, ?nrows_M, ?ncols_W_g, ?nrows_W_g, ?ncols_W_gamma,
    ?nrows_W_gamma, ?ncols_W_N, ?nrows_W_N.

(** One statement of a method body whose arrays have the configured
    shapes. *)
Ltac array_op :=
  first [ apply add_ok | apply sub_ok | apply mul_ok | apply band_ok
        | apply matvec_ok | apply set_slice_zeros | apply bool_index_ok
        | apply set_index_mask_ok ].


Ltac pstep side :=
  first [ rewrite bind_assoc
        | rewrite bind_gets
        | rewrite bind_modify
        | rewrite bind_ret
        | erewrite bind_getattr by (first [reflexivity | eassumption])
        | erewrite bind_lift_ok by (array_op; side) ];
  cbv beta.


(** The shapes of the trial quantities. *)
Create Rewrite HintDb tlen.

Ltac shapes :=
  destruct Hstate; unfold Trial.vk1, Trial.yk1, Trial.nR_smooth;
  autorewrite with len tlen; mlen; lia.

Lemma len_y_dotk1 : length (Trial.y_dotk1 s xk1) = self.ny s.
Proof. unfold Trial.y_dotk1; shapes. Qed.
#[local] Hint Rewrite len_y_dotk1 : tlen.

Lemma len_kappa_gk1 : length (Trial.kappa_gk1 s xk1) = self.nla_g s.
Proof. unfold Trial.kappa_gk1; shapes. Qed.
#[local] Hint Rewrite len_kappa_gk1 : tlen.

Lemma len_la_gk1 : length (Trial.la_gk1 s xk1) = self.nla_g s.
Proof. unfold Trial.la_gk1; shapes. Qed.
#[local] Hint Rewrite len_la_gk1 : tlen.

Lemma len_la_gammak1 : length (Trial.la_gammak1 s xk1) = self.nla_gamma s.
Proof. unfold Trial.la_gammak1; shapes. Qed.
#[local] Hint Rewrite len_la_gammak1 : tlen.

Lemma len_kappa_Nk1 : length (Trial.kappa_Nk1 s xk1) = self.nla_N s.
Proof. unfold Trial.kappa_Nk1; shapes. Qed.
#[local] Hint Rewrite len_kappa_Nk1 : tlen.

Lemma len_La_Nk1 : length (Trial.La_Nk1 s xk1) = self.nla_N s.
Proof. unfold Trial.La_Nk1; shapes. Qed.
#[local] Hint Rewrite len_La_Nk1 : tlen.

Lemma len_la_Nk1 : length (Trial.la_Nk1 s xk1) = self.nla_N s.
Proof. unfold Trial.la_Nk1; shapes. Qed.
#[local] Hint Rewrite len_la_Nk1 : tlen.

Lemma len_v1 : length (Trial.v1 s xk1) = self.ny s.
Proof. unfold Trial.v1; shapes. Qed.
#[local] Hint Rewrite len_v1 : tlen.

Lemma len_y1 : length (Trial.y1 s xk1) = self.ny s.
Proof. unfold Trial.y1; shapes. Qed.
#[local] Hint Rewrite len_y1 : tlen.

Lemma len_qk1 : length (Trial.qk1 s xk1) = self.nq s.
Proof. unfold Trial.qk1; shapes. Qed.
#[local] Hint Rewrite len_qk1 : tlen.

Lemma len_uk1 : length (Trial.uk1 s xk1) = self.nu s.
Proof. unfold Trial.uk1; shapes. Qed.
#[local] Hint Rewrite len_uk1 : tlen.

Lemma len_q_dotk1 : length (Trial.q_dotk1 s xk1) = self.nq s.
Proof. unfold Trial.q_dotk1; shapes. Qed.
#[local] Hint Rewrite len_q_dotk1 : tlen.

Lemma len_u_dotk1 : length (Trial.u_dotk1 s xk1) = self.nu s.
Proof. unfold Trial.u_dotk1; shapes. Qed.
#[local] Hint Rewrite len_u_dotk1 : tlen.

Lemma len_la_Nbark1 : length (Trial.la_Nbark1 s xk1) = self.nla_N s.
Proof. unfold Trial.la_Nbark1; shapes. Qed.
#[local] Hint Rewrite len_la_Nbark1 : tlen.

Lemma len_P_N : length (Trial.P_N s xk1) = self.nla_N s.
Proof. unfold Trial.P_N; shapes. Qed.
#[local] Hint Rewrite len_P_N : tlen.

Lemma len_kappa_hat_N : length (Trial.kappa_hat_N s xk1) = self.nla_N s.
Proof. unfold Trial.kappa_hat_N; shapes. Qed.
#[local] Hint Rewrite len_kappa_hat_N : tlen.

Lemma len_g_N : length (Trial.g_N model s tk1 xk1) = self.nla_N s.
Proof. unfold Trial.g_N; shapes. Qed.
#[local] Hint Rewrite len_g_N : tlen.

Lemma len_xi_N : length (Trial.xi_N model s tk1 xk1) = self.nla_N s.
Proof. unfold Trial.xi_N; shapes. Qed.
#[local] Hint Rewrite len_xi_N : tlen.

Lemma len_g_N_ddot : length (Trial.g_N_ddot model s tk1 xk1) = self.nla_N s.
Proof. unfold Trial.g_N_ddot; shapes. Qed.
#[local] Hint Rewrite len_g_N_ddot : tlen.

Lemma len_A : length (Trial.A model s tk1 xk1) = self.nla_N s.
Proof. unfold Trial.A; shapes. Qed.
#[local] Hint Rewrite len_A : tlen.

Lemma len_B : length (Trial.B model s tk1 xk1) = self.nla_N s.
Proof. unfold Trial.B; shapes. Qed.
#[local] Hint Rewrite len_B : tlen.

Lemma len_C : length (Trial.C model s tk1 xk1) = self.nla_N s.
Proof. unfold Trial.C; shapes. Qed.
#[local] Hint Rewrite len_C : tlen.

Lemma len_kinematic_rows : length (Trial.kinematic_rows model s tk1 xk1) = self.nq s.
Proof. unfold Trial.kinematic_rows; shapes. Qed.
#[local] Hint Rewrite len_kinematic_rows : tlen.

Lemma len_dynamic_rows : length (Trial.dynamic_rows model s tk1 xk1) = self.nu s.
Proof. unfold Trial.dynamic_rows; shapes. Qed.
#[local] Hint Rewrite len_dynamic_rows : tlen.

Lemma len_smooth_rows : length (Trial.smooth_rows model s tk1 xk1) = Trial.nR_smooth s.
Proof. unfold Trial.smooth_rows; shapes. Qed.
#[local] Hint Rewrite len_smooth_rows : tlen.

Ltac tfold :=
  fold (Trial.la_gammak1 s xk1); fold (Trial.nR_smooth s);
  fold (Trial.y_dotk1 s xk1); fold (Trial.kappa_gk1 s xk1);
  fold (Trial.la_gk1 s xk1);
  fold (Trial.kappa_Nk1 s xk1); fold (Trial.La_Nk1 s xk1);
  fold (Trial.la_Nk1 s xk1); fold (Trial.v1 s xk1); fold (Trial.y1 s xk1);
  fold (Trial.qk1 s xk1); fold (Trial.uk1 s xk1);
  fold (Trial.q_dotk1 s xk1); fold (Trial.u_dotk1 s xk1);
  fold (Trial.la_Nbark1 s xk1); fold (Trial.P_N s xk1);
  fold (Trial.kappa_hat_N s xk1);
  fold (Trial.g_N model s tk1 xk1); fold (Trial.xi_N model s tk1 xk1);
  fold (Trial.g_N_ddot model s tk1 xk1);
  fold (Trial.A model s tk1 xk1); fold (Trial.B model s tk1 xk1);
  fold (Trial.C model s tk1 xk1);
  fold (Trial.kinematic_rows model s tk1 xk1);
  fold (Trial.dynamic_rows model s tk1 xk1).

Ltac side :=
  cbn [length]; autorewrite with len tlen; mlen; cbn [length];
  unfold Trial.nR_smooth in *; lia.

Ltac run := repeat (tfold; pstep side).

Lemma R_run (upd : bool) (A B C : mask) :
  (if upd
   then A = Trial.A model s tk1 xk1 /\ B = Trial.B model s tk1 xk1
        /\ C = Trial.C model s tk1 xk1
   else Trial.frozen s A B C) ->
  R model tk1 xk1 upd s =
  (Ok (Trial.residual model s tk1 xk1 A B C),
   if upd then Trial.with_index_sets model s tk1 xk1 else s).
Proof.
  intros Hmasks.
  pose proof Hstate as
    [Hnq Hnu Hnlag Hnlagam HnlaN Hny Hnx Hsq Hyk Hydk Hvk HlaN HlaNb].
  unfold R.
  do 7 rewrite bind_gets; cbv beta.
  unfold bind at 1. rewrite unpack_slices.
  unfold bind at 1.
  pose proof (@update_run (slice 0 (self.ny s) xk1) false s) as Hup;
    cbv zeta in Hup.
  rewrite Hup by len. clear Hup.
  cbv zeta.
  change (Trial.vk1 (self.alpha_f s) (self.alpha_m s) (self.y_dotk s)
            (self.vk s) (slice 0 (self.ny s) xk1)) with (Trial.v1 s xk1).
  change (Trial.yk1 (self.dt s) (self.gamma s) (self.yk s) (self.vk s)
            (Trial.v1 s xk1)) with (Trial.y1 s xk1).
  run.
  change (zeros (self.nx s)) with ([] ++ zeros (self.nx s)).
  run.
  match goal with
  | |- context [?p ++ zeros ?n] =>
      replace n with (3 * self.nla_N s) by side;
      replace (p ++ zeros (3 * self.nla_N s))
        with (Trial.smooth_rows model s tk1 xk1 ++ zeros (3 * self.nla_N s))
        by (unfold Trial.smooth_rows; cbn [app]; now rewrite <- !app_assoc)
  end.
  destruct upd.
  - destruct Hmasks as (-> & -> & ->).
    run.
    reflexivity.
  - destruct Hmasks as (HA & HB & HC & HnR & HlA & HlB & HlC).
    rewrite bind_ret, setattr_nR_smooth_id by assumption.
    run.
    reflexivity.
Qed.

(** Before the index sets have been computed once, [R] with
    [update_index_set=False] assembles the smooth rows, assigns
    [nR_smooth] and then fails to read [self.Ai1]. *)
Lemma R_without_index_sets :
  self.Ai1 s = None ->
  R model tk1 xk1 false s =
  (Raise (AttributeError "Ai1"),
   self.setattr self.a_nR_smooth (Trial.nR_smooth s) s).
Proof.
  intros HA.
  pose proof Hstate as
    [Hnq Hnu Hnlag Hnlagam HnlaN Hny Hnx Hsq Hyk Hydk Hvk HlaN HlaNb].
  unfold R.
  do 7 rewrite bind_gets; cbv beta.
  unfold bind at 1. rewrite unpack_slices.
  unfold bind at 1.
  pose proof (@update_run (slice 0 (self.ny s) xk1) false s) as Hup;
    cbv zeta in Hup.
  rewrite Hup by len. clear Hup.
  cbv zeta.
  change (Trial.vk1 (self.alpha_f s) (self.alpha_m s) (self.y_dotk s)
            (self.vk s) (slice 0 (self.ny s) xk1)) with (Trial.v1 s xk1).
  change (Trial.yk1 (self.dt s) (self.gamma s) (self.yk s) (self.vk s)
            (Trial.v1 s xk1)) with (Trial.y1 s xk1).
  run.
  change (zeros (self.nx s)) with ([] ++ zeros (self.nx s)).
  run.
  unfold bind at 1, getattr at 1.
  cbn [self.Ai1 self.setattr]. rewrite HA.
  reflexivity.
Qed.

Lemma nth_write_pair_in (v w x : vec) m base i d :
  length v = length m -> length w = length m ->
  base + length m <= length x -> i < length m ->
  nth (base + i) (write_pair base m v w x) d =
  if nth i m false then nth i v d else nth i w d.
Proof.
  intros Hv Hw Hb Hi. rewrite nth_write_pair by assumption.
  replace (base <=? base + i) with true by (symmetry; apply Nat.leb_le; lia).
  replace (base + i <? base + length m) with true
    by (symmetry; apply Nat.ltb_lt; lia).
  now replace (base + i - base) with i by lia.
Qed.

Lemma nth_write_pair_below (v w x : vec) m base j d :
  length v = length m -> length w = length m ->
  base + length m <= length x -> j < base ->
  nth j (write_pair base m v w x) d = nth j x d.
Proof.
  intros Hv Hw Hb Hj. rewrite nth_write_pair by assumption.
  now replace (base <=? j) with false by (symmetry; apply Nat.leb_gt; lia).
Qed.

(** The contact rows of the closed-form residual. *)
Lemma residual_rows (A B C : mask) i :
  length A = self.nla_N s -> length B = self.nla_N s ->
  length C = self.nla_N s -> i < self.nla_N s ->
  length (Trial.residual model s tk1 xk1 A B C) = self.nx s
  /\ nth (Trial.nR_smooth s + i) (Trial.residual model s tk1 xk1 A B C) 0%Q
     = (if nth i A false then nth i (Trial.g_N model s tk1 xk1) 0%Q
        else nth i (Trial.kappa_hat_N s xk1) 0%Q)
  /\ nth (Trial.nR_smooth s + self.nla_N s + i)
         (Trial.residual model s tk1 xk1 A B C) 0%Q
     = (if nth i A false && nth i B false
        then nth i (Trial.xi_N model s tk1 xk1) 0%Q
        else nth i (Trial.P_N s xk1) 0%Q)
  /\ nth (Trial.nR_smooth s + 2 * self.nla_N s + i)
         (Trial.residual model s tk1 xk1 A B C) 0%Q
     = (if nth i A false && nth i B false && nth i C false
        then nth i (Trial.g_N_ddot model s tk1 xk1) 0%Q
        else nth i (Trial.la_Nk1 s xk1) 0%Q).
Proof.
  intros HA HB HC Hi.
  pose proof Hstate as
    [Hnq Hnu Hnlag Hnlagam HnlaN Hny Hnx Hsq Hyk Hydk Hvk HlaN HlaNb].
  unfold Trial.residual; cbv zeta.
  set (x0 := Trial.smooth_rows model s tk1 xk1 ++ zeros (3 * self.nla_N s)).
  assert (Hx0 : length x0 = self.nx s) by (subst x0; side).
  set (AB := zip_with andb A B).
  set (ABC := zip_with andb AB C).
  assert (HAB : length AB = self.nla_N s) by (subst AB; side).
  assert (HABC : length ABC = self.nla_N s) by (subst ABC AB; side).
  set (x1 := write_pair (Trial.nR_smooth s) A _ _ x0).
  assert (Hx1 : length x1 = self.nx s)
    by (subst x1; now rewrite length_write_pair).
  set (x2 := write_pair (Trial.nR_smooth s + self.nla_N s) AB _ _ x1).
  assert (Hx2 : length x2 = self.nx s)
    by (subst x2; now rewrite length_write_pair).
  repeat apply conj.
  - now rewrite length_write_pair.
  - rewrite nth_write_pair_below by side.
    subst x2. rewrite nth_write_pair_below by side.
    subst x1. rewrite nth_write_pair_in by side. reflexivity.
  - rewrite nth_write_pair_below by side.
    subst x2. rewrite nth_write_pair_in by side.
    subst AB. now rewrite nth_zip_with_andb.
  - rewrite nth_write_pair_in by side.
    subst ABC AB. now rewrite !nth_zip_with_andb.
Qed.

End Residual.

(** When [nR_smooth] holds its value already, [R] with
    [update_index_set=False] assigns nothing else: the object is as it
    was, whichever way the call ends. *)
Lemma R_frozen_state (model : Model.t) (s : Solver) (tk1 : Q) (xk1 : vec) :
  self.nR_smooth s = Some (Trial.nR_smooth s) ->
  snd (R model tk1 xk1 false s) = s.
Proof.
  intros HnR.
  pose proof (@setattr_nR_smooth_id s _ HnR) as Hid.
  unfold Trial.nR_smooth in Hid.
  unfold R, unpack.
  repeat first [ rewrite bind_assoc | rewrite bind_gets | rewrite bind_ret ].
  cbv beta iota zeta.
  unfold bind at 1.
  pose proof (@update_no_store (Np.slice 0 (self.ny s) xk1) s) as Hu.
  destruct (update (Np.slice 0 (self.ny s) xk1) false s)
    as [[[[[qk1 uk1] q_dotk1] u_dotk1]|e] s'];
    cbn [snd] in Hu; subst s'; [|reflexivity].
  repeat first
    [ rewrite bind_gets
    | rewrite bind_ret
    | rewrite bind_modify, Hid
    | match goal with
      | |- snd (bind (lift ?r) _ _) = _ =>
          destruct r; [erewrite bind_lift_ok by reflexivity | reflexivity]
      | |- snd (bind (getattr _ ?f) _ ?st) = _ =>
          unfold bind at 1, getattr at 1; destruct (f st); [|reflexivity]
      end ];
    cbv beta.
  reflexivity.
Qed.

(** Recomputing the index sets freezes them: after
    [R(..., update_index_set=True)] has returned, the object holds
    [nR_smooth] and three masks of [nla_N] entries. *)
Lemma R_update_freezes (model : Model.t) (s : Solver) (tk1 : Q) (xk1 : vec) :
  Trial.model_shapes model -> Trial.state_shapes model s ->
  length xk1 = self.nx s ->
  Trial.frozen (Trial.with_index_sets model s tk1 xk1)
    (Trial.A model s tk1 xk1) (Trial.B model s tk1 xk1)
    (Trial.C model s tk1 xk1).
Proof.
  intros Hm Hs Hx; unfold Trial.frozen, Trial.with_index_sets.
  cbn [self.Ai1 self.Bi1 self.Ci1 self.nR_smooth self.nla_N self.setattr].
  repeat apply conj; try reflexivity.
  - apply len_A; assumption.
  - apply len_B; assumption.
  - apply len_C; assumption.
Qed.

Lemma Ball_model_shapes : Trial.model_shapes Ball.model.
Proof. constructor; intros; try split; reflexivity. Qed.

Lemma Ball_state_shapes t1 max_iter DAE_index :
  Trial.state_shapes Ball.model (Ball.solver t1 max_iter DAE_index).
Proof. constructor; reflexivity. Qed.

(** In the residual of the contact solver, for every contact index
    [i], the row of the first contact level is the gap [g_N[i]] where the
    mask [A] holds and [kappa_hat_N[i]] elsewhere; the row of the second
    level is [xi_N[i]] where [A] and [B] hold and [P_N[i]] elsewhere; the
    row of the third level is [g_N_ddot[i]] where [A], [B] and [C] hold
    and [la_N[i]] elsewhere.  The masks are the attributes [Ai1], [Bi1],
    [Ci1] after the call: recomputed from the trial state when
    [update_index_set] is set, the stored ones otherwise. *)
Theorem contact_residual_rows (model : Model.t) (s : Solver) (tk1 : Q)
    (xk1 : vec) (update_index_set : bool) :
  Trial.model_shapes model -> Trial.state_shapes model s ->
  length xk1 = self.nx s ->
  (update_index_set = false -> exists A B C, Trial.frozen s A B C) ->
  exists (r : vec) (s' : Solver) (A B C : mask),
    R model tk1 xk1 update_index_set s = (Ok r, s')
    /\ self.Ai1 s' = Some A /\ self.Bi1 s' = Some B /\ self.Ci1 s' = Some C
    /\ length r = self.nx s
    /\ forall i, (i < self.nla_N s)%nat ->
         nth (Trial.nR_smooth s + i) r 0
         = (if nth i A false then nth i (Trial.g_N model s tk1 xk1) 0
            else nth i (Trial.kappa_hat_N s xk1) 0)
         /\ nth (Trial.nR_smooth s + self.nla_N s + i) r 0
            = (if nth i A false && nth i B false
               then nth i (Trial.xi_N model s tk1 xk1) 0
               else nth i (Trial.P_N s xk1) 0)
         /\ nth (Trial.nR_smooth s + 2 * self.nla_N s + i) r 0
            = (if nth i A false && nth i B false && nth i C false
               then nth i (Trial.g_N_ddot model s tk1 xk1) 0
               else nth i (Trial.la_Nk1 s xk1) 0).
Proof.
  intros Hm Hs Hx Hfrozen.
  destruct update_index_set.
  - exists (Trial.residual model s tk1 xk1 (Trial.A model s tk1 xk1)
              (Trial.B model s tk1 xk1) (Trial.C model s tk1 xk1)),
      (Trial.with_index_sets model s tk1 xk1),
      (Trial.A model s tk1 xk1), (Trial.B model s tk1 xk1),
      (Trial.C model s tk1 xk1).
    split; [apply (@R_run model Hm s Hs tk1 xk1 Hx true); auto|].
    do 3 (split; [reflexivity|]).
    assert (HA := @len_A model Hm s Hs tk1 xk1 Hx).
    assert (HB := @len_B model Hm s Hs tk1 xk1 Hx).
    assert (HC := @len_C model Hm s Hs tk1 xk1 Hx).
    split.
    + destruct (Nat.eq_dec (self.nla_N s) 0) as [H0|H0].
      * unfold Trial.residual; cbv zeta.
        rewrite !length_write_pair.
        pose proof (@len_smooth_rows model Hm s Hs tk1 xk1 Hx) as Hsm.
        destruct Hs. unfold Trial.nR_smooth in Hsm.
        rewrite length_app, length_zeros, Hsm. lia.
      * apply (@residual_rows model Hm s Hs tk1 xk1 Hx _ _ _ 0%nat HA HB HC).
        lia.
    + intros i Hi.
      apply (@residual_rows model Hm s Hs tk1 xk1 Hx _ _ _ i HA HB HC Hi).
  - destruct (Hfrozen eq_refl) as (A & B & C & HF).
    exists (Trial.residual model s tk1 xk1 A B C), s, A, B, C.
    split; [apply (@R_run model Hm s Hs tk1 xk1 Hx false); auto|].
    destruct HF as (HA & HB & HC & HnR & HlA & HlB & HlC).
    do 3 (split; [assumption|]).
    split.
    + destruct (Nat.eq_dec (self.nla_N s) 0) as [H0|H0].
      * unfold Trial.residual; cbv zeta.
        rewrite !length_write_pair.
        pose proof (@len_smooth_rows model Hm s Hs tk1 xk1 Hx) as Hsm.
        destruct Hs. unfold Trial.nR_smooth in Hsm.
        rewrite length_app, length_zeros, Hsm. lia.
      * apply (@residual_rows model Hm s Hs tk1 xk1 Hx _ _ _ 0%nat
                 HlA HlB HlC).
        lia.
    + intros i Hi.
      apply (@residual_rows model Hm s Hs tk1 xk1 Hx _ _ _ i HlA HlB HlC Hi).
Qed.

Lemma contact_residual_rows_witness :
  exists (r : vec) (s' : Solver) (A B C : mask),
    R Ball.model 0.1 [0; -(10); 0; 0; 0] true
      (Ball.solver (T1_float 1) 0 2) = (Ok r, s')
    /\ self.Ai1 s' = Some A
    /\ nth 2 r 0 =
       (if nth 0 A false
        then nth 0 (Trial.g_N Ball.model (Ball.solver (T1_float 1) 0 2)
                      0.1 [0; -(10); 0; 0; 0]) 0
        else nth 0 (Trial.kappa_hat_N (Ball.solver (T1_float 1) 0 2)
                      [0; -(10); 0; 0; 0]) 0).
Proof.
  destruct (@contact_residual_rows Ball.model (Ball.solver (T1_float 1) 0 2)
              0.1 [0; -(10); 0; 0; 0] true Ball_model_shapes
              (Ball_state_shapes (T1_float 1) 0 2) eq_refl)
    as (r & s' & A & B & C & HR & HA & HB & HC & Hl & Hrows).
  - discriminate.
  - exists r, s', A, B, C.
    split; [exact HR|]. split; [exact HA|].
    exact (proj1 (Hrows 0%nat (Nat.lt_0_succ 0))).
Defined.

(** Whenever [R] recomputes the index sets, as [step] asks it to in
    every Newton iteration, the three masks it stores are nested: at
    every contact index [C[i]] implies [B[i]] and [B[i]] implies
    [A[i]]. *)
Theorem index_sets_nested (model : Model.t) (s : Solver) (tk1 : Q)
    (xk1 : vec) :
  Trial.model_shapes model -> Trial.state_shapes model s ->
  length xk1 = self.nx s ->
  exists (r : vec) (s' : Solver) (A B C : mask),
    R model tk1 xk1 true s = (Ok r, s')
    /\ self.Ai1 s' = Some A /\ self.Bi1 s' = Some B /\ self.Ci1 s' = Some C
    /\ length A = self.nla_N s /\ length B = self.nla_N s
    /\ length C = self.nla_N s
    /\ forall i,
         (nth i C false = true -> nth i B false = true)
         /\ (nth i B false = true -> nth i A false = true).
Proof.
  intros Hm Hs Hx.
  exists (Trial.residual model s tk1 xk1 (Trial.A model s tk1 xk1)
            (Trial.B model s tk1 xk1) (Trial.C model s tk1 xk1)),
    (Trial.with_index_sets model s tk1 xk1),
    (Trial.A model s tk1 xk1), (Trial.B model s tk1 xk1),
    (Trial.C model s tk1 xk1).
  split; [apply (@R_run model Hm s Hs tk1 xk1 Hx true); auto|].
  do 3 (split; [reflexivity|]).
  split; [now apply len_A|]. split; [now apply len_B|].
  split; [now apply len_C|].
  intros i; split.
  - unfold Trial.C. rewrite nth_zip_with_andb.
    intros H; now apply andb_true_iff in H.
  - unfold Trial.B. rewrite nth_zip_with_andb.
    intros H; now apply andb_true_iff in H.
Qed.

Lemma index_sets_nested_witness :
  exists (r : vec) (s' : Solver) (A B C : mask),
    R Ball.model 0.1 [0; -(10); 0; 0; 0] true
      (Ball.solver (T1_float 1) 0 2) = (Ok r, s')
    /\ self.Ai1 s' = Some A /\ self.Bi1 s' = Some B /\ self.Ci1 s' = Some C
    /\ ((nth 0 C false = true -> nth 0 B false = true)
        /\ (nth 0 B false = true -> nth 0 A false = true)).
Proof.
  destruct (@index_sets_nested Ball.model (Ball.solver (T1_float 1) 0 2)
              0.1 [0; -(10); 0; 0; 0] Ball_model_shapes
              (Ball_state_shapes (T1_float 1) 0 2) eq_refl)
    as (r & s' & A & B & C & HR & HA & HB & HC & _ & _ & _ & Hn).
  exists r, s', A, B, C.
  repeat (split; [assumption|]). exact (Hn 0%nat).
Defined.

(** With frozen index sets, that is, in an object whose masks and
    [nR_smooth] an earlier evaluation has stored, two calls of [R] with
    the same time, the same unknown vector and [update_index_set=False]
    give the same result and leave every attribute of the solver as it
    was; for an unknown vector of [nx] entries that result is the
    residual vector assembled with the stored masks. *)
Theorem R_frozen_idempotent (model : Model.t) (s : Solver) (tk1 : Q)
    (xk1 : vec) (A B C : mask) :
  Trial.frozen s A B C ->
  fst (R model tk1 xk1 false (snd (R model tk1 xk1 false s)))
    = fst (R model tk1 xk1 false s)
  /\ snd (R model tk1 xk1 false s) = s
  /\ snd (R model tk1 xk1 false (snd (R model tk1 xk1 false s))) = s
  /\ (Trial.model_shapes model -> Trial.state_shapes model s ->
      length xk1 = self.nx s ->
      fst (R model tk1 xk1 false s) =
      Ok (Trial.residual model s tk1 xk1 A B C)).
Proof.
  intros HF.
  assert (Hs : snd (R model tk1 xk1 false s) = s)
    by (apply R_frozen_state; apply HF).
  rewrite !Hs. repeat apply conj; try reflexivity.
  intros Hm Hst Hx.
  now rewrite (@R_run model Hm s Hst tk1 xk1 Hx false A B C HF).
Qed.

Lemma R_frozen_idempotent_witness :
  snd (R Ball.model 0.2 [1; 2; 3; 4; 5] false
         (Trial.with_index_sets Ball.model (Ball.solver (T1_float 1) 0 2)
            0.1 [0; -(10); 0; 0; 0]))
  = Trial.with_index_sets Ball.model (Ball.solver (T1_float 1) 0 2)
      0.1 [0; -(10); 0; 0; 0].
Proof.
  apply (@R_frozen_idempotent Ball.model
           (Trial.with_index_sets Ball.model (Ball.solver (T1_float 1) 0 2)
              0.1 [0; -(10); 0; 0; 0])
           0.2 [1; 2; 3; 4; 5] _ _ _
           (@R_update_freezes Ball.model (Ball.solver (T1_float 1) 0 2)
              0.1 [0; -(10); 0; 0; 0] Ball_model_shapes
              (Ball_state_shapes (T1_float 1) 0 2) eq_refl)).
Defined.

(** * The constructors *)

Lemma rbind_Ok {A B} (r : Result A) (k : A -> Result B) (b : B) :
  rbind r k = Ok b -> exists a, r = Ok a /\ k a = Ok b.
Proof. destruct r as [a|e]; cbn; [eauto | discriminate]. Qed.

Lemma pydiv_Ok (a b q : Q) :
  pydiv a b = Ok q -> ~ (b == 0)%Q /\ q = (a / b)%Q.
Proof.
  unfold pydiv. destruct (Qeq_bool b 0) eqn:E; [discriminate|].
  intros [= <-]. split; [|reflexivity].
  intros H. apply Qeq_bool_iff in H. congruence.
Qed.

Lemma pydiv_zero (a b : Q) : (b == 0)%Q -> pydiv a b = Raise ZeroDivisionError.
Proof.
  intros H. unfold pydiv. apply Qeq_bool_iff in H. now rewrite H.
Qed.

Lemma pydiv_nonzero (a b : Q) : ~ (b == 0)%Q -> pydiv a b = Ok (a / b)%Q.
Proof.
  intros H. unfold pydiv. destruct (Qeq_bool b 0) eqn:E; [|reflexivity].
  apply Qeq_bool_iff in E. contradiction.
Qed.

(** Take a successful run of a constructor apart, statement by
    statement. *)
Ltac rinv H :=
  repeat match type of H with
         | rbind _ _ = Ok _ =>
             let a := fresh "a" in
             let Ha := fresh "Ha" in
             apply rbind_Ok in H; destruct H as (a & Ha & H)
         end.

Section Constructors.

Variable model : Model.t.
Variable spsolve : Np.mat -> vec -> Result vec.

Local Open Scope Q_scope.

Lemma init_parameters t1 dt rho_inf tol max_iter error_function
    numerical_jacobian DAE_index (s : Solver) :
  __init__ model spsolve t1 dt rho_inf tol max_iter error_function
    numerical_jacobian DAE_index = Ok s ->
  ~ rho_inf + 1.0 == 0
  /\ self.rho_inf s = rho_inf
  /\ self.dt s = dt
  /\ self.alpha_m s = (2.0 * rho_inf - 1.0) / (rho_inf + 1.0)
  /\ self.alpha_f s = rho_inf / (rho_inf + 1.0)
  /\ self.gamma s = 0.5 + self.alpha_f s - self.alpha_m s
  /\ self.beta s = 0.25 * ((self.gamma s + 0.5) ^ 2).
Proof.
  unfold __init__. intros H.
  apply rbind_Ok in H; destruct H as (? & _ & H).
  apply rbind_Ok in H; destruct H as (am & Ham & H).
  apply rbind_Ok in H; destruct H as (af & Haf & H).
  apply pydiv_Ok in Ham; destruct Ham as [Hnz ->].
  apply pydiv_Ok in Haf; destruct Haf as [_ ->].
  rinv H. injection H as <-. cbn.
  repeat apply conj; try reflexivity. exact Hnz.
Qed.

End Constructors.

Section Constructors2.

Variable model : Model.t.
Variable spsolve : Np.mat -> vec -> Result vec.
Variable approx_fprime : approx_fprime_t.

Local Open Scope Q_scope.

Ltac replay :=
  repeat match goal with
         | Ha : ?r = Ok _ |- context [rbind ?r _] =>
             rewrite Ha; cbn [rbind]
         end.

Lemma init_analytic_jacobian t1 dt rho_inf tol max_iter error_function
    DAE_index (s : Solver) :
  __init__ model spsolve t1 dt rho_inf tol max_iter error_function true
    DAE_index = Ok s ->
  __init__ model spsolve t1 dt rho_inf tol max_iter error_function false
    DAE_index
  = Raise (AttributeError
             "_GenAlphaFirstOrderVelocityGGLNormalContacts__R_gen_analytic").
Proof.
  unfold __init__. intros H. rinv H. replay.
  reflexivity.
Qed.

Lemma init_never_analytic t1 dt rho_inf tol max_iter error_function
    DAE_index (s : Solver) :
  __init__ model spsolve t1 dt rho_inf tol max_iter error_function false
    DAE_index <> Ok s.
Proof.
  unfold __init__. intros H. rinv H. discriminate.
Qed.

Lemma init_t1 t1 t1' dt rho_inf tol max_iter error_function
    numerical_jacobian DAE_index (s' : Solver) :
  __init__ model spsolve t1' dt rho_inf tol max_iter error_function
    numerical_jacobian DAE_index = Ok s' ->
  exists s,
    __init__ model spsolve t1 dt rho_inf tol max_iter error_function
      numerical_jacobian DAE_index = Ok s
    /\ self.t1 s = (if Qlt_bool (Model.t0 model) t1 then T1_float t1
                    else T1_exception
                           (ValueError
                              "t1 must be larger than initial time t0."))
    /\ self.tk s = self.tk s' /\ self.xk s = self.xk s'
    /\ self.yk s = self.yk s' /\ self.y_dotk s = self.y_dotk s'
    /\ self.vk s = self.vk s' /\ self.dt s = self.dt s'
    /\ self.t0 s = self.t0 s'.
Proof.
  unfold __init__. intros H. rinv H. replay.
  injection H as <-. eexists. split; [reflexivity|].
  cbn. repeat apply conj; reflexivity.
Qed.

End Constructors2.

(** * What the methods change *)

Section Preserves.

Context {S : Type} (P : S -> S -> Prop).
Hypothesis P_refl : forall s, P s s.
Hypothesis P_trans : forall s1 s2 s3, P s1 s2 -> P s2 s3 -> P s1 s3.

Lemma preserves_bind {A B} (m : Prog S A) (k : A -> Prog S B) :
  preserves P m -> (forall a, preserves P (k a)) -> preserves P (bind m k).
Proof.
  intros Hm Hk s. unfold bind. specialize (Hm s).
  destruct (m s) as [[a|e] s']; cbn in *; [|assumption].
  eapply P_trans; [eassumption | apply Hk].
Qed.

Lemma preserves_ret {A} (a : A) : preserves P (ret a).
Proof. intros s; apply P_refl. Qed.

Lemma preserves_raise {A} e : preserves P (@raise S A e).
Proof. intros s; apply P_refl. Qed.

Lemma preserves_gets {A} (f : S -> A) : preserves P (gets f).
Proof. intros s; apply P_refl. Qed.

Lemma preserves_lift {A} (r : Result A) : preserves P (lift r).
Proof. intros s; apply P_refl. Qed.

Lemma preserves_getattr {A} name (f : S -> option A) :
  preserves P (getattr name f).
Proof. intros s; unfold getattr; destruct (f s); apply P_refl. Qed.

Lemma preserves_modify (f : S -> S) :
  (forall s, P s (f s)) -> preserves P (modify f).
Proof. intros H s; apply H. Qed.

Lemma preserves_pure {A} (f : S -> Result A) :
  preserves P (fun s => (f s, s)).
Proof. intros s; apply P_refl. Qed.

End Preserves.

(** One step of a frame proof: split a sequence, discharge a primitive,
    or take a branch or a tuple pattern apart. *)
Ltac frame_step refl trans :=
  first
    [ apply preserves_bind; [exact trans | | intros]
    | apply preserves_ret; exact refl
    | apply preserves_raise; exact refl
    | apply preserves_gets; exact refl
    | apply preserves_lift; exact refl
    | apply preserves_getattr; exact refl
    | apply preserves_pure; exact refl
    | apply preserves_modify; intros; reflexivity
    | match goal with
      | |- preserves _ (if ?b then _ else _) => destruct b
      | |- preserves _ (let '(_, _) := ?p in _) => destruct p
      | |- preserves _ (match ?p with (_, _) => _ end) => destruct p
      end ].

Import View.

Lemma same_refl (s : Solver) : same_but_index_sets s s.
Proof. reflexivity. Qed.

Lemma same_sym (s1 s2 : Solver) :
  same_but_index_sets s1 s2 -> same_but_index_sets s2 s1.
Proof. unfold same_but_index_sets; congruence. Qed.

Lemma same_trans (s1 s2 s3 : Solver) :
  same_but_index_sets s1 s2 -> same_but_index_sets s2 s3 ->
  same_but_index_sets s1 s3.
Proof. unfold same_but_index_sets; congruence. Qed.

Section Frames.

Variable model : Model.t.
Variable spsolve : Np.mat -> vec -> Result vec.
Variable approx_fprime : approx_fprime_t.

Lemma update_false_frame y :
  preserves same_but_index_sets (update y false).
Proof. intros s. rewrite update_no_store. apply same_refl. Qed.

Lemma R_frame_gen tk1 xk1 upd :
  preserves same_but_index_sets (R model tk1 xk1 upd).
Proof.
  unfold R, unpack.
  repeat first [ apply update_false_frame
               | frame_step same_refl same_trans ].
Qed.

Lemma newton_loop_frame fuel tk1 j R_ error xk1 :
  preserves same_but_index_sets
    (newton_loop model spsolve approx_fprime fuel tk1 j R_ error xk1).
Proof.
  revert j R_ error xk1.
  induction fuel as [|fuel IH]; intros j R_ error xk1; cbn [newton_loop].
  - apply preserves_ret; exact same_refl.
  - repeat first [ apply R_frame_gen | apply IH
                 | frame_step same_refl same_trans ].
Qed.

Lemma step_frame_gen tk1 xk1 :
  preserves same_but_index_sets (step model spsolve approx_fprime tk1 xk1).
Proof.
  unfold step.
  repeat first [ apply R_frame_gen | apply newton_loop_frame
               | frame_step same_refl same_trans ].
Qed.

End Frames.

(** * The Newton iteration of a time step *)

Lemma bind_Ok_inv {S A B} (m : Prog S A) (k : A -> Prog S B) s b s' :
  bind m k s = (Ok b, s') ->
  exists a s1, m s = (Ok a, s1) /\ k a s1 = (Ok b, s').
Proof.
  unfold bind. destruct (m s) as [[a|e] s1]; [eauto | discriminate].
Qed.

Lemma isub_length (x dx x' : vec) : isub x dx = Ok x' -> length x' = length x.
Proof.
  unfold isub. destruct (length x =? length dx)%nat eqn:E.
  - intros [= <-]. apply Nat.eqb_eq in E. rewrite length_zip_with. lia.
  - destruct dx as [|c [|? ?]]; try discriminate.
    intros [= <-]. apply length_map.
Qed.

(** Take a successful run of a method body apart: one [bind] at a time,
    reading off what a primitive returned. *)
Ltac binv H a s1 Hm :=
  apply bind_Ok_inv in H; destruct H as (a & s1 & Hm & H).

(** the same for a primitive: what it returned, in the state it leaves
    unchanged *)
Ltac binvp H a Hm :=
  let s1 := fresh "s" in
  let Hs := fresh "Hs" in
  binv H a s1 Hm;
  first [ unfold gets in Hm | unfold lift in Hm | unfold ret in Hm ];
  injection Hm as Hm Hs; subst s1; try subst a.

Lemma same_tol (s s' : Solver) :
  View.same_but_index_sets s s' -> self.tol s' = self.tol s.
Proof. intros H; exact (f_equal self.tol H). Qed.

Lemma same_max_iter (s s' : Solver) :
  View.same_but_index_sets s s' -> self.max_iter s' = self.max_iter s.
Proof. intros H; exact (f_equal self.max_iter H). Qed.

Lemma same_error_function (s s' : Solver) :
  View.same_but_index_sets s s' ->
  self.error_function s' = self.error_function s.
Proof. intros H; exact (f_equal self.error_function H). Qed.

Section Newton.

Variable model : Model.t.
Variable spsolve : Np.mat -> vec -> Result vec.
Variable approx_fprime : approx_fprime_t.

Local Open Scope nat_scope.

Lemma newton_loop_result fuel tk1 :
  forall j R_ error xk1 s1 c j' e x s',
    newton_loop model spsolve approx_fprime fuel tk1 j R_ error xk1 s1
      = (Ok (c, j', e, x), s') ->
    Qlt_bool error (self.tol s1) = false ->
    (exists s0, View.same_but_index_sets s1 s0
                /\ R model tk1 xk1 true s0 = (Ok R_, s1)
                /\ self.error_function s1 R_ = Ok error) ->
    c = Qlt_bool e (self.tol s1)
    /\ j' <= j + fuel
    /\ (c = false -> j' = j + fuel)
    /\ length x = length xk1
    /\ View.evaluated_at model tk1 x e s1 s'.
Proof.
  induction fuel as [|fuel IH];
    intros j R_ error xk1 s1 c j' e x s' H Herr (s0 & Hs0 & HR & He);
    cbn [newton_loop] in H.
  - unfold ret in H. injection H as <- <- <- <- <-.
    repeat apply conj; try lia; try reflexivity; auto.
    exists s0, R_. auto.
  - binv H J sa HJ. injection HJ as HJ Hsa. subst sa.
    binvp H dx Hdx.
    binvp H x1 Hx1.
    binv H R1 s2 HR1.
    binvp H ef Hef.
    binvp H e1 He1.
    binvp H tol Htol.
    pose proof (R_frame_gen model tk1 x1 true s1) as Hfr.
    rewrite HR1 in Hfr; cbn [snd] in Hfr.
    pose proof (isub_length _ _ Hx1) as Hlen.
    destruct (Qlt_bool e1 (self.tol s2)) eqn:Hc.
    + unfold ret in H. injection H as <- <- <- <- <-.
      rewrite <- (same_tol Hfr), Hc.
      repeat apply conj; try lia; try reflexivity; try discriminate; auto.
      exists s1, R1. repeat apply conj; auto.
      * apply same_refl.
      * now rewrite <- (same_error_function Hfr).
    + apply IH in H; auto.
      * destruct H as (Hc' & Hj & Hjf & Hx & (s3 & r & H3 & HR3 & He3)).
        rewrite (same_tol Hfr) in Hc'.
        repeat apply conj; auto; try lia.
        -- intros Hf. specialize (Hjf Hf). lia.
        -- exists s3, r. repeat apply conj; auto.
           ++ eapply same_trans; eauto.
           ++ now rewrite <- (same_error_function Hfr).
      * exists s1. repeat apply conj; auto. now apply same_sym.
Qed.

Lemma step_result_gen tk1 xk1 s c j e x s' :
  step model spsolve approx_fprime tk1 xk1 s = (Ok (c, j, e, x), s') ->
  c = Qlt_bool e (self.tol s)
  /\ j <= Z.to_nat (self.max_iter s)
  /\ (c = false -> j = Z.to_nat (self.max_iter s))
  /\ length x = length xk1
  /\ View.same_but_index_sets s s'
  /\ View.evaluated_at model tk1 x e s s'.
Proof.
  intros H.
  pose proof (step_frame_gen model spsolve approx_fprime tk1 xk1 s) as Hfr.
  rewrite H in Hfr; cbn [snd] in Hfr.
  unfold step in H.
  binv H R0 s1 HR0.
  binvp H ef Hef.
  binvp H e0 He0.
  binvp H tol Htol.
  pose proof (R_frame_gen model tk1 xk1 true s) as Hfr1.
  rewrite HR0 in Hfr1; cbn [snd] in Hfr1.
  destruct (Qlt_bool e0 (self.tol s1)) eqn:Hc; cbn [negb] in H.
  - unfold ret in H. injection H as <- <- <- <- <-.
    rewrite <- (same_tol Hfr1), Hc.
    repeat apply conj; try lia; try discriminate; auto.
    exists s, R0. repeat apply conj; auto.
    + apply same_refl.
    + now rewrite <- (same_error_function Hfr1).
  - binvp H mi Hmi.
    apply newton_loop_result in H; auto.
    + destruct H as (Hc' & Hj & Hjf & Hx & (s3 & r & H3 & HR3 & He3)).
      rewrite (same_tol Hfr1) in Hc'.
      rewrite (same_max_iter Hfr1) in Hj, Hjf.
      repeat apply conj; auto.
      exists s3, r. repeat apply conj; auto.
      * eapply same_trans; eauto.
      * now rewrite <- (same_error_function Hfr1).
    + exists s. repeat apply conj; auto. now apply same_sym.
Qed.

End Newton.

Section MissingMethod.

Variable model : Model.t.
Variable spsolve : Np.mat -> vec -> Result vec.
Variable approx_fprime : approx_fprime_t.

Hypothesis Hfd : evaluates_function approx_fprime.

Lemma newton_loop_raises fuel tk1 j R_ error xk1 s :
  newton_loop model spsolve approx_fprime (S fuel) tk1 j R_ error xk1 s
  = (Raise (AttributeError
              "_GenAlphaFirstOrderVelocityGGLNormalContacts__R_gen_analytic"),
     s).
Proof.
  cbn [newton_loop]. unfold bind at 1.
  cbn [__R raise fst].
  now rewrite (Hfd xk1 _ None "2-point"%string (e := AttributeError _)
                 (fun y => eq_refl)).
Qed.

Lemma step_no_newton_update tk1 xk1 s :
  match step model spsolve approx_fprime tk1 xk1 s with
  | (Ok (c, j, e, x), s') =>
      j = 0%nat /\ x = xk1
      /\ (c = true \/ (self.max_iter s <= 0)%Z)
  | (Raise e, s') =>
      forall r s1 e0,
        R model tk1 xk1 true s = (Ok r, s1) ->
        self.error_function s r = Ok e0 ->
        e = AttributeError
              "_GenAlphaFirstOrderVelocityGGLNormalContacts__R_gen_analytic"
        /\ s' = s1 /\ Qlt_bool e0 (self.tol s) = false
        /\ (0 < self.max_iter s)%Z
  end.
Proof.
  unfold step. unfold bind at 1.
  pose proof (R_frame_gen model tk1 xk1 true s) as Hfr.
  destruct (R model tk1 xk1 true s) as [[r|e] s1] eqn:HR; cbn [snd] in Hfr.
  2:{ intros r s2 e0 [=]. }
  unfold bind at 1, gets at 1. unfold bind at 1, lift at 1.
  rewrite (same_error_function Hfr).
  destruct (self.error_function s r) as [e0|e] eqn:He.
  2:{ intros r' s2 e0 [= <- <-]. rewrite He. discriminate. }
  unfold bind at 1, gets at 1. rewrite (same_tol Hfr).
  destruct (Qlt_bool e0 (self.tol s)) eqn:Hc; cbn [negb].
  - cbn. auto.
  - unfold bind at 1, gets at 1. rewrite (same_max_iter Hfr).
    destruct (Z.to_nat (self.max_iter s)) as [|fuel] eqn:Hm.
    + cbn. repeat apply conj; auto. right. lia.
    + rewrite newton_loop_raises.
      intros r' s2 e0' [= <- <-]. rewrite He. intros [= <-].
      repeat apply conj; auto. lia.
Qed.

End MissingMethod.

Lemma Ball_approx_fprime_evaluates : evaluates_function Ball.approx_fprime.
Proof.
  intros x f eps m e Hf. unfold Ball.approx_fprime. now rewrite Hf.
Qed.

(** * The time loop *)

Section Solve.

Variable model : Model.t.
Variable spsolve : Np.mat -> vec -> Result vec.
Variable approx_fprime : approx_fprime_t.

Local Open Scope nat_scope.

Lemma same_tk (s s' : Solver) :
  View.same_but_index_sets s s' -> self.tk s' = self.tk s.
Proof. intros H; exact (f_equal self.tk H). Qed.





End Solve.

(** * The attribute [DAE_index] *)

Section Commutes.

Context {S : Type} (f : S -> S).

Lemma commutes_bind {A B} (m : Prog S A) (k : A -> Prog S B) :
  commutes f m -> (forall a, commutes f (k a)) -> commutes f (bind m k).
Proof.
  intros Hm Hk s. unfold bind. rewrite Hm.
  destruct (m s) as [[a|e] s']; cbn [fst snd]; [apply Hk | reflexivity].
Qed.

Lemma commutes_ret {A} (a : A) : commutes f (ret a).
Proof. intros s; reflexivity. Qed.

Lemma commutes_raise {A} e : commutes f (@raise S A e).
Proof. intros s; reflexivity. Qed.

Lemma commutes_lift {A} (r : Result A) : commutes f (lift r).
Proof. intros s; reflexivity. Qed.

Lemma commutes_gets {A} (g : S -> A) :
  (forall s, g (f s) = g s) -> commutes f (gets g).
Proof. intros H s; unfold gets; now rewrite H. Qed.

Lemma commutes_getattr {A} name (g : S -> option A) :
  (forall s, g (f s) = g s) -> commutes f (getattr name g).
Proof. intros H s; unfold getattr; rewrite H; now destruct (g s). Qed.

Lemma commutes_modify (g : S -> S) :
  (forall s, g (f s) = f (g s)) -> commutes f (modify g).
Proof. intros H s; unfold modify; now rewrite H. Qed.

Lemma commutes_pure {A} (g : S -> Result A) :
  (forall s, g (f s) = g s) -> commutes f (fun s => (g s, s)).
Proof. intros H s; now rewrite H. Qed.

End Commutes.

Ltac commute_step :=
  first
    [ apply commutes_bind; [|intros]
    | apply commutes_ret
    | apply commutes_raise
    | apply commutes_lift
    | apply commutes_gets; intros; reflexivity
    | apply commutes_getattr; intros; reflexivity
    | apply commutes_modify; intros; reflexivity
    | apply commutes_pure; intros; reflexivity
    | match goal with
      | |- commutes _ (if ?b then _ else _) => destruct b
      | |- commutes _ (let '(_, _) := ?p in _) => destruct p
      | |- commutes _ (match ?p with (_, _) => _ end) => destruct p
      end ].

Section DAE_index.

Variable model : Model.t.
Variable spsolve : Np.mat -> vec -> Result vec.
Variable approx_fprime : approx_fprime_t.
Variable d : Z.

Let set_index : Solver -> Solver := self.setattr self.a_DAE_index d.

Lemma update_commutes y store : commutes set_index (update y store).
Proof. unfold update. repeat commute_step. Qed.

Lemma unpack_commutes x : commutes set_index (unpack x).
Proof. unfold unpack. repeat commute_step. Qed.

Lemma pack_commutes a b c e f g h i j :
  commutes set_index (pack a b c e f g h i j).
Proof. unfold pack. repeat commute_step. Qed.

Lemma R_commutes tk1 xk1 upd : commutes set_index (R model tk1 xk1 upd).
Proof.
  unfold R.
  repeat first [ apply update_commutes | apply unpack_commutes
               | commute_step ].
Qed.

Lemma newton_loop_commutes fuel tk1 :
  forall j R_ error xk1,
    commutes set_index
      (newton_loop model spsolve approx_fprime fuel tk1 j R_ error xk1).
Proof.
  induction fuel as [|fuel IH]; intros j R_ error xk1; cbn [newton_loop].
  - apply commutes_ret.
  - repeat first [ apply R_commutes | apply IH | commute_step ].
Qed.

Lemma step_commutes tk1 xk1 :
  commutes set_index (step model spsolve approx_fprime tk1 xk1).
Proof.
  unfold step.
  repeat first [ apply R_commutes | apply newton_loop_commutes
               | commute_step ].
Qed.

Lemma solve_loop_commutes n :
  forall k sol,
    commutes set_index (solve_loop model spsolve approx_fprime n k sol).
Proof.
  induction n as [|n IH]; intros k sol; cbn [solve_loop].
  - apply commutes_ret.
  - repeat first [ apply step_commutes | apply unpack_commutes
                 | apply update_commutes | apply IH | commute_step ].
Qed.

Lemma solve_commutes :
  commutes set_index (solve model spsolve approx_fprime).
Proof.
  unfold solve.
  repeat first [ apply solve_loop_commutes | commute_step ].
Qed.

End DAE_index.

(** * [fsolve] *)

Section FsolveFacts.

Variable Arg : Type.
Variable truthy : Arg -> bool.
Variable approx_fprime : approx_fprime_t.

Local Open Scope nat_scope.

Lemma fsolve_newton_loop_result
    (fun_ : vec -> list Arg -> Result vec)
    (jacobian : vec -> list Arg -> Result Np.mat)
    (linear_solver : Np.mat -> vec -> Result vec)
    (error_function : vec -> Result Q) (atol : Q)
    (fun_args jac_args : list Arg) fuel :
  forall x0 f0 e0 c0 i0 x c e i f,
    Fsolve.newton_loop fun_ jacobian linear_solver error_function atol
      fun_args jac_args fuel x0 f0 e0 c0 i0 = Ok (x, c, e, i, f) ->
    c0 = Qle_bool e0 atol -> fun_ x0 fun_args = Ok f0 ->
    error_function f0 = Ok e0 ->
    c = Qle_bool e atol
    /\ i0 <= i /\ i <= i0 + fuel
    /\ (c = false -> i = i0 + fuel)
    /\ (c0 = true -> i = i0 /\ x = x0)
    /\ fun_ x fun_args = Ok f
    /\ error_function f = Ok e
    /\ length x = length x0.
Proof.
  induction fuel as [|fuel IH]; intros x0 f0 e0 c0 i0 x c e i f H Hc Hf He.
  - cbn in H. destruct c0; injection H as <- <- <- <- <-;
      repeat apply conj; auto; try lia; discriminate.
  - cbn [Fsolve.newton_loop] in H. destruct c0.
    + injection H as <- <- <- <- <-.
      repeat apply conj; auto; try lia; discriminate.
    + apply rbind_Ok in H. destruct H as (J & HJ & H).
      apply rbind_Ok in H. destruct H as (dx & Hdx & H).
      apply rbind_Ok in H. destruct H as (x1 & Hx1 & H).
      apply rbind_Ok in H. destruct H as (f1 & Hf1 & H).
      apply rbind_Ok in H. destruct H as (e1 & He1 & H).
      apply IH in H; auto.
      destruct H as (Hc' & Hi & Hi' & Hn & _ & Hf' & He' & Hl).
      apply isub_length in Hx1.
      repeat apply conj; auto; try lia; try discriminate.
      intros Hcf. specialize (Hn Hcf). lia.
Qed.

Lemma fsolve_result_gen fun_ x0 jac fun_args jac_args error_function
    atol eps max_iter linear_solver x c e i f w :
  Fsolve.fsolve truthy approx_fprime fun_ x0 jac fun_args jac_args
    error_function atol eps max_iter linear_solver
  = (Ok (x, c, e, i, f), w) ->
  c = Qle_bool e atol
  /\ i <= Z.to_nat max_iter
  /\ (c = false -> i = Z.to_nat max_iter)
  /\ fun_ x (positional fun_args) = Ok f
  /\ error_function f = Ok e
  /\ length x = length x0
  /\ w = (if c then [] else [Fsolve.UserWarning i e]).
Proof.
  unfold Fsolve.fsolve. intros H.
  match type of H with
  | match ?r with Ok _ => _ | Raise _ => _ end = _ =>
      destruct r as [[[[[x' c'] e'] i'] f']|err] eqn:Hr; [|discriminate]
  end.
  injection H as <- <- <- <- <- <-.
  apply rbind_Ok in Hr. destruct Hr as (jacobian & _ & Hr).
  apply rbind_Ok in Hr. destruct Hr as (f0 & Hf0 & Hr).
  apply rbind_Ok in Hr. destruct Hr as (e0 & He0 & Hr).
  apply fsolve_newton_loop_result in Hr; auto.
  destruct Hr as (Hc & _ & Hi & Hn & _ & Hf & He & Hl).
  repeat apply conj; auto.
  now destruct c'.
Qed.

End FsolveFacts.

Section ConstructorFacts.

Variable model : Model.t.
Variable spsolve : Np.mat -> vec -> Result vec.
Variable approx_fprime : approx_fprime_t.

Local Open Scope Q_scope.

Lemma ggl_init_parameters t1 dt rho_inf tol max_iter error_function
    numerical_jacobian (s : GenAlphaFirstOrderVelocityGGL.Solver) :
  GenAlphaFirstOrderVelocityGGL.__init__ model spsolve t1 dt rho_inf tol
    max_iter error_function numerical_jacobian = Ok s ->
  ~ rho_inf + 1.0 == 0
  /\ ~ 1.0 - GenAlphaFirstOrderVelocityGGL.self.alpha_m s == 0
  /\ GenAlphaFirstOrderVelocityGGL.self.alpha_m s
     = (3.0 * rho_inf - 1.0) / (2.0 * (rho_inf + 1.0))
  /\ GenAlphaFirstOrderVelocityGGL.self.alpha_f s = rho_inf / (rho_inf + 1.0)
  /\ GenAlphaFirstOrderVelocityGGL.self.gamma s
     = 0.5 + GenAlphaFirstOrderVelocityGGL.self.alpha_f s
       - GenAlphaFirstOrderVelocityGGL.self.alpha_m s
  /\ GenAlphaFirstOrderVelocityGGL.self.gamma_prime s
     = dt * GenAlphaFirstOrderVelocityGGL.self.gamma s
       * (1.0 - GenAlphaFirstOrderVelocityGGL.self.alpha_f s)
       / (1.0 - GenAlphaFirstOrderVelocityGGL.self.alpha_m s).
Proof.
  unfold GenAlphaFirstOrderVelocityGGL.__init__. intros H.
  apply rbind_Ok in H; destruct H as (am & Ham & H).
  apply rbind_Ok in H; destruct H as (af & Haf & H).
  apply rbind_Ok in H; destruct H as (gp & Hgp & H).
  apply pydiv_Ok in Ham; destruct Ham as [_ ->].
  apply pydiv_Ok in Haf; destruct Haf as [Hnz ->].
  apply pydiv_Ok in Hgp; destruct Hgp as [Hnz' ->].
  rinv H. injection H as <-. cbn.
  repeat apply conj; try reflexivity; assumption.
Qed.

End ConstructorFacts.

(** The constructor of the contact solver derives its parameters from
    [rho_inf] as
    [alpha_m = (2*rho_inf - 1)/(rho_inf + 1)],
    [alpha_f = rho_inf/(rho_inf + 1)], [gamma = 1/2 + alpha_f - alpha_m],
    [beta = 1/4*(gamma + 1/2)^2].  For [rho_inf] in [0, 1] they satisfy
    [alpha_m <= alpha_f <= 1/2 <= gamma], and [1 - alpha_m], by which
    [update] divides, is positive. *)
Theorem contact_init_parameters (model : Model.t)
    (spsolve : Np.mat -> vec -> Result vec)
    (t1 dt rho_inf tol : Q) (max_iter : Z)
    (error_function : vec -> Result Q) (numerical_jacobian : bool)
    (DAE_index : Z) (s : Solver) :
  __init__ model spsolve t1 dt rho_inf tol max_iter error_function
    numerical_jacobian DAE_index = Ok s ->
  (self.alpha_m s == (2 * rho_inf - 1) / (rho_inf + 1)
   /\ self.alpha_f s == rho_inf / (rho_inf + 1)
   /\ self.gamma s == 1 / 2 + self.alpha_f s - self.alpha_m s
   /\ self.beta s == 1 / 4 * (self.gamma s + 1 / 2) ^ 2)%Q
  /\ (0 <= rho_inf -> rho_inf <= 1 ->
      self.alpha_m s <= self.alpha_f s /\ self.alpha_f s <= 1 / 2
      /\ 1 / 2 <= self.gamma s /\ 0 < 1 - self.alpha_m s)%Q.
Proof.
  intros H. apply init_parameters in H.
  destruct H as (Hnz & _ & _ & Ham & Haf & Hg & Hb).
  assert (Eam : (self.alpha_m s == (2 * rho_inf - 1) / (rho_inf + 1))%Q).
  { rewrite Ham. now rewrite lit_1, lit_2. }
  assert (Eaf : (self.alpha_f s == rho_inf / (rho_inf + 1))%Q).
  { rewrite Haf. now rewrite lit_1. }
  assert (Eg : (self.gamma s == 1 / 2 + self.alpha_f s - self.alpha_m s)%Q).
  { rewrite Hg. now rewrite lit_half. }
  split.
  - repeat apply conj; auto.
    rewrite Hb. rewrite lit_half.
    assert (E : (0.25 == 1 / 4)%Q) by reflexivity.
    now rewrite E.
  - intros H0 H1.
    change (1 / 2)%Q with (1 # 2)%Q in *.
    assert (Hd : (0 < rho_inf + 1)%Q) by lra.
    assert (Lmf : (self.alpha_m s <= self.alpha_f s)%Q).
    { rewrite Eam, Eaf. apply Qle_shift_div_r; [exact Hd|].
      field_simplify; [lra | lra]. }
    assert (Lf : (self.alpha_f s <= 1 # 2)%Q).
    { rewrite Eaf. apply Qle_shift_div_r; [exact Hd | lra]. }
    repeat apply conj; auto.
    + rewrite Eg. lra.
    + lra.
Qed.

Lemma contact_init_parameters_witness :
  (self.alpha_m (Ball.solver (T1_float 1) 40 2) == (2 * 0.5 - 1) / (0.5 + 1))%Q.
Proof.
  apply (proj1 (@contact_init_parameters Ball.model Ball.spsolve 1 0.1
                  0.5 1e-8 40 Np.max_abs true 2
                  (Ball.solver (T1_float 1) 40 2) eq_refl)).
Defined.

(** The constructor of [GenAlphaFirstOrderVelocityGGL] uses
    [alpha_m = (3*rho_inf - 1)/(2*(rho_inf + 1))],
    [alpha_f = rho_inf/(rho_inf + 1)], [gamma = 1/2 + alpha_f - alpha_m] and
    [gamma_prime = dt*gamma*(1 - alpha_f)/(1 - alpha_m)]; these are the
    four values the parameter block of [GenAlphaFirstOrderVelocity]
    computes.  A constructed object has [alpha_m <> 1], so the division in
    [update] is defined. *)
Theorem ggl_init_gen_alpha_parameters (model : Model.t)
    (spsolve : Np.mat -> vec -> Result vec)
    (t1 dt rho_inf tol : Q) (max_iter : Z)
    (error_function : vec -> Result Q) (numerical_jacobian : bool)
    (s : GenAlphaFirstOrderVelocityGGL.Solver) :
  GenAlphaFirstOrderVelocityGGL.__init__ model spsolve t1 dt rho_inf tol
    max_iter error_function numerical_jacobian = Ok s ->
  (GenAlphaFirstOrderVelocityGGL.self.alpha_m s
     == (3 * rho_inf - 1) / (2 * (rho_inf + 1))
   /\ GenAlphaFirstOrderVelocityGGL.self.alpha_f s == rho_inf / (rho_inf + 1)
   /\ GenAlphaFirstOrderVelocityGGL.self.gamma s
      == 1 / 2 + GenAlphaFirstOrderVelocityGGL.self.alpha_f s
         - GenAlphaFirstOrderVelocityGGL.self.alpha_m s
   /\ GenAlphaFirstOrderVelocityGGL.self.gamma_prime s
      == dt * GenAlphaFirstOrderVelocityGGL.self.gamma s
         * (1 - GenAlphaFirstOrderVelocityGGL.self.alpha_f s)
         / (1 - GenAlphaFirstOrderVelocityGGL.self.alpha_m s)
   /\ ~ GenAlphaFirstOrderVelocityGGL.self.alpha_m s == 1)%Q
  /\ GenAlphaFirstOrderVelocity.gen_alpha_parameter dt rho_inf
     = Ok (GenAlphaFirstOrderVelocityGGL.self.alpha_m s,
           GenAlphaFirstOrderVelocityGGL.self.alpha_f s,
           GenAlphaFirstOrderVelocityGGL.self.gamma s,
           GenAlphaFirstOrderVelocityGGL.self.gamma_prime s).
Proof.
  intros H. apply ggl_init_parameters in H.
  destruct H as (Hnz & Hnz' & Ham & Haf & Hg & Hgp).
  split.
  - repeat apply conj.
    + rewrite Ham. now rewrite lit_1, lit_2, lit_3.
    + rewrite Haf. now rewrite lit_1.
    + rewrite Hg. now rewrite lit_half.
    + rewrite Hgp. now rewrite lit_1.
    + intros E. apply Hnz'. rewrite E. reflexivity.
  - unfold GenAlphaFirstOrderVelocity.gen_alpha_parameter.
    assert (Hd : ~ (2.0 * (rho_inf + 1.0) == 0)%Q).
    { intros E. apply Hnz. 
      apply (Qmult_integral_l 2.0) in E; [exact E | discriminate]. }
    rewrite (pydiv_nonzero _ Hd), (pydiv_nonzero _ Hnz). cbn [rbind].
    rewrite <- Ham, <- Haf, <- Hg.
    rewrite (pydiv_nonzero _ Hnz'). cbn [rbind].
    now rewrite <- Hgp.
Qed.

Lemma ggl_init_gen_alpha_parameters_witness :
  (GenAlphaFirstOrderVelocityGGL.self.alpha_m (Ball.ggl_solver (T1_float 1))
   == (3 * 0 - 1) / (2 * (0 + 1)))%Q.
Proof.
  apply (proj1 (@ggl_init_gen_alpha_parameters Ball.model Ball.spsolve 1 0.1
                  0 1e-8 40 Np.max_abs true (Ball.ggl_solver (T1_float 1))
                  eq_refl)).
Defined.



(** The class defines no method [__R_gen_analytic]: with
    [numerical_jacobian=False] the constructor never returns an object,
    and when every other statement of the constructor succeeds it raises
    the [AttributeError] of the missing method. *)
Theorem init_without_numerical_jacobian (model : Model.t)
    (spsolve : Np.mat -> vec -> Result vec)
    (t1 dt rho_inf tol : Q) (max_iter : Z)
    (error_function : vec -> Result Q) (DAE_index : Z) (s : Solver) :
  __init__ model spsolve t1 dt rho_inf tol max_iter error_function true
    DAE_index = Ok s ->
  __init__ model spsolve t1 dt rho_inf tol max_iter error_function false
    DAE_index
  = Raise (AttributeError
             "_GenAlphaFirstOrderVelocityGGLNormalContacts__R_gen_analytic")
  /\ forall t1' dt' rho_inf' tol' max_iter' error_function' DAE_index' s',
       __init__ model spsolve t1' dt' rho_inf' tol' max_iter'
         error_function' false DAE_index' <> Ok s'.
Proof.
  intros H. split.
  - eapply init_analytic_jacobian; eassumption.
  - intros. apply init_never_analytic.
Qed.

Lemma init_without_numerical_jacobian_witness :
  __init__ Ball.model Ball.spsolve 1 0.1 0.5 1e-8 40 Np.max_abs false 2
  = Raise (AttributeError
             "_GenAlphaFirstOrderVelocityGGLNormalContacts__R_gen_analytic").
Proof.
  apply (proj1 (@init_without_numerical_jacobian Ball.model Ball.spsolve 1
                  0.1 0.5 1e-8 40 Np.max_abs 2
                  (Ball.solver (T1_float 1) 40 2) eq_refl)).
Defined.

Lemma solve_t1_exception (model : Model.t)
    (spsolve : Np.mat -> vec -> Result vec)
    (approx_fprime : approx_fprime_t) (s : Solver) e :
  self.t1 s = T1_exception e ->
  solve model spsolve approx_fprime s
  = (Raise (TypeError "unsupported operand type(s) for -"), s).
Proof.
  intros H. unfold solve, bind, gets, lift. rewrite H. reflexivity.
Qed.

(** A final time [t1 <= t0] does not make the constructor fail: the
    object it builds carries the un-raised [ValueError] in its attribute
    [t1], and [solve] on that object raises a [TypeError] when it builds
    the time grid, before any step and without changing the object. *)
Theorem t1_not_after_t0 (model : Model.t)
    (spsolve : Np.mat -> vec -> Result vec)
    (approx_fprime : approx_fprime_t)
    (t1 t1' dt rho_inf tol : Q) (max_iter : Z)
    (error_function : vec -> Result Q) (numerical_jacobian : bool)
    (DAE_index : Z) (s' : Solver) :
  (t1 <= Model.t0 model)%Q ->
  __init__ model spsolve t1' dt rho_inf tol max_iter error_function
    numerical_jacobian DAE_index = Ok s' ->
  exists s : Solver,
    __init__ model spsolve t1 dt rho_inf tol max_iter error_function
      numerical_jacobian DAE_index = Ok s
    /\ self.t1 s
       = T1_exception (ValueError "t1 must be larger than initial time t0.")
    /\ self.tk s = self.tk s' /\ self.xk s = self.xk s'
    /\ solve model spsolve approx_fprime s
       = (Raise (TypeError "unsupported operand type(s) for -"), s).
Proof.
  intros Ht H.
  apply init_t1 with (t1 := t1) in H.
  destruct H as (s & Hs & Ht1 & Htk & Hxk & _).
  assert (E : Qlt_bool (Model.t0 model) t1 = false).
  { unfold Qlt_bool. apply Qle_bool_iff in Ht. now rewrite Ht. }
  rewrite E in Ht1.
  exists s. repeat apply conj; auto.
  eapply solve_t1_exception; eassumption.
Qed.

Lemma t1_not_after_t0_witness :
  exists s : Solver,
    Ball.init 0 40 2 = Ok s
    /\ self.t1 s
       = T1_exception (ValueError "t1 must be larger than initial time t0.")
    /\ self.tk s = 0%Q /\ self.xk s = [0; -(10); 0; 0; 0]%Q
    /\ solve Ball.model Ball.spsolve Ball.approx_fprime s
       = (Raise (TypeError "unsupported operand type(s) for -"), s).
Proof.
  apply (@t1_not_after_t0 Ball.model Ball.spsolve Ball.approx_fprime 0 1 0.1
           0.5 1e-8 40 Np.max_abs true 2 (Ball.solver (T1_float 1) 40 2)).
  - vm_compute. discriminate.
  - reflexivity.
Defined.

(** Whatever [R] and [step] return or raise, the only attributes they
    assign are [nR_smooth], [Ai1], [Bi1] and [Ci1]: the step data [tk],
    [xk], [yk], [y_dotk], [vk], [uk] and the settings are as before the
    call. *)
Theorem R_and_step_assign_only_index_sets (model : Model.t)
    (spsolve : Np.mat -> vec -> Result vec)
    (approx_fprime : approx_fprime_t) (tk1 : Q) (xk1 : vec)
    (update_index_set : bool) (s : Solver) :
  View.same_but_index_sets s (snd (R model tk1 xk1 update_index_set s))
  /\ View.same_but_index_sets s
       (snd (step model spsolve approx_fprime tk1 xk1 s)).
Proof.
  split; [apply R_frame_gen | apply step_frame_gen].
Qed.

(** On an object whose index sets have never been computed, [R] with its
    default [update_index_set=False] raises [AttributeError] for [Ai1];
    by then it has assigned [nR_smooth], and nothing else. *)
Theorem R_before_index_sets (model : Model.t) (s : Solver) (tk1 : Q)
    (xk1 : vec) :
  Trial.model_shapes model -> Trial.state_shapes model s ->
  length xk1 = self.nx s ->
  self.Ai1 s = None ->
  R model tk1 xk1 false s
  = (Raise (AttributeError "Ai1"),
     self.setattr self.a_nR_smooth
       (self.nq s + self.nu s + 3 * self.nla_g s + self.nla_gamma s)%nat s).
Proof.
  intros Hm Hs Hx HA. now apply R_without_index_sets.
Qed.

Lemma R_before_index_sets_witness :
  R Ball.model 0.1 [0; -(10); 0; 0; 0] false (Ball.solver (T1_float 1) 40 2)
  = (Raise (AttributeError "Ai1"),
     self.setattr self.a_nR_smooth 2%nat (Ball.solver (T1_float 1) 40 2)).
Proof.
  apply (@R_before_index_sets Ball.model (Ball.solver (T1_float 1) 40 2) 0.1
           [0; -(10); 0; 0; 0] Ball_model_shapes
           (Ball_state_shapes (T1_float 1) 40 2) eq_refl eq_refl).
Defined.

(** When [step] returns, [converged] is the comparison [error < tol] of
    the error it returns, at most [max_iter] Newton iterations were
    counted, all of them when it reports no convergence, the unknown
    vector has kept its size, and the error and the index sets left in
    the object are those of the residual at the returned vector. *)
Theorem step_result (model : Model.t)
    (spsolve : Np.mat -> vec -> Result vec)
    (approx_fprime : approx_fprime_t) (tk1 : Q) (xk1 : vec) (s : Solver)
    (converged : bool) (j : nat) (error : Q) (x : vec) (s' : Solver) :
  step model spsolve approx_fprime tk1 xk1 s
    = (Ok (converged, j, error, x), s') ->
  converged = Qlt_bool error (self.tol s)
  /\ (j <= Z.to_nat (self.max_iter s))%nat
  /\ (converged = false -> j = Z.to_nat (self.max_iter s))
  /\ length x = length xk1
  /\ View.evaluated_at model tk1 x error s s'.
Proof.
  intros H. apply step_result_gen in H.
  destruct H as (Hc & Hj & Hjf & Hx & _ & He).
  repeat apply conj; assumption.
Qed.

Lemma step_result_witness :
  match step Ball.model Ball.spsolve Ball.approx_fprime 0.1
          [0; -(10); 0; 0; 0]%Q (Ball.solver (T1_float 1) 0 2) with
  | (Ok (converged, j, error, x), _) =>
      converged = Qlt_bool error 1e-8 /\ (j <= 0)%nat /\ length x = 5%nat
  | (Raise _, _) => False
  end.
Proof.
  destruct (step Ball.model Ball.spsolve Ball.approx_fprime 0.1
              [0; -(10); 0; 0; 0]%Q (Ball.solver (T1_float 1) 0 2))
    as [[[[[c j] e] x]|err] s'] eqn:H.
  - apply step_result in H. destruct H as (Hc & Hj & _ & Hx & _).
    repeat apply conj; assumption.
  - vm_compute in H. discriminate.
Defined.

Lemma step_raises_gen (model : Model.t)
    (spsolve : Np.mat -> vec -> Result vec)
    (approx_fprime : approx_fprime_t) (tk1 : Q) (xk1 : vec) (s : Solver)
    (r : vec) (s1 : Solver) (e0 : Q) :
  evaluates_function approx_fprime ->
  R model tk1 xk1 true s = (Ok r, s1) ->
  self.error_function s r = Ok e0 ->
  Qlt_bool e0 (self.tol s) = false ->
  (0 < self.max_iter s)%Z ->
  step model spsolve approx_fprime tk1 xk1 s
  = (Raise (AttributeError
              "_GenAlphaFirstOrderVelocityGGLNormalContacts__R_gen_analytic"),
     s1).
Proof.
  intros Hfd HR He Hc Hm.
  pose proof (R_frame_gen model tk1 xk1 true s) as Hfr.
  rewrite HR in Hfr; cbn [snd] in Hfr.
  unfold step. unfold bind at 1. rewrite HR.
  unfold bind at 1, gets at 1. unfold bind at 1, lift at 1.
  rewrite (same_error_function Hfr), He.
  unfold bind at 1, gets at 1. rewrite (same_tol Hfr), Hc. cbn [negb].
  unfold bind at 1, gets at 1. rewrite (same_max_iter Hfr).
  destruct (Z.to_nat (self.max_iter s)) as [|fuel] eqn:E; [lia|].
  now apply newton_loop_raises.
Qed.

(** The Jacobian of the Newton iteration is taken of [__R], which looks
    up the method [__R_gen_analytic] the class does not define.  So
    [step] never performs a Newton update: it returns its argument [xk1]
    with [j = 0], when the initial residual is below [tol] or [max_iter]
    is not positive, and otherwise raises [AttributeError] after the
    initial evaluation of the residual. *)
Theorem step_never_updates (model : Model.t)
    (spsolve : Np.mat -> vec -> Result vec)
    (approx_fprime : approx_fprime_t) (tk1 : Q) (xk1 : vec) (s : Solver) :
  evaluates_function approx_fprime ->
  (forall converged j error x s',
     step model spsolve approx_fprime tk1 xk1 s
       = (Ok (converged, j, error, x), s') ->
     j = 0%nat /\ x = xk1
     /\ (converged = true \/ (self.max_iter s <= 0)%Z))
  /\ (forall r s1 e0,
        R model tk1 xk1 true s = (Ok r, s1) ->
        self.error_function s r = Ok e0 ->
        Qlt_bool e0 (self.tol s) = false ->
        (0 < self.max_iter s)%Z ->
        step model spsolve approx_fprime tk1 xk1 s
        = (Raise
             (AttributeError
                "_GenAlphaFirstOrderVelocityGGLNormalContacts__R_gen_analytic"),
           s1)).
Proof.
  intros Hfd. split.
  - intros c j e x s' H.
    pose proof (step_no_newton_update model spsolve Hfd tk1 xk1 s) as Hn.
    rewrite H in Hn. exact Hn.
  - intros r s1 e0. now apply step_raises_gen.
Qed.

Lemma step_never_updates_witness :
  fst (step Ball.model Ball.spsolve Ball.approx_fprime 0.1
         [0; -(10); 0; 0; 0]%Q (Ball.solver (T1_float 1) 3 2))
  = Raise (AttributeError
             "_GenAlphaFirstOrderVelocityGGLNormalContacts__R_gen_analytic").
Proof.
  refine (f_equal fst
            (proj2 (@step_never_updates Ball.model Ball.spsolve
                      Ball.approx_fprime 0.1 [0; -(10); 0; 0; 0]%Q
                      (Ball.solver (T1_float 1) 3 2)
                      Ball_approx_fprime_evaluates) _ _ _ _ _ _ _)).
  - vm_compute. reflexivity.
  - vm_compute. reflexivity.
  - vm_compute. reflexivity.
  - reflexivity.
Defined.




Lemma solve_loop_raises (model : Model.t)
    (spsolve : Np.mat -> vec -> Result vec)
    (approx_fprime : approx_fprime_t) (n k : nat) (sol : Solution)
    (s : Solver) (j : nat) (e : Q) (x : vec) (s2 : Solver) :
  step model spsolve approx_fprime (self.tk s + self.dt s)%Q (self.xk s)
    (self.setattr self.a_k k s) = (Ok (false, j, e, x), s2) ->
  solve_loop model spsolve approx_fprime (S n) k sol s
  = (Raise (RuntimeError j e), s2).
Proof.
  intros H. cbn [solve_loop].
  unfold bind at 1, modify at 1.
  unfold bind at 1, gets at 1. unfold bind at 1, gets at 1.
  unfold bind at 1, gets at 1.
  cbn [self.tk self.dt self.xk self.setattr].
  unfold bind at 1. rewrite H.
  unfold bind at 1. rewrite unpack_slices.
  reflexivity.
Qed.

(** When [step] reports no convergence in a time step, the time loop of
    [solve] raises [RuntimeError] with the iteration count and the error
    [step] returned; the count is [max_iter], the error is not below
    [tol], and apart from the counter [k] and the index sets the object
    is as the last accepted step left it. *)
Theorem solve_not_converged (model : Model.t)
    (spsolve : Np.mat -> vec -> Result vec)
    (approx_fprime : approx_fprime_t) (n k : nat) (sol : Solution)
    (s : Solver) (j : nat) (e : Q) (x : vec) (s2 : Solver) :
  step model spsolve approx_fprime (self.tk s + self.dt s)%Q (self.xk s)
    (self.setattr self.a_k k s) = (Ok (false, j, e, x), s2) ->
  solve_loop model spsolve approx_fprime (S n) k sol s
    = (Raise (RuntimeError j e), s2)
  /\ j = Z.to_nat (self.max_iter s)
  /\ Qlt_bool e (self.tol s) = false
  /\ View.same_but_index_sets (self.setattr self.a_k k s) s2
  /\ (forall t1,
        k = 0%nat -> self.t1 s = T1_float t1 ->
        Np.arange_len (self.t0 s) t1 (self.dt s) = Ok (S n) ->
        solve model spsolve approx_fprime s
        = (Raise (RuntimeError j e), s2)).
Proof.
  intros H.
  pose proof H as Hres. apply step_result_gen in Hres.
  destruct Hres as (Hc & _ & Hj & _ & Hfr & _).
  repeat apply conj.
  - eapply solve_loop_raises; eassumption.
  - exact (Hj eq_refl).
  - symmetry. exact Hc.
  - exact Hfr.
  - intros t1 -> Ht1 Hn. unfold solve.
    repeat (unfold bind at 1, gets at 1).
    rewrite Ht1. unfold bind at 1, lift at 1. cbn [arange_t]. rewrite Hn.
    eapply solve_loop_raises; eassumption.
Qed.

Lemma solve_not_converged_witness :
  exists (e : Q) (s2 : Solver),
    solve Ball.model Ball.spsolve Ball.approx_fprime
      (Ball.solver (T1_float 1) 0 2)
    = (Raise (RuntimeError 0 e), s2).
Proof.
  eexists. eexists.
  refine (proj2 (proj2 (proj2 (proj2
            (@solve_not_converged Ball.model Ball.spsolve
               Ball.approx_fprime 9 0
               {| sol_t := []; sol_q := []; sol_u := []; sol_q_dot := [];
                  sol_u_dot := []; sol_kappa_g := []; sol_La_g := [];
                  sol_la_g := []; sol_la_gamma := []; sol_kappa_N := [];
                  sol_La_N := []; sol_la_N := [] |}
               (Ball.solver (T1_float 1) 0 2) 0 _ _ _ _))))
            1%Q eq_refl eq_refl _).
  - vm_compute. reflexivity.
  - vm_compute. reflexivity.
Defined.

Lemma init_DAE_index (model : Model.t)
    (spsolve : Np.mat -> vec -> Result vec)
    (t1 dt rho_inf tol : Q) (max_iter : Z)
    (error_function : vec -> Result Q) (numerical_jacobian : bool)
    (d1 d2 : Z) (s1 : Solver) :
  (1 <= d2 <= 2)%Z ->
  __init__ model spsolve t1 dt rho_inf tol max_iter error_function
    numerical_jacobian d1 = Ok s1 ->
  __init__ model spsolve t1 dt rho_inf tol max_iter error_function
    numerical_jacobian d2 = Ok (self.setattr self.a_DAE_index d2 s1).
Proof.
  intros Hd H. unfold __init__ in *.
  assert (E : ((1 <=? d2)%Z && (d2 <=? 2)%Z) = true).
  { apply andb_true_iff. split; apply Z.leb_le; lia. }
  rewrite E. cbn [assert rbind].
  apply rbind_Ok in H. destruct H as (u & _ & H).
  rinv H.
  repeat match goal with
         | Ha : ?r = Ok _ |- context [rbind ?r _] =>
             rewrite Ha; cbn [rbind]
         end.
  injection H as <-. reflexivity.
Qed.

(** The attribute [DAE_index] is checked by the constructor and never
    read again: constructing with another admissible value gives the
    same object up to that attribute, and [R], [step] and [solve] return
    or raise the same on both objects and leave them equal up to that
    attribute. *)
Theorem DAE_index_has_no_effect (model : Model.t)
    (spsolve : Np.mat -> vec -> Result vec)
    (approx_fprime : approx_fprime_t)
    (t1 dt rho_inf tol : Q) (max_iter : Z)
    (error_function : vec -> Result Q) (numerical_jacobian : bool)
    (d1 d2 : Z) (s1 : Solver) :
  (1 <= d2 <= 2)%Z ->
  __init__ model spsolve t1 dt rho_inf tol max_iter error_function
    numerical_jacobian d1 = Ok s1 ->
  __init__ model spsolve t1 dt rho_inf tol max_iter error_function
    numerical_jacobian d2 = Ok (self.setattr self.a_DAE_index d2 s1)
  /\ (forall tk1 xk1 update_index_set,
        R model tk1 xk1 update_index_set
          (self.setattr self.a_DAE_index d2 s1)
        = (fst (R model tk1 xk1 update_index_set s1),
           self.setattr self.a_DAE_index d2
             (snd (R model tk1 xk1 update_index_set s1))))
  /\ (forall tk1 xk1,
        step model spsolve approx_fprime tk1 xk1
          (self.setattr self.a_DAE_index d2 s1)
        = (fst (step model spsolve approx_fprime tk1 xk1 s1),
           self.setattr self.a_DAE_index d2
             (snd (step model spsolve approx_fprime tk1 xk1 s1))))
  /\ solve model spsolve approx_fprime (self.setattr self.a_DAE_index d2 s1)
     = (fst (solve model spsolve approx_fprime s1),
        self.setattr self.a_DAE_index d2
          (snd (solve model spsolve approx_fprime s1))).
Proof.
  intros Hd H. repeat apply conj.
  - now apply init_DAE_index with (d1 := d1).
  - intros. apply R_commutes.
  - intros. apply step_commutes.
  - apply solve_commutes.
Qed.

Lemma DAE_index_has_no_effect_witness :
  Ball.init 1 40 1
  = Ok (self.setattr self.a_DAE_index 1%Z (Ball.solver (T1_float 1) 40 2))
  /\ fst (R Ball.model 0.1 [0; -(10); 0; 0; 0]%Q true
            (self.setattr self.a_DAE_index 1%Z
               (Ball.solver (T1_float 1) 40 2)))
     = fst (R Ball.model 0.1 [0; -(10); 0; 0; 0]%Q true
              (Ball.solver (T1_float 1) 40 2)).
Proof.
  destruct (@DAE_index_has_no_effect Ball.model Ball.spsolve
              Ball.approx_fprime 1 0.1 0.5 1e-8 40 Np.max_abs true 2 1
              (Ball.solver (T1_float 1) 40 2)) as (Hi & HR & _);
    [lia | reflexivity |].
  split; [exact Hi|].
  exact (f_equal fst (HR 0.1%Q [0; -(10); 0; 0; 0]%Q true)).
Defined.

(** What [fsolve] returns: [converged] is the comparison
    [error <= atol] of the returned error, [f] is [fun] at the returned
    [x] and [error] its error, the iteration count is at most [max_iter]
    and equal to it when not converged, [x] has the size of [x0], and a
    warning with the count and the error is issued exactly when the
    result is not converged; non-convergence is never an exception. *)
Theorem fsolve_result (Arg : Type) (truthy : Arg -> bool)
    (approx_fprime : approx_fprime_t)
    (fun_ : vec -> list Arg -> Result vec) (x0 : vec)
    (jac : Fsolve.jac_arg Arg) (fun_args jac_args : Fsolve.pyargs Arg)
    (error_function : vec -> Result Q) (atol eps : Q) (max_iter : Z)
    (linear_solver : Np.mat -> vec -> Result vec)
    (x : vec) (converged : bool) (error : Q) (i : nat) (f : vec)
    (w : list Fsolve.warning) :
  Fsolve.fsolve truthy approx_fprime fun_ x0 jac fun_args jac_args
    error_function atol eps max_iter linear_solver
  = (Ok (x, converged, error, i, f), w) ->
  converged = Qle_bool error atol
  /\ (i <= Z.to_nat max_iter)%nat
  /\ (converged = false -> i = Z.to_nat max_iter)
  /\ fun_ x (positional fun_args) = Ok f
  /\ error_function f = Ok error
  /\ length x = length x0
  /\ w = (if converged then [] else [Fsolve.UserWarning i error]).
Proof.
  apply fsolve_result_gen.
Qed.

Lemma fsolve_result_witness :
  false = Qle_bool 1 1e-8
  /\ (0 <= Z.to_nat 0)%nat
  /\ (false = false -> 0%nat = Z.to_nat 0)
  /\ Ok [1%Q] = Ok [1%Q]
  /\ Np.max_abs [1%Q] = Ok 1%Q
  /\ length [1%Q] = length [1%Q]
  /\ [Fsolve.UserWarning 0 1] = [Fsolve.UserWarning 0 1].
Proof.
  apply (@fsolve_result unit (fun _ => true) Ball.approx_fprime
           (fun x _ => Ok x) [1%Q]
           (Fsolve.Jac_callable
              (fun _ _ => Ok {| Np.ncols := 1; Np.rows := [[1%Q]] |}))
           (Fsolve.Tuple []) (Fsolve.Tuple []) Np.max_abs 1e-8 1e-12 0
           Ball.spsolve [1%Q] false 1%Q 0%nat [1%Q]
           [Fsolve.UserWarning 0 1]).
  reflexivity.
Defined.

Lemma set_slice_cases (a b : nat) (v x : vec) :
  (exists x', set_slice a b v x = Ok x' /\ length x' = length x)
  \/ set_slice a b v x = Raise (ValueError "could not broadcast input array").
Proof.
  unfold set_slice.
  set (lo := Nat.min a (length x)).
  set (hi := Nat.max lo (Nat.min b (length x))).
  assert (Hlo : (lo <= hi)%nat) by lia.
  assert (Hhi : (hi <= length x)%nat) by lia.
  destruct (length v =? hi - lo)%nat eqn:E.
  - left. eexists. split; [reflexivity|].
    apply Nat.eqb_eq in E.
    rewrite !length_app, length_firstn, length_skipn. lia.
  - destruct v as [|c [|c' v']]; auto.
    left. eexists. split; [reflexivity|].
    rewrite !length_app, length_firstn, repeat_length, length_skipn. lia.
Qed.

(** [pack] never changes the solver, and it either returns an array of
    exactly [nx] entries or raises the [ValueError] of an assignment to a
    slice of another size. *)
Theorem pack_returns_nx
    (q_dot u_dot kappa_g La_g la_g la_gamma kappa_N La_N la_N : vec)
    (s : Solver) :
  snd (pack q_dot u_dot kappa_g La_g la_g la_gamma kappa_N La_N la_N s) = s
  /\ match
       fst (pack q_dot u_dot kappa_g La_g la_g la_gamma kappa_N La_N la_N s)
     with
     | Ok x => length x = self.nx s
     | Raise e => e = ValueError "could not broadcast input array"
     end.
Proof.
  unfold pack, bind, gets, lift. cbn [fst snd]. split; [reflexivity|].
  unfold pack_arrays.
  assert (H0 : length (zeros (self.nx s)) = self.nx s) by apply length_zeros.
  revert H0. generalize (zeros (self.nx s)). intros x0 H0.
  repeat match goal with
         | |- context [rbind (set_slice ?a ?b ?v ?x) _] =>
             let x' := fresh "x" in
             let E := fresh "E" in
             let L := fresh "L" in
             destruct (set_slice_cases a b v x) as [(x' & E & L)|E];
               rewrite E; cbn [rbind]; [|reflexivity]
         end.
  congruence.
Qed.

(** * [GenAlphaDAEPos] *)

Lemma broadcast_cases {A B C} (f : A -> B -> C) (u : list A) (v : list B) :
  (exists w, broadcast f u v = Ok w)
  \/ broadcast f u v
     = Raise (ValueError "operands could not be broadcast together").
Proof.
  unfold broadcast. destruct (length u =? length v)%nat; [eauto|].
  destruct u as [|a [|a' u']]; destruct v as [|b [|b' v']]; eauto.
Qed.

Lemma DAEPos_init_ak (model : Model.t) (t1 dt rho_inf : Q)
    (beta gamma alpha_m alpha_f : option Q) (tol : Q) (max_iter : Z)
    (error_function : vec -> Result Q) (numerical_jacobian pre_cond : bool)
    (s : GenAlphaDAEPos.Solver) :
  GenAlphaDAEPos.__init__ model t1 dt rho_inf beta gamma alpha_m alpha_f tol
    max_iter error_function numerical_jacobian pre_cond = Ok s ->
  GenAlphaDAEPos.self.ak s = None
  /\ GenAlphaDAEPos.self.qk s = Model.q0 model
  /\ GenAlphaDAEPos.self.uk s = Model.u0 model.
Proof.
  unfold GenAlphaDAEPos.__init__. intros H.
  apply rbind_Ok in H. destruct H as ([[[am af] g] b] & _ & H).
  rinv H. injection H as <-. cbn. auto.
Qed.

Lemma DAEPos_update_raises (qk1 : vec) (store : bool)
    (s : GenAlphaDAEPos.Solver) :
  GenAlphaDAEPos.self.ak s = None ->
  exists e : exn,
    GenAlphaDAEPos.update qk1 store s = (Raise e, s)
    /\ (e = AttributeError "ak"
        \/ e = ValueError "operands could not be broadcast together")
    /\ (length qk1 = length (GenAlphaDAEPos.self.qk s) ->
        length (GenAlphaDAEPos.self.uk s) = length (GenAlphaDAEPos.self.qk s) ->
        e = AttributeError "ak").
Proof.
  intros Hak. unfold GenAlphaDAEPos.update.
  rewrite bind_gets, bind_gets. cbv beta.
  unfold bind at 1, lift at 1.
  destruct (broadcast_cases Qminus qk1 (GenAlphaDAEPos.self.qk s))
    as [(a & Ea)|Ea]; unfold sub at 1; rewrite Ea.
  2:{ eexists. split; [reflexivity|]. split; [right; reflexivity|].
      intros H1 _. unfold broadcast in Ea.
      apply Nat.eqb_eq in H1. rewrite H1 in Ea. discriminate. }
  rewrite bind_gets. cbv beta.
  unfold bind at 1, lift at 1.
  destruct (broadcast_cases Qminus a
              (scale (GenAlphaDAEPos.self.dt s) (GenAlphaDAEPos.self.uk s)))
    as [(a' & Ea')|Ea']; unfold sub at 1; rewrite Ea'.
  2:{ eexists. split; [reflexivity|]. split; [right; reflexivity|].
      intros H1 H2. unfold broadcast in Ea, Ea'.
      pose proof H1 as H1'. apply Nat.eqb_eq in H1'. rewrite H1' in Ea.
      injection Ea as <-.
      assert (E : (length (zip_with Qminus qk1 (GenAlphaDAEPos.self.qk s))
                   =? length (scale (GenAlphaDAEPos.self.dt s)
                                (GenAlphaDAEPos.self.uk s)))%nat = true).
      { apply Nat.eqb_eq. rewrite length_zip_with, length_scale. lia. }
      rewrite E in Ea'. discriminate. }
  rewrite bind_gets, bind_gets. cbv beta.
  unfold bind at 1, getattr at 1. rewrite Hak.
  eexists. split; [reflexivity|]. split; [left; reflexivity|].
  reflexivity.
Qed.

(** A [GenAlphaDAEPos] object as its constructor builds it has no
    attribute [ak], which [update] reads: on such an object [update]
    never returns.  It raises [AttributeError] for [ak], or before that
    the [ValueError] of operands that cannot be broadcast, and leaves the
    object unchanged. *)
Theorem DAEPos_update_needs_ak (model : Model.t) (t1 dt rho_inf : Q)
    (beta gamma alpha_m alpha_f : option Q) (tol : Q) (max_iter : Z)
    (error_function : vec -> Result Q) (numerical_jacobian pre_cond : bool)
    (s : GenAlphaDAEPos.Solver) :
  GenAlphaDAEPos.__init__ model t1 dt rho_inf beta gamma alpha_m alpha_f tol
    max_iter error_function numerical_jacobian pre_cond = Ok s ->
  GenAlphaDAEPos.self.ak s = None
  /\ forall (qk1 : vec) (store : bool),
       snd (GenAlphaDAEPos.update qk1 store s) = s
       /\ (fst (GenAlphaDAEPos.update qk1 store s)
           = Raise (AttributeError "ak")
           \/ fst (GenAlphaDAEPos.update qk1 store s)
              = Raise (ValueError "operands could not be broadcast together"))
       /\ (length qk1 = length (Model.q0 model) ->
           length (Model.u0 model) = length (Model.q0 model) ->
           fst (GenAlphaDAEPos.update qk1 store s)
           = Raise (AttributeError "ak")).
Proof.
  intros H. apply DAEPos_init_ak in H. destruct H as (Hak & Hq & Hu).
  split; [exact Hak|]. intros qk1 store.
  destruct (@DAEPos_update_raises qk1 store s Hak) as (e & He & H2 & H3).
  rewrite Hq, Hu in H3. rewrite He. cbn [fst snd].
  split; [reflexivity|]. split.
  - destruct H2 as [-> | ->]; [left | right]; reflexivity.
  - intros L1 L2. now rewrite (H3 L1 L2).
Qed.

Lemma DAEPos_update_needs_ak_witness :
  match GenAlphaDAEPos.__init__ Ball.model 1 0.1 1 None None None None 1e-8
          40 Np.max_abs false true with
  | Ok s =>
      fst (GenAlphaDAEPos.update [1%Q] false s) = Raise (AttributeError "ak")
  | Raise _ => False
  end.
Proof.
  destruct (GenAlphaDAEPos.__init__ Ball.model 1 0.1 1 None None None None
              1e-8 40 Np.max_abs false true) as [s|e] eqn:H.
  - apply DAEPos_update_needs_ak in H. destruct H as (_ & H).
    destruct (H [1%Q] false) as (_ & _ & H3).
    apply H3; reflexivity.
  - vm_compute in H. discriminate.
Defined.

Lemma DAEPos_unpack_slices (x : vec) (s : GenAlphaDAEPos.Solver) :
  GenAlphaDAEPos.unpack x s =
  (Ok (slice 0 (GenAlphaDAEPos.self.nq s) x,
       slice (GenAlphaDAEPos.self.nq s)
             (GenAlphaDAEPos.self.nq s + GenAlphaDAEPos.self.nla_g s) x,
       slice (GenAlphaDAEPos.self.nq s + GenAlphaDAEPos.self.nla_g s)
             (GenAlphaDAEPos.self.nq s + GenAlphaDAEPos.self.nla_g s
              + GenAlphaDAEPos.self.nla_gamma s) x), s).
Proof. reflexivity. Qed.

Lemma DAEPos_pack_concat (q la_g la_gamma : vec)
    (s : GenAlphaDAEPos.Solver) :
  GenAlphaDAEPos.self.nR s
  = (GenAlphaDAEPos.self.nq s + GenAlphaDAEPos.self.nla_g s
     + GenAlphaDAEPos.self.nla_gamma s)%nat ->
  length q = GenAlphaDAEPos.self.nq s ->
  length la_g = GenAlphaDAEPos.self.nla_g s ->
  length la_gamma = GenAlphaDAEPos.self.nla_gamma s ->
  GenAlphaDAEPos.pack q la_g la_gamma s = (Ok (q ++ la_g ++ la_gamma), s).
Proof.
  intros HnR Hq Hg Hga. unfold GenAlphaDAEPos.pack.
  do 4 rewrite bind_gets. cbv beta.
  change (zeros (GenAlphaDAEPos.self.nR s))
    with ([] ++ zeros (GenAlphaDAEPos.self.nR s)).
  repeat (erewrite bind_lift_ok by (apply set_slice_zeros; len)).
  unfold ret. f_equal. f_equal.
  replace (GenAlphaDAEPos.self.nR s - _ - _ - _)%nat with 0%nat by len.
  unfold zeros; cbn [repeat app].
  now rewrite app_nil_r, <- !app_assoc.
Qed.

(** For arrays of the configured dimensions [pack] of [GenAlphaDAEPos]
    returns a vector of [nR] entries from which [unpack] returns the three
    arrays, and every vector of [nR] entries is the [pack] of what
    [unpack] returns for it; neither method changes the solver. *)
Theorem DAEPos_pack_unpack_roundtrip (s : GenAlphaDAEPos.Solver) :
  GenAlphaDAEPos.self.nR s
  = (GenAlphaDAEPos.self.nq s + GenAlphaDAEPos.self.nla_g s
     + GenAlphaDAEPos.self.nla_gamma s)%nat ->
  (forall q la_g la_gamma : vec,
     length q = GenAlphaDAEPos.self.nq s ->
     length la_g = GenAlphaDAEPos.self.nla_g s ->
     length la_gamma = GenAlphaDAEPos.self.nla_gamma s ->
     exists x : vec,
       GenAlphaDAEPos.pack q la_g la_gamma s = (Ok x, s)
       /\ length x = GenAlphaDAEPos.self.nR s
       /\ GenAlphaDAEPos.unpack x s = (Ok (q, la_g, la_gamma), s))
  /\ (forall x : vec,
        length x = GenAlphaDAEPos.self.nR s ->
        exists q la_g la_gamma : vec,
          GenAlphaDAEPos.unpack x s = (Ok (q, la_g, la_gamma), s)
          /\ GenAlphaDAEPos.pack q la_g la_gamma s = (Ok x, s)).
Proof.
  intros HnR. split.
  - intros q g ga Hq Hg Hga.
    exists (q ++ g ++ ga).
    split; [now apply DAEPos_pack_concat|].
    split; [len|].
    rewrite DAEPos_unpack_slices. repeat f_equal.
    + apply (@slice_mid _ [] q (g ++ ga));
        [reflexivity | reflexivity | simpl; lia].
    + apply (@slice_mid _ q g ga); [reflexivity | len | len].
    + apply (@slice_mid _ (q ++ g) ga []);
        [now rewrite <- !app_assoc, app_nil_r | len | len].
  - intros x Hx. do 3 eexists.
    rewrite DAEPos_unpack_slices. split; [reflexivity|].
    rewrite DAEPos_pack_concat; try assumption; try len.
    rewrite !slice_split by lia.
    rewrite slice_all by lia. reflexivity.
Qed.

Lemma DAEPos_pack_unpack_roundtrip_witness :
  match GenAlphaDAEPos.__init__ Ball.model 1 0.1 1 None None None None 1e-8
          40 Np.max_abs false true with
  | Ok s =>
      exists x : vec,
        GenAlphaDAEPos.pack [7%Q] [] [] s = (Ok x, s)
        /\ length x = GenAlphaDAEPos.self.nR s
        /\ GenAlphaDAEPos.unpack x s = (Ok ([7%Q], [], []), s)
  | Raise _ => False
  end.
Proof.
  destruct (GenAlphaDAEPos.__init__ Ball.model 1 0.1 1 None None None None
              1e-8 40 Np.max_abs false true) as [s|e] eqn:H.
  - assert (Hd : GenAlphaDAEPos.self.nq s = 1%nat
                 /\ GenAlphaDAEPos.self.nla_g s = 0%nat
                 /\ GenAlphaDAEPos.self.nla_gamma s = 0%nat
                 /\ GenAlphaDAEPos.self.nR s = 1%nat).
    { vm_compute in H. injection H as <-. repeat split. }
    destruct Hd as (H1 & H2 & H3 & H4).
    apply (proj1 (@DAEPos_pack_unpack_roundtrip s
                    ltac:(rewrite H1, H2, H3, H4; reflexivity)));
      [now rewrite H1 | now rewrite H2 | now rewrite H3].
  - vm_compute in H. discriminate.
Defined.

(** * Packing in [GenAlphaFirstOrderVelocityGGL] *)

Lemma GGL_unpack_slices (x : vec) (s : GenAlphaFirstOrderVelocityGGL.Solver) :
  let nq := GenAlphaFirstOrderVelocityGGL.self.nq s in
  let nu := GenAlphaFirstOrderVelocityGGL.self.nu s in
  let nla_g := GenAlphaFirstOrderVelocityGGL.self.nla_g s in
  let nla_gamma := GenAlphaFirstOrderVelocityGGL.self.nla_gamma s in
  GenAlphaFirstOrderVelocityGGL.unpack x s =
  (Ok (slice 0 nq x, slice nq (nq + nu) x,
       slice (nq + nu) (nq + nu + nla_g) x,
       slice (nq + nu + nla_g) (nq + nu + nla_g + nla_gamma) x,
       slice (nq + nu + nla_g + nla_gamma)
             (nq + nu + 2 * nla_g + nla_gamma) x), s).
Proof. reflexivity. Qed.

Lemma GGL_pack_concat (q u g ga mu : vec)
    (s : GenAlphaFirstOrderVelocityGGL.Solver) :
  let nq := GenAlphaFirstOrderVelocityGGL.self.nq s in
  let nu := GenAlphaFirstOrderVelocityGGL.self.nu s in
  let nla_g := GenAlphaFirstOrderVelocityGGL.self.nla_g s in
  let nla_gamma := GenAlphaFirstOrderVelocityGGL.self.nla_gamma s in
  GenAlphaFirstOrderVelocityGGL.self.nx s
  = (nq + nu + 2 * nla_g + nla_gamma)%nat ->
  length q = nq -> length u = nu -> length g = nla_g ->
  length ga = nla_gamma -> length mu = nla_g ->
  GenAlphaFirstOrderVelocityGGL.pack q u g ga mu s
  = (Ok (q ++ u ++ g ++ ga ++ mu), s).
Proof.
  intros nq nu nla_g nla_gamma Hnx Hq Hu Hg Hga Hmu.
  unfold GenAlphaFirstOrderVelocityGGL.pack.
  do 5 rewrite bind_gets. cbv beta.
  fold nq nu nla_g nla_gamma.
  change (zeros (GenAlphaFirstOrderVelocityGGL.self.nx s))
    with ([] ++ zeros (GenAlphaFirstOrderVelocityGGL.self.nx s)).
  repeat (erewrite bind_lift_ok by (apply set_slice_zeros; len)).
  unfold ret. f_equal. f_equal.
  replace (GenAlphaFirstOrderVelocityGGL.self.nx s - _ - _ - _ - _ - _)%nat
    with 0%nat by len.
  unfold zeros; cbn [repeat app].
  now rewrite app_nil_r, <- !app_assoc.
Qed.

(** For arrays of the configured dimensions [pack] of the GGL solver
    returns a vector of [nx] entries from which [unpack] returns the five
    arrays, and every vector of [nx] entries is the [pack] of what
    [unpack] returns for it; neither method changes the solver. *)
Theorem GGL_pack_unpack_roundtrip
    (s : GenAlphaFirstOrderVelocityGGL.Solver) :
  GenAlphaFirstOrderVelocityGGL.self.nx s
  = (GenAlphaFirstOrderVelocityGGL.self.nq s
     + GenAlphaFirstOrderVelocityGGL.self.nu s
     + 2 * GenAlphaFirstOrderVelocityGGL.self.nla_g s
     + GenAlphaFirstOrderVelocityGGL.self.nla_gamma s)%nat ->
  (forall q_dot u_dot la_g la_gamma mu_g : vec,
     length q_dot = GenAlphaFirstOrderVelocityGGL.self.nq s ->
     length u_dot = GenAlphaFirstOrderVelocityGGL.self.nu s ->
     length la_g = GenAlphaFirstOrderVelocityGGL.self.nla_g s ->
     length la_gamma = GenAlphaFirstOrderVelocityGGL.self.nla_gamma s ->
     length mu_g = GenAlphaFirstOrderVelocityGGL.self.nla_g s ->
     exists x : vec,
       GenAlphaFirstOrderVelocityGGL.pack q_dot u_dot la_g la_gamma mu_g s
         = (Ok x, s)
       /\ length x = GenAlphaFirstOrderVelocityGGL.self.nx s
       /\ GenAlphaFirstOrderVelocityGGL.unpack x s
          = (Ok (q_dot, u_dot, la_g, la_gamma, mu_g), s))
  /\ (forall x : vec,
        length x = GenAlphaFirstOrderVelocityGGL.self.nx s ->
        exists q_dot u_dot la_g la_gamma mu_g : vec,
          GenAlphaFirstOrderVelocityGGL.unpack x s
            = (Ok (q_dot, u_dot, la_g, la_gamma, mu_g), s)
          /\ GenAlphaFirstOrderVelocityGGL.pack q_dot u_dot la_g la_gamma
               mu_g s = (Ok x, s)).
Proof.
  intros Hnx. split.
  - intros q u g ga mu Hq Hu Hg Hga Hmu.
    exists (q ++ u ++ g ++ ga ++ mu).
    split; [now apply GGL_pack_concat|].
    split; [len|].
    rewrite GGL_unpack_slices. cbv zeta. repeat f_equal.
    + apply (@slice_mid _ [] q (u ++ g ++ ga ++ mu));
        [reflexivity | reflexivity | simpl; lia].
    + apply (@slice_mid _ q u (g ++ ga ++ mu)); [reflexivity | len | len].
    + apply (@slice_mid _ (q ++ u) g (ga ++ mu));
        [now rewrite <- !app_assoc | len | len].
    + apply (@slice_mid _ (q ++ u ++ g) ga mu);
        [now rewrite <- !app_assoc | len | len].
    + apply (@slice_mid _ (q ++ u ++ g ++ ga) mu []);
        [now rewrite <- !app_assoc, app_nil_r | len | len].
  - intros x Hx. do 5 eexists.
    rewrite GGL_unpack_slices. cbv zeta. split; [reflexivity|].
    rewrite GGL_pack_concat; try assumption; try len.
    rewrite !slice_split by lia.
    rewrite slice_all by lia. reflexivity.
Qed.

Lemma GGL_pack_unpack_roundtrip_witness :
  exists x : vec,
    GenAlphaFirstOrderVelocityGGL.pack [1%Q] [2%Q] [] [] []
      (Ball.ggl_solver (T1_float 1)) = (Ok x, Ball.ggl_solver (T1_float 1))
    /\ length x
       = GenAlphaFirstOrderVelocityGGL.self.nx (Ball.ggl_solver (T1_float 1))
    /\ GenAlphaFirstOrderVelocityGGL.unpack x (Ball.ggl_solver (T1_float 1))
       = (Ok ([1%Q], [2%Q], [], [], []), Ball.ggl_solver (T1_float 1)).
Proof.
  apply (proj1 (@GGL_pack_unpack_roundtrip (Ball.ggl_solver (T1_float 1))
                  eq_refl));
    reflexivity.
Defined.
